(** * Application manager: deployment orchestration

    A shallow embedding of the application manager
    (internal/pkg/server/application/manager.go) and of the parametrization
    engine (internal/pkg/entities/parameters.go), with the properties of the
    deploy, undeploy and connection-check workflows.

    Remote collaborators (descriptor and instance store, network-connection
    store, hand-off queue) are interfaces: every call threads the state of the
    remote side and is logged, with its outcome, in a trace. *)

From stdpp Require Import gmap strings list fin_maps pretty.
From Stdlib Require Import ZArith Ascii.

Local Open Scope string_scope.
Local Open Scope Z_scope.

(** ** Errors (github.com/nalej/derrors and Go's error) *)

Module derrors.

Inductive ErrorType :=
| Generic | InvalidArgument | NotFound | FailedPrecondition
| PermissionDenied | Internal.

Record Error := mkError {
  errType : ErrorType;
  message : string;
  parameters : list string
}.

Definition NewInvalidArgumentError (msg : string) : Error :=
  mkError InvalidArgument msg [].
Definition NewNotFoundError (msg : string) : Error :=
  mkError NotFound msg [].
Definition NewFailedPreconditionError (msg : string) : Error :=
  mkError FailedPrecondition msg [].

(* e.WithParams(p1, ..., pn) appends to the parameters of the error *)
Definition WithParams (e : Error) (ps : list string) : Error :=
  mkError (errType e) (message e) (parameters e ++ ps)%list.

End derrors.

#[global] Instance ErrorType_eq_dec : EqDecision derrors.ErrorType.
Proof. solve_decision. Defined.

#[global] Instance Error_eq_dec : EqDecision derrors.Error.
Proof. solve_decision. Defined.

(** A Go [error]: a derror returned as it is, a derror converted by
    conversions.ToGRPCError, or the error of a collaborator or of a library. *)
Inductive error :=
| Derror (e : derrors.Error)
| GRPCError (e : derrors.Error)
| ForeignError (descr : string).

#[global] Instance error_eq_dec : EqDecision error.
Proof. solve_decision. Defined.

(** The error class a caller observes: ToGRPCError keeps the class of the
    derror in the status code. *)
Definition errorClass (e : error) : option derrors.ErrorType :=
  match e with
  | Derror d | GRPCError d => Some (derrors.errType d)
  | ForeignError _ => None
  end.

(** (value, error) results: [inl] is the error, [inr] the value. *)
Definition result (A : Type) : Type := error + A.
Definition dresult (A : Type) : Type := derrors.Error + A.

Definition is_ok {E A} (r : E + A) : bool :=
  match r with inr _ => true | inl _ => false end.

(** ** Messages of the manager *)

Definition RequiredParamNotFilled : string := "Required parameter not filled".
Definition RequiredOutboundNotFilled : string := "Required outbound not filled".
Definition OutboundNotDefined : string := "Deploy outbound connection not defined".

(** ** Data model (the fields the sources read or write) *)

Inductive ParamDataType :=
| ParamDataType_BOOLEAN | ParamDataType_INTEGER | ParamDataType_FLOAT
| ParamDataType_ENUM | ParamDataType_STRING | ParamDataType_PASSWORD
| ParamDataType_unknown (n : Z).

Module AppParameter.
Record t := mk {
  Name : string;
  Path : string;
  Type_ : ParamDataType;
  EnumValues : list string;
  Required : bool
}.
End AppParameter.

Module InstanceParameter.
Record t := mk {
  ParameterName : string;
  Value : string
}.
End InstanceParameter.

(** *InstanceParameterList: nil, or a list that is itself nil or not (a nil
    slice and an empty one are both []). *)
Definition InstanceParameterList := option (list InstanceParameter.t).

Module SecurityRule.
Record t := mk {
  OrganizationId : string;
  AppDescriptorId : string;
  RuleId : string;
  Name : string;
  TargetServiceGroupName : string;
  TargetServiceName : string;
  TargetPort : Z;
  Access : Z;
  AuthServiceGroupName : string;
  AuthServices : list string;
  DeviceGroupIds : list string;
  DeviceGroupNames : list string;
  OutboundNetInterface : string
}.
End SecurityRule.

Module Storage.
Record t := mk { Size : Z; MountPath : string; Type_ : Z }.
End Storage.

Module ImageCredentials.
Record t := mk {
  Username : string; Password : string; Email : string;
  DockerRepository : string
}.
End ImageCredentials.

Module DeploySpecs.
Record t := mk { Cpu : Z; Memory : Z; Replicas : Z }.
End DeploySpecs.

Module Endpoint.
Record t := mk { Type_ : Z; Path : string }.
End Endpoint.

Module Port.
Record t := mk {
  Name : string;
  InternalPort : Z;
  ExposedPort : Z;
  Endpoints : list (option Endpoint.t)
}.
End Port.

Module ConfigFile.
Record t := mk {
  OrganizationId : string;
  AppDescriptorId : string;
  ConfigFileId : string;
  Name : string;
  Content : string;
  MountPath : string
}.
End ConfigFile.

Module Service.
Record t := mk {
  OrganizationId : string;
  AppDescriptorId : string;
  ServiceGroupId : string;
  ServiceId : string;
  Name : string;
  Type_ : Z;
  Image : string;
  Credentials : option ImageCredentials.t;
  Specs : option DeploySpecs.t;
  Storage : list (option Storage.t);
  ExposedPorts : list (option Port.t);
  EnvironmentVariables : gmap string string;
  Configs : list (option ConfigFile.t);
  Labels : gmap string string;
  DeployAfter : list string;
  RunArguments : list string
}.
End Service.

Module ServiceGroupDeploymentSpecs.
Record t := mk { Replicas : Z; MultiClusterReplica : bool }.
End ServiceGroupDeploymentSpecs.

Module ServiceGroup.
Record t := mk {
  OrganizationId : string;
  AppDescriptorId : string;
  ServiceGroupId : string;
  Name : string;
  Services : list (option Service.t);
  Policy : Z;
  Specs : option ServiceGroupDeploymentSpecs.t;
  Labels : gmap string string
}.
End ServiceGroup.

Module NetworkInterface.
(* InboundNetworkInterface and OutboundNetworkInterface *)
Record t := mk { Name : string; Required : bool }.
End NetworkInterface.

Module AppDescriptor.
Record t := mk {
  OrganizationId : string;
  AppDescriptorId : string;
  Name : string;
  ConfigurationOptions : gmap string string;
  EnvironmentVariables : gmap string string;
  Labels : gmap string string;
  Rules : list (option SecurityRule.t);
  Groups : list (option ServiceGroup.t);
  Parameters : list AppParameter.t;
  InboundNetInterfaces : list NetworkInterface.t;
  OutboundNetInterfaces : list NetworkInterface.t
}.
End AppDescriptor.

Module ParametrizedDescriptor.
Record t := mk {
  OrganizationId : string;
  AppDescriptorId : string;
  AppInstanceId : string;
  Name : string;
  ConfigurationOptions : gmap string string;
  EnvironmentVariables : gmap string string;
  Labels : gmap string string;
  Rules : list (option SecurityRule.t);
  Groups : list (option ServiceGroup.t)
}.
End ParametrizedDescriptor.

(** ** Identifiers, instances, connections and requests *)

Module AppDescriptorId.
Record t := mk { OrganizationId : string; AppDescriptorId : string }.
End AppDescriptorId.

Module AppInstanceId.
Record t := mk { OrganizationId : string; AppInstanceId : string }.
End AppInstanceId.

(** grpc_application_go.AppInstance, as the store returns it. *)
Module AppInstance.
Record t := mk {
  OrganizationId : string;
  AppDescriptorId : string;
  AppInstanceId : string;
  Name : string;
  ConfigurationOptions : gmap string string;
  EnvironmentVariables : gmap string string;
  Labels : gmap string string;
  Rules : list (option SecurityRule.t);
  InboundNetInterfaces : list NetworkInterface.t;
  OutboundNetInterfaces : list NetworkInterface.t
}.
End AppInstance.

Module ConnectionRequest.
Record t := mk {
  SourceOutboundName : string;
  TargetInstanceId : string;
  TargetInboundName : string
}.
End ConnectionRequest.

(** grpc_application_network_go.ConnectionInstance *)
Module ConnectionInstance.
Record t := mk {
  OrganizationId : string;
  SourceInstanceId : string;
  SourceInstanceName : string;
  TargetInstanceId : string;
  InboundName : string;
  OutboundName : string
}.
End ConnectionInstance.

Module RemoveConnectionRequest.
Record t := mk {
  OrganizationId : string;
  SourceInstanceId : string;
  TargetInstanceId : string;
  InboundName : string;
  OutboundName : string;
  UserConfirmation : bool
}.
End RemoveConnectionRequest.

(** grpc_application_manager_go.AppInstance: the instance expanded with its
    connections. *)
Module ExpandedAppInstance.
Record t := mk {
  OrganizationId : string;
  AppDescriptorId : string;
  AppInstanceId : string;
  Name : string;
  InboundConnections : list ConnectionInstance.t;
  OutboundConnections : list ConnectionInstance.t
}.
End ExpandedAppInstance.

Module DeployRequest.
Record t := mk {
  OrganizationId : string;
  AppDescriptorId : string;
  Name : string;
  Parameters : InstanceParameterList;
  OutboundConnections : list ConnectionRequest.t
}.
End DeployRequest.

Module AddAppInstanceRequest.
Record t := mk {
  OrganizationId : string;
  AppDescriptorId : string;
  Name : string;
  Parameters : InstanceParameterList
}.
End AddAppInstanceRequest.

(** grpc_conductor_go.DeploymentRequest: the command handed to the scheduler.
    A slot of OutboundConnections is a pointer, nil where nothing was
    stored. *)
Module DeploymentRequest.
Record t := mk {
  RequestId : string;
  AppInstanceId : AppInstanceId.t;
  Name : string;
  OutboundConnections : list (option ConnectionInstance.t)
}.
End DeploymentRequest.

Inductive ApplicationStatus := ApplicationStatus_QUEUED.

Module DeploymentResponse.
Record t := mk {
  RequestId : string;
  AppInstanceId : string;
  Status : ApplicationStatus
}.
End DeploymentResponse.

Module UndeployRequest.
Record t := mk {
  OrganizationId : string;
  AppInstanceId : string;
  UserConfirmation : bool
}.
End UndeployRequest.

(** grpc_conductor_go.UndeployRequest *)
Module ConductorUndeployRequest.
Record t := mk { OrganizationId : string; AppInstanceId : string }.
End ConductorUndeployRequest.

Inductive Success := mkSuccess.

(** CheckInboundResponse: the result of one checkInbounds operation. *)
Module CheckInboundResponse.
Record t := mk {
  InstanceId : string;
  InboundName : string;
  Result : bool
}.
End CheckInboundResponse.

#[global] Instance CheckInboundResponse_eq_dec : EqDecision CheckInboundResponse.t.
Proof. solve_decision. Defined.

(** ** Calls to the collaborators, as they are logged *)

Inductive Event :=
| EvGetAppDescriptor (id : AppDescriptorId.t) (r : result AppDescriptor.t)
| EvRemoveAppDescriptor (id : AppDescriptorId.t) (r : result Success)
| EvListAppInstances (org : string) (r : result (list AppInstance.t))
| EvGetAppInstance (id : AppInstanceId.t) (r : result AppInstance.t)
| EvAddAppInstance (req : AddAppInstanceRequest.t) (r : result AppInstance.t)
| EvUpdateAppInstance (inst : AppInstance.t) (r : result Success)
| EvRemoveAppInstance (id : AppInstanceId.t) (r : result Success)
| EvAddParametrizedDescriptor (pd : ParametrizedDescriptor.t)
    (r : result ParametrizedDescriptor.t)
| EvListInboundConnections (id : AppInstanceId.t)
    (r : result (option (list ConnectionInstance.t)))
| EvListOutboundConnections (id : AppInstanceId.t)
    (r : result (option (list ConnectionInstance.t)))
| EvRemoveConnection (req : RemoveConnectionRequest.t) (r : result Success)
| EvSendDeploy (req : DeploymentRequest.t) (r : option error)
| EvSendUndeploy (req : ConductorUndeployRequest.t) (r : option error)
| EvRandInt (n : Z)
| EvLogError (msg : string).

(** The collaborators of the manager: every remote call is a transformer of
    the remote state [St]. The scheduler of the goroutines of checkConnections
    is part of the environment: the order in which the lookups reach the
    store and the order in which the responses arrive on the channel. *)
Class Collaborators (St : Type) := {
  (* appClient *)
  GetAppDescriptor : AppDescriptorId.t -> St -> result AppDescriptor.t * St;
  RemoveAppDescriptor_ : AppDescriptorId.t -> St -> result Success * St;
  ListAppInstances : string -> St -> result (list AppInstance.t) * St;
  GetAppInstance_ : AppInstanceId.t -> St -> result AppInstance.t * St;
  AddAppInstance : AddAppInstanceRequest.t -> St -> result AppInstance.t * St;
  UpdateAppInstance : AppInstance.t -> St -> result Success * St;
  RemoveAppInstance : AppInstanceId.t -> St -> result Success * St;
  AddParametrizedDescriptor :
    ParametrizedDescriptor.t -> St -> result ParametrizedDescriptor.t * St;
  (* appNetClient *)
  ListInboundConnections :
    AppInstanceId.t -> St -> result (option (list ConnectionInstance.t)) * St;
  ListOutboundConnections :
    AppInstanceId.t -> St -> result (option (list ConnectionInstance.t)) * St;
  (* appNetManager *)
  RemoveConnection : RemoveConnectionRequest.t -> St -> result Success * St;
  (* appOpsProducer *)
  SendDeploy : DeploymentRequest.t -> St -> option error * St;
  SendUndeploy : ConductorUndeployRequest.t -> St -> option error * St;
  (* math/rand *)
  rand_Int : St -> Z * St;
  (* entities.ToAppInstance *)
  ToAppInstance : AppInstance.t -> ExpandedAppInstance.t;
  (* goroutine scheduling in checkConnections *)
  lookupOrder : list (string * list string) -> list (string * list string);
  arrivalOrder : list CheckInboundResponse.t -> list CheckInboundResponse.t;
  lookupOrder_perm : forall l, lookupOrder l ≡ₚ l;
  arrivalOrder_perm : forall l, arrivalOrder l ≡ₚ l
}.

(** ** The monad of the workflows

    A computation runs on the state of the remote side and yields its value,
    the new state and the calls it has made, in order. *)

Definition M (St A : Type) : Type := St -> A * St * list Event.

Definition ret {St A} (a : A) : M St A := fun s => (a, s, []).

Definition bind {St A B} (m : M St A) (k : A -> M St B) : M St B :=
  fun s =>
    let '(a, s1, t1) := m s in
    let '(b, s2, t2) := k a s1 in
    (b, s2, (t1 ++ t2)%list).

Notation "x <- m ;; k" := (bind m (fun x => k))
  (at level 100, m at next level, right associativity).
Notation "m ;;; k" := (bind m (fun _ => k))
  (at level 100, right associativity).

(** What a run returns, where it leaves the remote side, what it called. *)
Definition value {St A} (r : A * St * list Event) : A := fst (fst r).
Definition final {St A} (r : A * St * list Event) : St := snd (fst r).
Definition events {St A} (r : A * St * list Event) : list Event := snd r.

(** One call: run it on the remote state and log it with its outcome. *)
Definition call {St A} (f : St -> A * St) (ev : A -> Event) : M St A :=
  fun s => let (r, s') := f s in (r, s', [ev r]).

Definition logError {St} (msg : string) : M St unit :=
  fun s => (tt, s, [EvLogError msg]).

(** for _, x := range l { body x } with no early exit *)
Fixpoint forEach {St A} (l : list A) (body : A -> M St unit) : M St unit :=
  match l with
  | [] => ret tt
  | x :: rest => body x ;;; forEach rest body
  end.

(** * Parametrization engine (entities/parameters.go) *)

(** ** Copies of the descriptor structure

    A [[]*T] is a list of pointers: [None] is a nil element. Maps and string
    lists are carried over as they are (see the memory model below for what
    that means for sharing). *)

(* copySecurityRule returns a copy of a given securityRule; the fields the
   literal does not list keep their zero value *)
Definition copySecurityRule (rule : option SecurityRule.t) : option SecurityRule.t :=
  match rule with
  | None => None
  | Some rule =>
    Some {|
      SecurityRule.OrganizationId := SecurityRule.OrganizationId rule;
      SecurityRule.AppDescriptorId := SecurityRule.AppDescriptorId rule;
      SecurityRule.RuleId := SecurityRule.RuleId rule;
      SecurityRule.Name := SecurityRule.Name rule;
      SecurityRule.TargetServiceGroupName := "";
      SecurityRule.TargetServiceName := SecurityRule.TargetServiceName rule;
      SecurityRule.TargetPort := SecurityRule.TargetPort rule;
      SecurityRule.Access := SecurityRule.Access rule;
      SecurityRule.AuthServiceGroupName := SecurityRule.AuthServiceGroupName rule;
      SecurityRule.AuthServices := SecurityRule.AuthServices rule;
      SecurityRule.DeviceGroupIds := SecurityRule.DeviceGroupIds rule;
      SecurityRule.DeviceGroupNames := SecurityRule.DeviceGroupNames rule;
      SecurityRule.OutboundNetInterface := ""
    |}
  end.

(* copyStorage returns a copy of a given Storage *)
Definition copyStorage (storage : option Storage.t) : option Storage.t :=
  match storage with
  | None => None
  | Some storage =>
    Some {|
      Storage.Size := Storage.Size storage;
      Storage.MountPath := Storage.MountPath storage;
      Storage.Type_ := Storage.Type_ storage
    |}
  end.

(* copyImageCredentials returns a copy of a given Image Credential *)
Definition copyImageCredential (credentials : option ImageCredentials.t)
  : option ImageCredentials.t :=
  match credentials with
  | None => None
  | Some credentials =>
    Some {|
      ImageCredentials.Username := ImageCredentials.Username credentials;
      ImageCredentials.Password := ImageCredentials.Password credentials;
      ImageCredentials.Email := ImageCredentials.Email credentials;
      ImageCredentials.DockerRepository :=
        ImageCredentials.DockerRepository credentials
    |}
  end.

(* copyDeploySpecs returns a copy of a given deploy spec *)
Definition copyDeploySpec (specs : option DeploySpecs.t) : option DeploySpecs.t :=
  match specs with
  | None => None
  | Some specs =>
    Some {|
      DeploySpecs.Cpu := DeploySpecs.Cpu specs;
      DeploySpecs.Memory := DeploySpecs.Memory specs;
      DeploySpecs.Replicas := DeploySpecs.Replicas specs
    |}
  end.

(* copyEndPoint returns a copy of a given endpoint *)
Definition copyEndPoint (endpoint : option Endpoint.t) : option Endpoint.t :=
  match endpoint with
  | None => None
  | Some endpoint =>
    Some {|
      Endpoint.Type_ := Endpoint.Type_ endpoint;
      Endpoint.Path := Endpoint.Path endpoint
    |}
  end.

(* copyExposedPort returns a copy of a given exposed port *)
Definition copyExposedPort (port : option Port.t) : option Port.t :=
  match port with
  | None => None
  | Some port =>
    let endpoints := map copyEndPoint (Port.Endpoints port) in
    Some {|
      Port.Name := Port.Name port;
      Port.InternalPort := Port.InternalPort port;
      Port.ExposedPort := Port.ExposedPort port;
      Port.Endpoints := endpoints
    |}
  end.

(* copyConfigFile returns a copy of a given configFile *)
Definition copyConfigFile (configFile : option ConfigFile.t) : option ConfigFile.t :=
  match configFile with
  | None => None
  | Some configFile =>
    Some {|
      ConfigFile.OrganizationId := ConfigFile.OrganizationId configFile;
      ConfigFile.AppDescriptorId := ConfigFile.AppDescriptorId configFile;
      ConfigFile.ConfigFileId := ConfigFile.ConfigFileId configFile;
      ConfigFile.Name := ConfigFile.Name configFile;
      ConfigFile.Content := ConfigFile.Content configFile;
      ConfigFile.MountPath := ConfigFile.MountPath configFile
    |}
  end.

(* copyService returns a copy of a given Service *)
Definition copyService (service : option Service.t) : option Service.t :=
  match service with
  | None => None
  | Some service =>
    let storage := map copyStorage (Service.Storage service) in
    let ports := map copyExposedPort (Service.ExposedPorts service) in
    let files := map copyConfigFile (Service.Configs service) in
    Some {|
      Service.OrganizationId := Service.OrganizationId service;
      Service.AppDescriptorId := Service.AppDescriptorId service;
      Service.ServiceGroupId := Service.ServiceGroupId service;
      Service.ServiceId := Service.ServiceId service;
      Service.Name := Service.Name service;
      Service.Type_ := Service.Type_ service;
      Service.Image := Service.Image service;
      Service.Credentials := copyImageCredential (Service.Credentials service);
      Service.Specs := copyDeploySpec (Service.Specs service);
      Service.Storage := storage;
      Service.ExposedPorts := ports;
      Service.EnvironmentVariables := Service.EnvironmentVariables service;
      Service.Configs := files;
      Service.Labels := Service.Labels service;
      Service.DeployAfter := Service.DeployAfter service;
      Service.RunArguments := Service.RunArguments service
    |}
  end.

(* copyServiceGroup returns a copy of a given ServiceGroup; Specs is
   commented out of the literal and stays nil *)
Definition copyServiceGroup (group : option ServiceGroup.t) : option ServiceGroup.t :=
  match group with
  | None => None
  | Some group =>
    let services := map copyService (ServiceGroup.Services group) in
    Some {|
      ServiceGroup.OrganizationId := ServiceGroup.OrganizationId group;
      ServiceGroup.AppDescriptorId := ServiceGroup.AppDescriptorId group;
      ServiceGroup.ServiceGroupId := ServiceGroup.ServiceGroupId group;
      ServiceGroup.Name := ServiceGroup.Name group;
      ServiceGroup.Services := services;
      ServiceGroup.Policy := ServiceGroup.Policy group;
      ServiceGroup.Specs := None;
      ServiceGroup.Labels := ServiceGroup.Labels group
    |}
  end.

(* newParametrizedDescriptorFromDescriptor returns a parameterized descriptor
   as a copy of a given descriptor (the descriptor is not nil: its callers
   pass the descriptor they fetched) *)
Definition newParametrizedDescriptorFromDescriptor (descriptor : AppDescriptor.t)
  : ParametrizedDescriptor.t :=
  let rules := map copySecurityRule (AppDescriptor.Rules descriptor) in
  let groups := map copyServiceGroup (AppDescriptor.Groups descriptor) in
  {|
    ParametrizedDescriptor.OrganizationId := AppDescriptor.OrganizationId descriptor;
    ParametrizedDescriptor.AppDescriptorId := AppDescriptor.AppDescriptorId descriptor;
    ParametrizedDescriptor.AppInstanceId := "";
    ParametrizedDescriptor.Name := AppDescriptor.Name descriptor;
    ParametrizedDescriptor.ConfigurationOptions :=
      AppDescriptor.ConfigurationOptions descriptor;
    ParametrizedDescriptor.EnvironmentVariables :=
      AppDescriptor.EnvironmentVariables descriptor;
    ParametrizedDescriptor.Labels := AppDescriptor.Labels descriptor;
    ParametrizedDescriptor.Rules := rules;
    ParametrizedDescriptor.Groups := groups
  |}.

(** ** strconv *)

Module strconv.

Definition ErrSyntax (fn str : string) : error :=
  ForeignError ("strconv." +:+ fn +:+ ": parsing " +:+ str +:+ ": invalid syntax").
Definition ErrRange (fn str : string) : error :=
  ForeignError ("strconv." +:+ fn +:+ ": parsing " +:+ str +:+ ": value out of range").

(* ParseBool accepts 1, t, T, TRUE, true, True, 0, f, F, FALSE, false, False *)
Definition ParseBool (str : string) : result bool :=
  if bool_decide (str ∈ ["1"; "t"; "T"; "TRUE"; "true"; "True"]) then inr true
  else if bool_decide (str ∈ ["0"; "f"; "F"; "FALSE"; "false"; "False"]) then inr false
  else inl (ErrSyntax "ParseBool" str).

Definition digitOf (c : ascii) : option Z :=
  let n := Z.of_N (N_of_ascii c) in
  if (48 <=? n) && (n <=? 57) then Some (n - 48) else None.

Fixpoint parseDigits (acc : Z) (s : string) : option Z :=
  match s with
  | EmptyString => Some acc
  | String c rest =>
    match digitOf c with
    | Some d => parseDigits (acc * 10 + d) rest
    | None => None
    end
  end.

(* Atoi: an optional sign, then decimal digits, within a 64-bit int *)
Definition Atoi (s : string) : result Z :=
  let '(neg, body) :=
    match s with
    | String "+"%char rest => (false, rest)
    | String "-"%char rest => (true, rest)
    | _ => (false, s)
    end in
  match body with
  | EmptyString => inl (ErrSyntax "Atoi" s)
  | _ =>
    match parseDigits 0 body with
    | None => inl (ErrSyntax "Atoi" s)
    | Some n =>
      let v := if neg then - n else n in
      if (- 2 ^ 63 <=? v) && (v <? 2 ^ 63) then inr v
      else inl (ErrRange "Atoi" s)
    end
  end.

End strconv.

(** ** The libraries the engine goes through

    encoding/json, tidwall/sjson, strconv.ParseFloat and conversions.ToDerror
    are taken as an interface; [float64] is the carrier of parsed floats. *)
Class Libraries := {
  float64 : Type;
  strconv_ParseFloat : string -> Z -> result float64;
  json_Marshal : ParametrizedDescriptor.t -> result string;
  (* json.Unmarshal(data, v): decodes into the descriptor v *)
  json_Unmarshal : string -> ParametrizedDescriptor.t -> result ParametrizedDescriptor.t;
  sjson_Set_ : forall V : Type, string -> string -> V -> result string;
  ToDerror : error -> derrors.Error
}.

Section Parametrization.
Context `{Libraries}.

(** An interface{} holding the coerced value of a parameter. *)
Inductive Value :=
| VNil
| VBool (b : bool)
| VInt (n : Z)
| VFloat (x : float64)
| VString (s : string).

Definition sjson_Set : string -> string -> Value -> result string :=
  sjson_Set_ Value.

(* findParameterInDescriptor looks for the definition of a given instance
   parameter in the description of the descriptor *)
Fixpoint findParameterByName (params : list AppParameter.t) (name : string)
  : option AppParameter.t :=
  match params with
  | [] => None
  | param :: rest =>
    if bool_decide (AppParameter.Name param = name) then Some param
    else findParameterByName rest name
  end.

Definition findParameterInDescriptor (descriptor : AppDescriptor.t)
    (parameter : InstanceParameter.t) : dresult AppParameter.t :=
  if bool_decide (length (AppDescriptor.Parameters descriptor) = 0%nat) then
    inl (derrors.NewInvalidArgumentError
           "Instance parameter not found. Descriptor has no parameters")
  else
    match findParameterByName (AppDescriptor.Parameters descriptor)
            (InstanceParameter.ParameterName parameter) with
    | Some param => inr param
    | None =>
      inl (derrors.WithParams
             (derrors.NewNotFoundError
                "Instance parameter not found in descriptor definition")
             [InstanceParameter.ParameterName parameter])
    end.

(* applyParameter substitutes the entry of the descriptor for the indicated
   value; the string behind the pointer is returned. The gjson.Get of the old
   value has no effect. *)
Definition applyParameter (jsonParamDescriptor : string)
    (paramDefinition : AppParameter.t) (value : Value) : dresult string :=
  let path := AppParameter.Path paramDefinition in
  match sjson_Set jsonParamDescriptor path value with
  | inl err => inl (ToDerror err)
  | inr json => inr json
  end.

(* for _, paramVal := range EnumValues { if paramVal == value { find = true; break } } *)
Fixpoint findEnumValue (enumValues : list string) (value : string) : bool :=
  match enumValues with
  | [] => false
  | paramVal :: rest =>
    if bool_decide (paramVal = value) then true else findEnumValue rest value
  end.

(* validateInstanceParameter validates that the type of the value parameter
   matches that of the description of the parameter in the descriptor *)
Definition validateInstanceParameter (paramDefinition : AppParameter.t)
    (parameter : InstanceParameter.t) : dresult Value :=
  let v := InstanceParameter.Value parameter in
  match AppParameter.Type_ paramDefinition with
  | ParamDataType_BOOLEAN =>
    match strconv.ParseBool v with
    | inl err => inl (ToDerror err)
    | inr value => inr (VBool value)
    end
  | ParamDataType_INTEGER =>
    match strconv.Atoi v with
    | inl err => inl (ToDerror err)
    | inr value => inr (VInt value)
    end
  | ParamDataType_FLOAT =>
    match strconv_ParseFloat v 32 with
    | inl err => inl (ToDerror err)
    | inr value => inr (VFloat value)
    end
  | ParamDataType_ENUM =>
    let find := findEnumValue (AppParameter.EnumValues paramDefinition) v in
    if negb find then
      inl (derrors.WithParams
             (derrors.WithParams
                (derrors.NewInvalidArgumentError "Invalid parameter value")
                ["parameter"; InstanceParameter.ParameterName parameter])
             ["value"; v])
    else inr (VString v)
  | ParamDataType_STRING => inr (VString v)
  | ParamDataType_PASSWORD => inr (VString v)
  | ParamDataType_unknown _ => inr VNil
  end.

(* the loop of CreateParametrizedDescriptor over the instance parameters:
   find, validate, apply; the first error is returned *)
Fixpoint applyParameters (descriptor : AppDescriptor.t) (jsonDescriptor : string)
    (parameters : list InstanceParameter.t) : dresult string :=
  match parameters with
  | [] => inr jsonDescriptor
  | param :: rest =>
    match findParameterInDescriptor descriptor param with
    | inl err => inl err
    | inr paramDefinition =>
      match validateInstanceParameter paramDefinition param with
      | inl err => inl err
      | inr value =>
        match applyParameter jsonDescriptor paramDefinition value with
        | inl err => inl err
        | inr jsonDescriptor' => applyParameters descriptor jsonDescriptor' rest
        end
      end
    end
  end.

(* CreateParametrizedDescriptor returns a parameterized descriptor once the
   parameters of the instance have been validated and applied to the given
   descriptor. [inl err] is (nil, err); [inr p] is (p, nil). *)
Definition CreateParametrizedDescriptor (descriptor : AppDescriptor.t)
    (parameters : InstanceParameterList) : dresult ParametrizedDescriptor.t :=
  let parametrized := newParametrizedDescriptorFromDescriptor descriptor in
  match parameters with
  | None | Some [] => inr parametrized
  | Some params =>
    match json_Marshal parametrized with
    | inl err => inl (ToDerror err)
    | inr jsonDescriptor =>
      match applyParameters descriptor jsonDescriptor params with
      | inl err => inl err
      | inr jsonDescriptor' =>
        match json_Unmarshal jsonDescriptor' parametrized with
        | inl err => inl (ToDerror err)
        | inr parametrized' => inr parametrized'
        end
      end
    end
  end.

End Parametrization.

(** * The manager (server/application/manager.go) *)

(** What a call of the manager comes to: it returns, or the Go runtime
    panics. *)
Inductive outcome (A : Type) :=
| Returns (a : A)
| Panics (msg : string).
Arguments Returns {A} _.
Arguments Panics {A} _.

Definition nilDereference : string :=
  "runtime error: invalid memory address or nil pointer dereference".

(** ** Required parameters *)

(* for _, deployParam := range params.Parameters { if name matches { find = true; break } } *)
Fixpoint findDeployParam (name : string) (deployParams : list InstanceParameter.t)
  : bool :=
  match deployParams with
  | [] => false
  | deployParam :: rest =>
    if bool_decide (InstanceParameter.ParameterName deployParam = name) then true
    else findDeployParam name rest
  end.

Fixpoint checkRequiredParameters (descParams : list AppParameter.t)
    (params : InstanceParameterList) : option error :=
  match descParams with
  | [] => None
  | p :: rest =>
    if AppParameter.Required p then
      let find :=
        match params with
        | Some deployParams => findDeployParam (AppParameter.Name p) deployParams
        | None => false
        end in
      if negb find then
        Some (Derror (derrors.NewFailedPreconditionError RequiredParamNotFilled))
      else checkRequiredParameters rest params
    else checkRequiredParameters rest params
  end.

(* checkAllRequiredParametersAreFilled checks all the params defined as
   required are filled in deploy request *)
Definition checkAllRequiredParametersAreFilled (desc : AppDescriptor.t)
    (params : InstanceParameterList) : option error :=
  checkRequiredParameters (AppDescriptor.Parameters desc) params.

(** ** Inbound check of one target instance *)

(* for _, inbound := range InboundNetInterfaces { if inbound.Name == inboundName { targetFound = true } } *)
Definition targetFound (inbounds : list NetworkInterface.t) (inboundName : string)
  : bool :=
  existsb (fun inbound => bool_decide (NetworkInterface.Name inbound = inboundName))
          inbounds.

(* the loop over inboundNames: the flag globalResult and what was sent *)
Fixpoint inboundNamesLoop (instanceID : string) (inbounds : list NetworkInterface.t)
    (inboundNames : list string) : bool * list CheckInboundResponse.t :=
  match inboundNames with
  | [] => (true, [])
  | inboundName :: rest =>
    if negb (targetFound inbounds inboundName) then
      (false, [CheckInboundResponse.mk instanceID inboundName false])
    else inboundNamesLoop instanceID inbounds rest
  end.

(* what checkInbounds sends once the lookup has answered *)
Definition checkInboundsSends (instanceID : string) (inboundNames : list string)
    (lookup : result AppInstance.t) : list CheckInboundResponse.t :=
  match lookup with
  | inl _ => [CheckInboundResponse.mk instanceID "" false]
  | inr targetInstance =>
    let '(globalResult, sent) :=
      inboundNamesLoop instanceID (AppInstance.InboundNetInterfaces targetInstance)
        inboundNames in
    if globalResult then (sent ++ [CheckInboundResponse.mk instanceID "" true])%list
    else sent
  end.

(** ** Required outbounds and the grouping by target instance *)

(* for _, connection := range connections { if SourceOutboundName == name { found = true } } *)
Definition outboundFound (connections : list ConnectionRequest.t) (name : string)
  : bool :=
  existsb (fun connection =>
             bool_decide (ConnectionRequest.SourceOutboundName connection = name))
          connections.

Fixpoint checkRequiredOutbounds (connections : list ConnectionRequest.t)
    (outboundInterfaces : list NetworkInterface.t) : option derrors.Error :=
  match outboundInterfaces with
  | [] => None
  | outbound :: rest =>
    if NetworkInterface.Required outbound then
      if negb (outboundFound connections (NetworkInterface.Name outbound)) then
        Some (derrors.WithParams
                (derrors.NewFailedPreconditionError RequiredOutboundNotFilled)
                [NetworkInterface.Name outbound])
      else checkRequiredOutbounds connections rest
    else checkRequiredOutbounds connections rest
  end.

(* one step of the map with all the inbounds per instance_id *)
Definition addInbound (instanceList : gmap string (list string))
    (conn : ConnectionRequest.t) : gmap string (list string) :=
  match instanceList !! ConnectionRequest.TargetInstanceId conn with
  | None =>
    <[ConnectionRequest.TargetInstanceId conn :=
        [ConnectionRequest.TargetInboundName conn]]> instanceList
  | Some inbounds =>
    <[ConnectionRequest.TargetInstanceId conn :=
        (inbounds ++ [ConnectionRequest.TargetInboundName conn])%list]> instanceList
  end.

Definition buildInstanceList (connections : list ConnectionRequest.t)
  : gmap string (list string) :=
  foldl addInbound ∅ connections.

(* for result := range respond: the first failed result decides *)
Fixpoint inspectResults (respond : list CheckInboundResponse.t)
  : option derrors.Error :=
  match respond with
  | [] => None
  | result :: rest =>
    if negb (CheckInboundResponse.Result result) then
      if negb (bool_decide (CheckInboundResponse.InboundName result = "")) then
        Some (derrors.WithParams
                (derrors.NewFailedPreconditionError "no inbound interface found")
                [CheckInboundResponse.InstanceId result;
                 CheckInboundResponse.InboundName result])
      else
        Some (derrors.WithParams
                (derrors.NewFailedPreconditionError "instance not found")
                [CheckInboundResponse.InstanceId result])
    else inspectResults rest
  end.

(** ** Resolution of the connection sources in Deploy *)

(* for _, rule := range instance.Rules { if rule.OutboundNetInterface == name
   { sourceInstanceName = rule.TargetServiceName } }; a nil rule cannot be
   read *)
Fixpoint sourceInstanceNameLoop (rules : list (option SecurityRule.t))
    (outboundName : string) (sourceInstanceName : string) : outcome string :=
  match rules with
  | [] => Returns sourceInstanceName
  | None :: _ => Panics nilDereference
  | Some rule :: rest =>
    if bool_decide (SecurityRule.OutboundNetInterface rule = outboundName) then
      sourceInstanceNameLoop rest outboundName (SecurityRule.TargetServiceName rule)
    else sourceInstanceNameLoop rest outboundName sourceInstanceName
  end.

(** ** The workflows *)

Section Manager.
Context `{Libraries} {St : Type} `{Collaborators St}.

(* RemoveAppDescriptor removes an application descriptor from the system. *)
Definition RemoveAppDescriptor (appDescriptorID : AppDescriptorId.t)
  : M St (result Success) :=
  let orgID := AppDescriptorId.OrganizationId appDescriptorID in
  instances <- call (ListAppInstances orgID) (EvListAppInstances orgID) ;;
  match instances with
  | inl err => ret (inl err)
  | inr instances =>
    if existsb (fun inst =>
                  bool_decide (AppInstance.AppDescriptorId inst =
                               AppDescriptorId.AppDescriptorId appDescriptorID))
               instances
    then ret (inl (Derror (derrors.NewFailedPreconditionError
           "application instances must be removed before deleting the descriptor")))
    else call (RemoveAppDescriptor_ appDescriptorID)
              (EvRemoveAppDescriptor appDescriptorID)
  end.

(* checkInbounds checks if the instanceID has defined all the inbounds in the
   inboundNames array; it returns what it has sent on respond *)
Definition checkInbounds (organizationID instanceID : string)
    (inboundNames : list string) : M St (list CheckInboundResponse.t) :=
  let id := AppInstanceId.mk organizationID instanceID in
  targetInstance <- call (GetAppInstance_ id) (EvGetAppInstance id) ;;
  ret (checkInboundsSends instanceID inboundNames targetInstance).

(* the goroutines started by checkConnections, in the order in which their
   lookups reach the store; the sends are collected in that order *)
Fixpoint fanOut (organizationID : string) (work : list (string * list string))
  : M St (list CheckInboundResponse.t) :=
  match work with
  | [] => ret []
  | (instanceId, inboundList) :: rest =>
    sent <- checkInbounds organizationID instanceId inboundList ;;
    others <- fanOut organizationID rest ;;
    ret (sent ++ others)%list
  end.

(* the channel respond once every goroutine is done (wg.Wait) and it is
   closed: the responses in the order of their arrival *)
Definition collectResponses (organizationID : string)
    (instanceList : gmap string (list string)) : M St (list CheckInboundResponse.t) :=
  sent <- fanOut organizationID (lookupOrder (map_to_list instanceList)) ;;
  ret (arrivalOrder sent).

(* checkConnections: Checks all the connection fields are consistent (the
   target_instance_id has an inbound named TargetInboundName) and checks the
   required outbounds are informed *)
Definition checkConnections (organizationID : string)
    (connections : list ConnectionRequest.t)
    (outboundInterfaces : list NetworkInterface.t) : M St (option derrors.Error) :=
  match checkRequiredOutbounds connections outboundInterfaces with
  | Some err => ret (Some err)
  | None =>
    let instanceList := buildInstanceList connections in
    respond <- collectResponses organizationID instanceList ;;
    ret (inspectResults respond)
  end.

(* the loop of Deploy over deployRequest.OutboundConnections, on the slice
   connections made with the length of the requests *)
Fixpoint resolveConnections (organizationId : string)
    (rules : list (option SecurityRule.t))
    (requests : list ConnectionRequest.t) (connectionIndex : nat)
    (connections : list (option ConnectionInstance.t))
  : M St (outcome (list (option ConnectionInstance.t))) :=
  match requests with
  | [] => ret (Returns connections)
  | connectionRequest :: rest =>
    match sourceInstanceNameLoop rules
            (ConnectionRequest.SourceOutboundName connectionRequest) "" with
    | Panics msg => ret (Panics msg)
    | Returns sourceInstanceName =>
      if bool_decide (sourceInstanceName = "") then
        logError "the connection request refers to an outbound interface name not linked to a service. Skipping." ;;;
        resolveConnections organizationId rules rest (S connectionIndex) connections
      else
        resolveConnections organizationId rules rest (S connectionIndex)
          (<[connectionIndex :=
               Some {|
                 ConnectionInstance.OrganizationId := organizationId;
                 ConnectionInstance.SourceInstanceId := "";
                 ConnectionInstance.SourceInstanceName := sourceInstanceName;
                 ConnectionInstance.TargetInstanceId :=
                   ConnectionRequest.TargetInstanceId connectionRequest;
                 ConnectionInstance.InboundName :=
                   ConnectionRequest.TargetInboundName connectionRequest;
                 ConnectionInstance.OutboundName :=
                   ConnectionRequest.SourceOutboundName connectionRequest
               |}]> connections)
    end
  end.

(* the compensation of Deploy: delete the instance, log a failed delete *)
Definition rollbackInstance (appInstanceID : AppInstanceId.t) : M St unit :=
  rollback <- call (RemoveAppInstance appInstanceID)
                   (EvRemoveAppInstance appInstanceID) ;;
  match rollback with
  | inl _ => logError "error in rollback deleting the instance %s"
  | inr _ => ret tt
  end.

Definition setAppInstanceId (p : ParametrizedDescriptor.t) (id : string)
  : ParametrizedDescriptor.t :=
  {|
    ParametrizedDescriptor.OrganizationId := ParametrizedDescriptor.OrganizationId p;
    ParametrizedDescriptor.AppDescriptorId := ParametrizedDescriptor.AppDescriptorId p;
    ParametrizedDescriptor.AppInstanceId := id;
    ParametrizedDescriptor.Name := ParametrizedDescriptor.Name p;
    ParametrizedDescriptor.ConfigurationOptions :=
      ParametrizedDescriptor.ConfigurationOptions p;
    ParametrizedDescriptor.EnvironmentVariables :=
      ParametrizedDescriptor.EnvironmentVariables p;
    ParametrizedDescriptor.Labels := ParametrizedDescriptor.Labels p;
    ParametrizedDescriptor.Rules := ParametrizedDescriptor.Rules p;
    ParametrizedDescriptor.Groups := ParametrizedDescriptor.Groups p
  |}.

(* instance.Rules, ConfigurationOptions, EnvironmentVariables and Labels are
   taken from newDesc *)
Definition updateFromDescriptor (instance : AppInstance.t)
    (newDesc : ParametrizedDescriptor.t) : AppInstance.t :=
  {|
    AppInstance.OrganizationId := AppInstance.OrganizationId instance;
    AppInstance.AppDescriptorId := AppInstance.AppDescriptorId instance;
    AppInstance.AppInstanceId := AppInstance.AppInstanceId instance;
    AppInstance.Name := AppInstance.Name instance;
    AppInstance.ConfigurationOptions := ParametrizedDescriptor.ConfigurationOptions newDesc;
    AppInstance.EnvironmentVariables := ParametrizedDescriptor.EnvironmentVariables newDesc;
    AppInstance.Labels := ParametrizedDescriptor.Labels newDesc;
    AppInstance.Rules := ParametrizedDescriptor.Rules newDesc;
    AppInstance.InboundNetInterfaces := AppInstance.InboundNetInterfaces instance;
    AppInstance.OutboundNetInterfaces := AppInstance.OutboundNetInterfaces instance
  |}.

(* the tail of Deploy: send deploy command to conductor *)
Definition enqueueDeployment (deployRequest : DeployRequest.t)
    (instance : AppInstance.t) (appInstanceID : AppInstanceId.t)
    (connections : list (option ConnectionInstance.t))
  : M St (outcome (result DeploymentResponse.t)) :=
  n <- call rand_Int EvRandInt ;;
  let request := {|
    DeploymentRequest.RequestId := "app-mngr-" +:+ pretty n;
    DeploymentRequest.AppInstanceId := appInstanceID;
    DeploymentRequest.Name := DeployRequest.Name deployRequest;
    DeploymentRequest.OutboundConnections := connections
  |} in
  err <- call (SendDeploy request) (EvSendDeploy request) ;;
  match err with
  | Some err =>
    logError "error when sending deployment request to the queue" ;;;
    ret (Returns (inl err))
  | None =>
    n' <- call rand_Int EvRandInt ;;
    ret (Returns (inr {|
      DeploymentResponse.RequestId := "app-mngr-" +:+ pretty n';
      DeploymentResponse.AppInstanceId := AppInstance.AppInstanceId instance;
      DeploymentResponse.Status := ApplicationStatus_QUEUED
    |}))
  end.

(* the part of Deploy that follows the creation of the instance *)
Definition deployInstance (deployRequest : DeployRequest.t) (desc : AppDescriptor.t)
    (parametrizedDesc : ParametrizedDescriptor.t) (instance : AppInstance.t)
  : M St (outcome (result DeploymentResponse.t)) :=
  let requests := DeployRequest.OutboundConnections deployRequest in
  resolved <- resolveConnections (AppDescriptor.OrganizationId desc)
                (AppInstance.Rules instance) requests 0
                (replicate (length requests) None) ;;
  match resolved with
  | Panics msg => ret (Panics msg)
  | Returns connections =>
    (* fill the instance_id in the parametrized descriptor *)
    let parametrizedDesc :=
      setAppInstanceId parametrizedDesc (AppInstance.AppInstanceId instance) in
    let appInstanceID := {|
      AppInstanceId.OrganizationId := DeployRequest.OrganizationId deployRequest;
      AppInstanceId.AppInstanceId := AppInstance.AppInstanceId instance
    |} in
    (* Add parametrizedDescriptor in the system *)
    newDesc <- call (AddParametrizedDescriptor parametrizedDesc)
                    (EvAddParametrizedDescriptor parametrizedDesc) ;;
    match newDesc with
    | inl err =>
      logError "error adding  parametrized descriptor %s. Delete instance" ;;;
      rollbackInstance appInstanceID ;;;
      ret (Returns (inl err))
    | inr newDesc =>
      (* update the instance with the rules parametrized *)
      if bool_decide (0 < length (ParametrizedDescriptor.Rules parametrizedDesc))%nat
      then
        let instance := updateFromDescriptor instance newDesc in
        updated <- call (UpdateAppInstance instance) (EvUpdateAppInstance instance) ;;
        match updated with
        | inl err =>
          logError "error updating instance %s. Delete instance" ;;;
          rollbackInstance appInstanceID ;;;
          ret (Returns (inl err))
        | inr _ => enqueueDeployment deployRequest instance appInstanceID connections
        end
      else enqueueDeployment deployRequest instance appInstanceID connections
    end
  end.

(* Deploy an application descriptor. The organization settings handed to
   CreateParametrizedDescriptor by the manager are not an argument of the
   engine of entities/parameters.go. *)
Definition Deploy (deployRequest : DeployRequest.t)
  : M St (outcome (result DeploymentResponse.t)) :=
  (* Retrieve descriptor by descriptorID *)
  let descID := {|
    AppDescriptorId.OrganizationId := DeployRequest.OrganizationId deployRequest;
    AppDescriptorId.AppDescriptorId := DeployRequest.AppDescriptorId deployRequest
  |} in
  desc <- call (GetAppDescriptor descID) (EvGetAppDescriptor descID) ;;
  match desc with
  | inl err =>
    logError "error getting application descriptor %s" ;;;
    ret (Returns (inl err))
  | inr desc =>
    (* check if all required params are filled *)
    match checkAllRequiredParametersAreFilled desc
            (DeployRequest.Parameters deployRequest) with
    | Some err => ret (Returns (inl err))
    | None =>
      (* NP-1963. Check connections *)
      dErr <- checkConnections (DeployRequest.OrganizationId deployRequest)
                (DeployRequest.OutboundConnections deployRequest)
                (AppDescriptor.OutboundNetInterfaces desc) ;;
      match dErr with
      | Some dErr => ret (Returns (inl (GRPCError dErr)))
      | None =>
        (* Create it parametrized descriptor *)
        match CreateParametrizedDescriptor desc
                (DeployRequest.Parameters deployRequest) with
        | inl err =>
          logError "error creating  parametrized descriptor %s." ;;;
          ret (Returns (inl (Derror err)))
        | inr parametrizedDesc =>
          (* Create new application instance *)
          let addReq := {|
            AddAppInstanceRequest.OrganizationId :=
              DeployRequest.OrganizationId deployRequest;
            AddAppInstanceRequest.AppDescriptorId :=
              DeployRequest.AppDescriptorId deployRequest;
            AddAppInstanceRequest.Name := DeployRequest.Name deployRequest;
            AddAppInstanceRequest.Parameters := DeployRequest.Parameters deployRequest
          |} in
          instance <- call (AddAppInstance addReq) (EvAddAppInstance addReq) ;;
          match instance with
          | inl err =>
            logError "error adding application instance" ;;;
            ret (Returns (inl err))
          | inr instance =>
            deployInstance deployRequest desc parametrizedDesc instance
          end
        end
      end
    end
  end.

Definition setInboundConnections (i : ExpandedAppInstance.t)
    (conns : list ConnectionInstance.t) : ExpandedAppInstance.t :=
  {|
    ExpandedAppInstance.OrganizationId := ExpandedAppInstance.OrganizationId i;
    ExpandedAppInstance.AppDescriptorId := ExpandedAppInstance.AppDescriptorId i;
    ExpandedAppInstance.AppInstanceId := ExpandedAppInstance.AppInstanceId i;
    ExpandedAppInstance.Name := ExpandedAppInstance.Name i;
    ExpandedAppInstance.InboundConnections := conns;
    ExpandedAppInstance.OutboundConnections := ExpandedAppInstance.OutboundConnections i
  |}.

Definition setOutboundConnections (i : ExpandedAppInstance.t)
    (conns : list ConnectionInstance.t) : ExpandedAppInstance.t :=
  {|
    ExpandedAppInstance.OrganizationId := ExpandedAppInstance.OrganizationId i;
    ExpandedAppInstance.AppDescriptorId := ExpandedAppInstance.AppDescriptorId i;
    ExpandedAppInstance.AppInstanceId := ExpandedAppInstance.AppInstanceId i;
    ExpandedAppInstance.Name := ExpandedAppInstance.Name i;
    ExpandedAppInstance.InboundConnections := ExpandedAppInstance.InboundConnections i;
    ExpandedAppInstance.OutboundConnections := conns
  |}.

(* getInstanceConnections returns the appInstance with the connections field
   filled *)
Definition getInstanceConnections (instance : AppInstance.t)
  : M St ExpandedAppInstance.t :=
  let expandInstance := ToAppInstance instance in
  let appInstanceID := {|
    AppInstanceId.OrganizationId := AppInstance.OrganizationId instance;
    AppInstanceId.AppInstanceId := AppInstance.AppInstanceId instance
  |} in
  (* InboundConnections *)
  inboundConnections <- call (ListInboundConnections appInstanceID)
                             (EvListInboundConnections appInstanceID) ;;
  expandInstance <-
    match inboundConnections with
    | inl _ => logError "error getting inbound connections" ;;; ret expandInstance
    | inr (Some conns) => ret (setInboundConnections expandInstance conns)
    | inr None => ret expandInstance
    end ;;
  (* OutboundConnections *)
  outboundConnections <- call (ListOutboundConnections appInstanceID)
                              (EvListOutboundConnections appInstanceID) ;;
  match outboundConnections with
  | inl _ => logError "error getting outbound connections" ;;; ret expandInstance
  | inr (Some conns) => ret (setOutboundConnections expandInstance conns)
  | inr None => ret expandInstance
  end.

(* GetAppInstance retrieves a given application instance, expanded. *)
Definition GetAppInstance (appInstanceID : AppInstanceId.t)
  : M St (result ExpandedAppInstance.t) :=
  appInstance <- call (GetAppInstance_ appInstanceID) (EvGetAppInstance appInstanceID) ;;
  match appInstance with
  | inl err => ret (inl err)
  | inr appInstance =>
    expandInstance <- getInstanceConnections appInstance ;;
    ret (inr expandInstance)
  end.

Definition removalOf (conn : ConnectionInstance.t) : RemoveConnectionRequest.t :=
  {|
    RemoveConnectionRequest.OrganizationId := ConnectionInstance.OrganizationId conn;
    RemoveConnectionRequest.SourceInstanceId := ConnectionInstance.SourceInstanceId conn;
    RemoveConnectionRequest.TargetInstanceId := ConnectionInstance.TargetInstanceId conn;
    RemoveConnectionRequest.InboundName := ConnectionInstance.InboundName conn;
    RemoveConnectionRequest.OutboundName := ConnectionInstance.OutboundName conn;
    RemoveConnectionRequest.UserConfirmation := true
  |}.

(* the body of the two removal loops of Undeploy *)
Definition removeConnection (what : string) (conn : ConnectionInstance.t)
  : M St unit :=
  rErr <- call (RemoveConnection (removalOf conn)) (EvRemoveConnection (removalOf conn)) ;;
  match rErr with
  | inl _ =>
    (* we can continue undeploying the instance *)
    logError ("Error removing " +:+ what +:+ " connection")
  | inr _ => ret tt
  end.

(* Undeploy a running application instance. *)
Definition Undeploy (undeployRequest : UndeployRequest.t) : M St (result Success) :=
  (* GetAppInstance returns expanded instance (with its connections) *)
  instance <- GetAppInstance {|
    AppInstanceId.OrganizationId := UndeployRequest.OrganizationId undeployRequest;
    AppInstanceId.AppInstanceId := UndeployRequest.AppInstanceId undeployRequest
  |} ;;
  match instance with
  | inl iErr =>
    logError "error when sending the undeploy request to the queue" ;;;
    ret (inl iErr)
  | inr instance =>
    if bool_decide (0 < length (ExpandedAppInstance.InboundConnections instance))%nat
       && negb (UndeployRequest.UserConfirmation undeployRequest)
    then ret (inl (GRPCError (derrors.NewFailedPreconditionError
           "can not undeploy the instance, it has inbound connections. User confirmation required")))
    else
      (* Remove Inbound connections *)
      forEach (ExpandedAppInstance.InboundConnections instance)
              (removeConnection "inbound") ;;;
      forEach (ExpandedAppInstance.OutboundConnections instance)
              (removeConnection "outbound") ;;;
      let appInstanceID := {|
        ConductorUndeployRequest.OrganizationId :=
          UndeployRequest.OrganizationId undeployRequest;
        ConductorUndeployRequest.AppInstanceId :=
          UndeployRequest.AppInstanceId undeployRequest
      |} in
      err <- call (SendUndeploy appInstanceID) (EvSendUndeploy appInstanceID) ;;
      match err with
      | Some err =>
        logError "error when sending the undeploy request to the queue" ;;;
        ret (inl err)
      | None => ret (inr mkSuccess)
      end
  end.

End Manager.

(** * The copies in memory

    The copy functions of entities/parameters.go once more, on a heap: a
    pointer, a slice and a map are references (nil, or the address of an
    object), so that what a copy shares with its original can be told. A
    computation that reads an address holding no object of the expected type
    has no result; no well-typed program does. *)

Module Mem.

Abbreviation loc := nat (only parsing).

(** nil, or the address of an object. *)
Abbreviation ptr := (option nat) (only parsing).

(** The structs that hold references. The other structs of the descriptor
    hold scalars only and are the records of the data model. *)
Module SecurityRule.
Record t := mk {
  OrganizationId : string;
  AppDescriptorId : string;
  RuleId : string;
  Name : string;
  TargetServiceGroupName : string;
  TargetServiceName : string;
  TargetPort : Z;
  Access : Z;
  AuthServiceGroupName : string;
  AuthServices : ptr;          (* []string *)
  DeviceGroupIds : ptr;        (* []string *)
  DeviceGroupNames : ptr;      (* []string *)
  OutboundNetInterface : string
}.
End SecurityRule.

Module Port.
Record t := mk {
  Name : string;
  InternalPort : Z;
  ExposedPort : Z;
  Endpoints : ptr              (* []*Endpoint *)
}.
End Port.

Module Service.
Record t := mk {
  OrganizationId : string;
  AppDescriptorId : string;
  ServiceGroupId : string;
  ServiceId : string;
  Name : string;
  Type_ : Z;
  Image : string;
  Credentials : ptr;           (* *ImageCredentials *)
  Specs : ptr;                 (* *DeploySpecs *)
  Storage : ptr;               (* []*Storage *)
  ExposedPorts : ptr;          (* []*Port *)
  EnvironmentVariables : ptr;  (* map[string]string *)
  Configs : ptr;               (* []*ConfigFile *)
  Labels : ptr;                (* map[string]string *)
  DeployAfter : ptr;           (* []string *)
  RunArguments : ptr           (* []string *)
}.
End Service.

Module ServiceGroup.
Record t := mk {
  OrganizationId : string;
  AppDescriptorId : string;
  ServiceGroupId : string;
  Name : string;
  Services : ptr;              (* []*Service *)
  Policy : Z;
  Specs : ptr;                 (* *ServiceGroupDeploymentSpecs *)
  Labels : ptr                 (* map[string]string *)
}.
End ServiceGroup.

Module AppDescriptor.
Record t := mk {
  OrganizationId : string;
  AppDescriptorId : string;
  Name : string;
  ConfigurationOptions : ptr;  (* map[string]string *)
  EnvironmentVariables : ptr;  (* map[string]string *)
  Labels : ptr;                (* map[string]string *)
  Rules : ptr;                 (* []*SecurityRule *)
  Groups : ptr;                (* []*ServiceGroup *)
  Parameters : list AppParameter.t;
  InboundNetInterfaces : list NetworkInterface.t;
  OutboundNetInterfaces : list NetworkInterface.t
}.
End AppDescriptor.

Module ParametrizedDescriptor.
Record t := mk {
  OrganizationId : string;
  AppDescriptorId : string;
  AppInstanceId : string;
  Name : string;
  ConfigurationOptions : ptr;  (* map[string]string *)
  EnvironmentVariables : ptr;  (* map[string]string *)
  Labels : ptr;                (* map[string]string *)
  Rules : ptr;                 (* []*SecurityRule *)
  Groups : ptr                 (* []*ServiceGroup *)
}.
End ParametrizedDescriptor.

Inductive object :=
| OStrings (elems : list string)          (* the array behind a []string *)
| OPointers (elems : list ptr)            (* the array behind a []*T *)
| OMap (m : gmap string string)
| ORule (r : SecurityRule.t)
| OStorage (s : Storage.t)
| OCredentials (c : ImageCredentials.t)
| ODeploySpecs (d : DeploySpecs.t)
| OEndpoint (e : Endpoint.t)
| OPort (p : Port.t)
| OConfigFile (c : ConfigFile.t)
| OService (s : Service.t)
| OGroupSpecs (s : ServiceGroupDeploymentSpecs.t)
| OGroup (g : ServiceGroup.t)
| ODescriptor (d : AppDescriptor.t)
| OParametrized (p : ParametrizedDescriptor.t).

(** The heap: the object at each address, in the order of allocation. *)
Abbreviation heap := (list object) (only parsing).

Definition Alloc (A : Type) : Type := heap -> option (A * heap).

Definition ret {A} (a : A) : Alloc A := fun h => Some (a, h).

Definition bind {A B} (m : Alloc A) (k : A -> Alloc B) : Alloc B :=
  fun h =>
    match m h with
    | Some (a, h') => k a h'
    | None => None
    end.

Definition fail {A} : Alloc A := fun _ => None.

Notation "x <~ m ;; k" := (bind m (fun x => k))
  (at level 100, m at next level, right associativity).

(* &T{...}, make: a new object at a new address *)
Definition alloc (o : object) : Alloc loc :=
  fun h => Some (length h, (h ++ [o])%list).

Definition load (l : loc) : Alloc object :=
  fun h => match h !! l with Some o => Some (o, h) | None => None end.

Definition loadRule (l : loc) : Alloc SecurityRule.t :=
  o <~ load l ;; match o with ORule r => ret r | _ => fail end.
Definition loadStorage (l : loc) : Alloc Storage.t :=
  o <~ load l ;; match o with OStorage s => ret s | _ => fail end.
Definition loadCredentials (l : loc) : Alloc ImageCredentials.t :=
  o <~ load l ;; match o with OCredentials c => ret c | _ => fail end.
Definition loadDeploySpecs (l : loc) : Alloc DeploySpecs.t :=
  o <~ load l ;; match o with ODeploySpecs d => ret d | _ => fail end.
Definition loadEndpoint (l : loc) : Alloc Endpoint.t :=
  o <~ load l ;; match o with OEndpoint e => ret e | _ => fail end.
Definition loadPort (l : loc) : Alloc Port.t :=
  o <~ load l ;; match o with OPort p => ret p | _ => fail end.
Definition loadConfigFile (l : loc) : Alloc ConfigFile.t :=
  o <~ load l ;; match o with OConfigFile c => ret c | _ => fail end.
Definition loadService (l : loc) : Alloc Service.t :=
  o <~ load l ;; match o with OService s => ret s | _ => fail end.
Definition loadGroup (l : loc) : Alloc ServiceGroup.t :=
  o <~ load l ;; match o with OGroup g => ret g | _ => fail end.
Definition loadDescriptor (l : loc) : Alloc AppDescriptor.t :=
  o <~ load l ;; match o with ODescriptor d => ret d | _ => fail end.

(* the elements a range loop goes over: none for a nil slice *)
Definition range (slice : ptr) : Alloc (list ptr) :=
  match slice with
  | None => ret []
  | Some a => o <~ load a ;; match o with OPointers elems => ret elems | _ => fail end
  end.

(* out := make([]*T, 0); for _, x := range slice { out = append(out, copy(x)) } *)
Fixpoint appendCopies (copy : ptr -> Alloc ptr) (elems : list ptr)
  : Alloc (list ptr) :=
  match elems with
  | [] => ret []
  | x :: rest =>
    c <~ copy x ;;
    out <~ appendCopies copy rest ;;
    ret (c :: out)
  end.

Definition copyPointers (copy : ptr -> Alloc ptr) (slice : ptr) : Alloc ptr :=
  elems <~ range slice ;;
  out <~ appendCopies copy elems ;;
  a <~ alloc (OPointers out) ;;
  ret (Some a).

(* copySecurityRule returns a copy of a given securityRule *)
Definition copySecurityRule (rule : ptr) : Alloc ptr :=
  match rule with
  | None => ret None
  | Some l =>
    rule <~ loadRule l ;;
    l' <~ alloc (ORule {|
      SecurityRule.OrganizationId := SecurityRule.OrganizationId rule;
      SecurityRule.AppDescriptorId := SecurityRule.AppDescriptorId rule;
      SecurityRule.RuleId := SecurityRule.RuleId rule;
      SecurityRule.Name := SecurityRule.Name rule;
      SecurityRule.TargetServiceGroupName := "";
      SecurityRule.TargetServiceName := SecurityRule.TargetServiceName rule;
      SecurityRule.TargetPort := SecurityRule.TargetPort rule;
      SecurityRule.Access := SecurityRule.Access rule;
      SecurityRule.AuthServiceGroupName := SecurityRule.AuthServiceGroupName rule;
      SecurityRule.AuthServices := SecurityRule.AuthServices rule;
      SecurityRule.DeviceGroupIds := SecurityRule.DeviceGroupIds rule;
      SecurityRule.DeviceGroupNames := SecurityRule.DeviceGroupNames rule;
      SecurityRule.OutboundNetInterface := ""
    |}) ;;
    ret (Some l')
  end.

(* copyStorage returns a copy of a given Storage *)
Definition copyStorage (storage : ptr) : Alloc ptr :=
  match storage with
  | None => ret None
  | Some l =>
    storage <~ loadStorage l ;;
    l' <~ alloc (OStorage {|
      Storage.Size := Storage.Size storage;
      Storage.MountPath := Storage.MountPath storage;
      Storage.Type_ := Storage.Type_ storage
    |}) ;;
    ret (Some l')
  end.

(* copyImageCredentials returns a copy of a given Image Credential *)
Definition copyImageCredential (credentials : ptr) : Alloc ptr :=
  match credentials with
  | None => ret None
  | Some l =>
    credentials <~ loadCredentials l ;;
    l' <~ alloc (OCredentials {|
      ImageCredentials.Username := ImageCredentials.Username credentials;
      ImageCredentials.Password := ImageCredentials.Password credentials;
      ImageCredentials.Email := ImageCredentials.Email credentials;
      ImageCredentials.DockerRepository :=
        ImageCredentials.DockerRepository credentials
    |}) ;;
    ret (Some l')
  end.

(* copyDeploySpecs returns a copy of a given deploy spec *)
Definition copyDeploySpec (specs : ptr) : Alloc ptr :=
  match specs with
  | None => ret None
  | Some l =>
    specs <~ loadDeploySpecs l ;;
    l' <~ alloc (ODeploySpecs {|
      DeploySpecs.Cpu := DeploySpecs.Cpu specs;
      DeploySpecs.Memory := DeploySpecs.Memory specs;
      DeploySpecs.Replicas := DeploySpecs.Replicas specs
    |}) ;;
    ret (Some l')
  end.

(* copyEndPoint returns a copy of a given endpoint *)
Definition copyEndPoint (endpoint : ptr) : Alloc ptr :=
  match endpoint with
  | None => ret None
  | Some l =>
    endpoint <~ loadEndpoint l ;;
    l' <~ alloc (OEndpoint {|
      Endpoint.Type_ := Endpoint.Type_ endpoint;
      Endpoint.Path := Endpoint.Path endpoint
    |}) ;;
    ret (Some l')
  end.

(* copyExposedPort returns a copy of a given exposed port *)
Definition copyExposedPort (port : ptr) : Alloc ptr :=
  match port with
  | None => ret None
  | Some l =>
    port <~ loadPort l ;;
    endpoints <~ copyPointers copyEndPoint (Port.Endpoints port) ;;
    l' <~ alloc (OPort {|
      Port.Name := Port.Name port;
      Port.InternalPort := Port.InternalPort port;
      Port.ExposedPort := Port.ExposedPort port;
      Port.Endpoints := endpoints
    |}) ;;
    ret (Some l')
  end.

(* copyConfigFile returns a copy of a given configFile *)
Definition copyConfigFile (configFile : ptr) : Alloc ptr :=
  match configFile with
  | None => ret None
  | Some l =>
    configFile <~ loadConfigFile l ;;
    l' <~ alloc (OConfigFile {|
      ConfigFile.OrganizationId := ConfigFile.OrganizationId configFile;
      ConfigFile.AppDescriptorId := ConfigFile.AppDescriptorId configFile;
      ConfigFile.ConfigFileId := ConfigFile.ConfigFileId configFile;
      ConfigFile.Name := ConfigFile.Name configFile;
      ConfigFile.Content := ConfigFile.Content configFile;
      ConfigFile.MountPath := ConfigFile.MountPath configFile
    |}) ;;
    ret (Some l')
  end.

(* copyService returns a copy of a given Service *)
Definition copyService (service : ptr) : Alloc ptr :=
  match service with
  | None => ret None
  | Some l =>
    service <~ loadService l ;;
    storage <~ copyPointers copyStorage (Service.Storage service) ;;
    ports <~ copyPointers copyExposedPort (Service.ExposedPorts service) ;;
    files <~ copyPointers copyConfigFile (Service.Configs service) ;;
    credentials <~ copyImageCredential (Service.Credentials service) ;;
    specs <~ copyDeploySpec (Service.Specs service) ;;
    l' <~ alloc (OService {|
      Service.OrganizationId := Service.OrganizationId service;
      Service.AppDescriptorId := Service.AppDescriptorId service;
      Service.ServiceGroupId := Service.ServiceGroupId service;
      Service.ServiceId := Service.ServiceId service;
      Service.Name := Service.Name service;
      Service.Type_ := Service.Type_ service;
      Service.Image := Service.Image service;
      Service.Credentials := credentials;
      Service.Specs := specs;
      Service.Storage := storage;
      Service.ExposedPorts := ports;
      Service.EnvironmentVariables := Service.EnvironmentVariables service;
      Service.Configs := files;
      Service.Labels := Service.Labels service;
      Service.DeployAfter := Service.DeployAfter service;
      Service.RunArguments := Service.RunArguments service
    |}) ;;
    ret (Some l')
  end.

(* copyServiceGroup returns a copy of a given ServiceGroup *)
Definition copyServiceGroup (group : ptr) : Alloc ptr :=
  match group with
  | None => ret None
  | Some l =>
    group <~ loadGroup l ;;
    services <~ copyPointers copyService (ServiceGroup.Services group) ;;
    l' <~ alloc (OGroup {|
      ServiceGroup.OrganizationId := ServiceGroup.OrganizationId group;
      ServiceGroup.AppDescriptorId := ServiceGroup.AppDescriptorId group;
      ServiceGroup.ServiceGroupId := ServiceGroup.ServiceGroupId group;
      ServiceGroup.Name := ServiceGroup.Name group;
      ServiceGroup.Services := services;
      ServiceGroup.Policy := ServiceGroup.Policy group;
      ServiceGroup.Specs := None;
      ServiceGroup.Labels := ServiceGroup.Labels group
    |}) ;;
    ret (Some l')
  end.

(* newParametrizedDescriptorFromDescriptor returns a parameterized descriptor
   as a copy of a given descriptor *)
Definition newParametrizedDescriptorFromDescriptor (descriptor : ptr) : Alloc ptr :=
  match descriptor with
  | None => ret None
  | Some l =>
    descriptor <~ loadDescriptor l ;;
    rules <~ copyPointers copySecurityRule (AppDescriptor.Rules descriptor) ;;
    groups <~ copyPointers copyServiceGroup (AppDescriptor.Groups descriptor) ;;
    l' <~ alloc (OParametrized {|
      ParametrizedDescriptor.OrganizationId := AppDescriptor.OrganizationId descriptor;
      ParametrizedDescriptor.AppDescriptorId := AppDescriptor.AppDescriptorId descriptor;
      ParametrizedDescriptor.AppInstanceId := "";
      ParametrizedDescriptor.Name := AppDescriptor.Name descriptor;
      ParametrizedDescriptor.ConfigurationOptions :=
        AppDescriptor.ConfigurationOptions descriptor;
      ParametrizedDescriptor.EnvironmentVariables :=
        AppDescriptor.EnvironmentVariables descriptor;
      ParametrizedDescriptor.Labels := AppDescriptor.Labels descriptor;
      ParametrizedDescriptor.Rules := rules;
      ParametrizedDescriptor.Groups := groups
    |}) ;;
    ret (Some l')
  end.

End Mem.

(** ** What the heap holds

    A view of a kind of reference: the value read behind it, the addresses
    of the records and arrays of records it owns, and the references to maps
    and string arrays found in those records. *)

Record View (V : Type) := mkView {
  read : Mem.heap -> Mem.ptr -> option V;
  owned : Mem.heap -> Mem.ptr -> list Mem.loc;
  shared : Mem.heap -> Mem.ptr -> list Mem.ptr
}.
Arguments mkView {V} _ _ _.
Arguments read {V} _ _ _.
Arguments owned {V} _ _ _.
Arguments shared {V} _ _ _.

Definition readStrings (h : Mem.heap) (slice : Mem.ptr) : option (list string) :=
  match slice with
  | None => Some []
  | Some a => match h !! a with Some (Mem.OStrings elems) => Some elems | _ => None end
  end.

Definition readMap (h : Mem.heap) (m : Mem.ptr) : option (gmap string string) :=
  match m with
  | None => Some ∅
  | Some a => match h !! a with Some (Mem.OMap m) => Some m | _ => None end
  end.

(** The view of a pointer to a struct, from what is decoded, owned and shared
    by the struct. *)
Definition viewStruct {T} (decode : Mem.heap -> Mem.object -> option T)
    (inside : Mem.heap -> Mem.object -> list Mem.loc)
    (refs : Mem.object -> list Mem.ptr) (nested : Mem.heap -> Mem.object -> list Mem.ptr)
  : View (option T) :=
  {|
    read := fun h p =>
      match p with
      | None => Some None
      | Some l => o ← h !! l; v ← decode h o; Some (Some v)
      end;
    owned := fun h p =>
      match p with
      | None => []
      | Some l => l :: match h !! l with Some o => inside h o | None => [] end
      end;
    shared := fun h p =>
      match p with
      | None => []
      | Some l =>
        match h !! l with Some o => (refs o ++ nested h o)%list | None => [] end
      end
  |}.

(** The view of a slice of pointers, from the view of its elements. *)
Definition viewPointers {T} (elem : View (option T)) : View (list (option T)) :=
  {|
    read := fun h slice =>
      match slice with
      | None => Some []
      | Some a =>
        match h !! a with
        | Some (Mem.OPointers elems) => mapM (read elem h) elems
        | _ => None
        end
      end;
    owned := fun h slice =>
      match slice with
      | None => []
      | Some a =>
        a :: match h !! a with
             | Some (Mem.OPointers elems) => concat (map (owned elem h) elems)
             | _ => []
             end
      end;
    shared := fun h slice =>
      match slice with
      | None => []
      | Some a =>
        match h !! a with
        | Some (Mem.OPointers elems) => concat (map (shared elem h) elems)
        | _ => []
        end
      end
  |}.

Definition nothing {A} (h : Mem.heap) (o : Mem.object) : list A := [].

Definition viewStorage : View (option Storage.t) :=
  viewStruct (fun _ o => match o with Mem.OStorage s => Some s | _ => None end)
    nothing (fun _ => []) nothing.

Definition viewCredentials : View (option ImageCredentials.t) :=
  viewStruct (fun _ o => match o with Mem.OCredentials c => Some c | _ => None end)
    nothing (fun _ => []) nothing.

Definition viewDeploySpecs : View (option DeploySpecs.t) :=
  viewStruct (fun _ o => match o with Mem.ODeploySpecs d => Some d | _ => None end)
    nothing (fun _ => []) nothing.

Definition viewGroupSpecs : View (option ServiceGroupDeploymentSpecs.t) :=
  viewStruct (fun _ o => match o with Mem.OGroupSpecs s => Some s | _ => None end)
    nothing (fun _ => []) nothing.

Definition viewEndpoint : View (option Endpoint.t) :=
  viewStruct (fun _ o => match o with Mem.OEndpoint e => Some e | _ => None end)
    nothing (fun _ => []) nothing.

Definition viewConfigFile : View (option ConfigFile.t) :=
  viewStruct (fun _ o => match o with Mem.OConfigFile c => Some c | _ => None end)
    nothing (fun _ => []) nothing.

Definition viewRule : View (option SecurityRule.t) :=
  viewStruct
    (fun h o =>
       match o with
       | Mem.ORule r =>
         authServices ← readStrings h (Mem.SecurityRule.AuthServices r);
         deviceGroupIds ← readStrings h (Mem.SecurityRule.DeviceGroupIds r);
         deviceGroupNames ← readStrings h (Mem.SecurityRule.DeviceGroupNames r);
         Some {|
           SecurityRule.OrganizationId := Mem.SecurityRule.OrganizationId r;
           SecurityRule.AppDescriptorId := Mem.SecurityRule.AppDescriptorId r;
           SecurityRule.RuleId := Mem.SecurityRule.RuleId r;
           SecurityRule.Name := Mem.SecurityRule.Name r;
           SecurityRule.TargetServiceGroupName := Mem.SecurityRule.TargetServiceGroupName r;
           SecurityRule.TargetServiceName := Mem.SecurityRule.TargetServiceName r;
           SecurityRule.TargetPort := Mem.SecurityRule.TargetPort r;
           SecurityRule.Access := Mem.SecurityRule.Access r;
           SecurityRule.AuthServiceGroupName := Mem.SecurityRule.AuthServiceGroupName r;
           SecurityRule.AuthServices := authServices;
           SecurityRule.DeviceGroupIds := deviceGroupIds;
           SecurityRule.DeviceGroupNames := deviceGroupNames;
           SecurityRule.OutboundNetInterface := Mem.SecurityRule.OutboundNetInterface r
         |}
       | _ => None
       end)
    nothing
    (fun o =>
       match o with
       | Mem.ORule r =>
         [Mem.SecurityRule.AuthServices r; Mem.SecurityRule.DeviceGroupIds r;
          Mem.SecurityRule.DeviceGroupNames r]
       | _ => []
       end)
    nothing.

Definition viewPort : View (option Port.t) :=
  viewStruct
    (fun h o =>
       match o with
       | Mem.OPort p =>
         endpoints ← read (viewPointers viewEndpoint) h (Mem.Port.Endpoints p);
         Some {|
           Port.Name := Mem.Port.Name p;
           Port.InternalPort := Mem.Port.InternalPort p;
           Port.ExposedPort := Mem.Port.ExposedPort p;
           Port.Endpoints := endpoints
         |}
       | _ => None
       end)
    (fun h o =>
       match o with
       | Mem.OPort p => owned (viewPointers viewEndpoint) h (Mem.Port.Endpoints p)
       | _ => []
       end)
    (fun _ => []) nothing.

Definition viewService : View (option Service.t) :=
  viewStruct
    (fun h o =>
       match o with
       | Mem.OService s =>
         credentials ← read viewCredentials h (Mem.Service.Credentials s);
         specs ← read viewDeploySpecs h (Mem.Service.Specs s);
         storage ← read (viewPointers viewStorage) h (Mem.Service.Storage s);
         ports ← read (viewPointers viewPort) h (Mem.Service.ExposedPorts s);
         environmentVariables ← readMap h (Mem.Service.EnvironmentVariables s);
         configs ← read (viewPointers viewConfigFile) h (Mem.Service.Configs s);
         labels ← readMap h (Mem.Service.Labels s);
         deployAfter ← readStrings h (Mem.Service.DeployAfter s);
         runArguments ← readStrings h (Mem.Service.RunArguments s);
         Some {|
           Service.OrganizationId := Mem.Service.OrganizationId s;
           Service.AppDescriptorId := Mem.Service.AppDescriptorId s;
           Service.ServiceGroupId := Mem.Service.ServiceGroupId s;
           Service.ServiceId := Mem.Service.ServiceId s;
           Service.Name := Mem.Service.Name s;
           Service.Type_ := Mem.Service.Type_ s;
           Service.Image := Mem.Service.Image s;
           Service.Credentials := credentials;
           Service.Specs := specs;
           Service.Storage := storage;
           Service.ExposedPorts := ports;
           Service.EnvironmentVariables := environmentVariables;
           Service.Configs := configs;
           Service.Labels := labels;
           Service.DeployAfter := deployAfter;
           Service.RunArguments := runArguments
         |}
       | _ => None
       end)
    (fun h o =>
       match o with
       | Mem.OService s =>
         (owned viewCredentials h (Mem.Service.Credentials s) ++
          owned viewDeploySpecs h (Mem.Service.Specs s) ++
          owned (viewPointers viewStorage) h (Mem.Service.Storage s) ++
          owned (viewPointers viewPort) h (Mem.Service.ExposedPorts s) ++
          owned (viewPointers viewConfigFile) h (Mem.Service.Configs s))%list
       | _ => []
       end)
    (fun o =>
       match o with
       | Mem.OService s =>
         [Mem.Service.EnvironmentVariables s; Mem.Service.Labels s;
          Mem.Service.DeployAfter s; Mem.Service.RunArguments s]
       | _ => []
       end)
    nothing.

Definition viewGroup : View (option ServiceGroup.t) :=
  viewStruct
    (fun h o =>
       match o with
       | Mem.OGroup g =>
         services ← read (viewPointers viewService) h (Mem.ServiceGroup.Services g);
         specs ← read viewGroupSpecs h (Mem.ServiceGroup.Specs g);
         labels ← readMap h (Mem.ServiceGroup.Labels g);
         Some {|
           ServiceGroup.OrganizationId := Mem.ServiceGroup.OrganizationId g;
           ServiceGroup.AppDescriptorId := Mem.ServiceGroup.AppDescriptorId g;
           ServiceGroup.ServiceGroupId := Mem.ServiceGroup.ServiceGroupId g;
           ServiceGroup.Name := Mem.ServiceGroup.Name g;
           ServiceGroup.Services := services;
           ServiceGroup.Policy := Mem.ServiceGroup.Policy g;
           ServiceGroup.Specs := specs;
           ServiceGroup.Labels := labels
         |}
       | _ => None
       end)
    (fun h o =>
       match o with
       | Mem.OGroup g =>
         (owned (viewPointers viewService) h (Mem.ServiceGroup.Services g) ++
          owned viewGroupSpecs h (Mem.ServiceGroup.Specs g))%list
       | _ => []
       end)
    (fun o => match o with Mem.OGroup g => [Mem.ServiceGroup.Labels g] | _ => [] end)
    (fun h o =>
       match o with
       | Mem.OGroup g => shared (viewPointers viewService) h (Mem.ServiceGroup.Services g)
       | _ => []
       end).

(** The descriptor behind a pointer. *)
Definition readDescriptor (h : Mem.heap) (l : Mem.loc) : option AppDescriptor.t :=
  o ← h !! l;
  match o with
  | Mem.ODescriptor d =>
    configurationOptions ← readMap h (Mem.AppDescriptor.ConfigurationOptions d);
    environmentVariables ← readMap h (Mem.AppDescriptor.EnvironmentVariables d);
    labels ← readMap h (Mem.AppDescriptor.Labels d);
    rules ← read (viewPointers viewRule) h (Mem.AppDescriptor.Rules d);
    groups ← read (viewPointers viewGroup) h (Mem.AppDescriptor.Groups d);
    Some {|
      AppDescriptor.OrganizationId := Mem.AppDescriptor.OrganizationId d;
      AppDescriptor.AppDescriptorId := Mem.AppDescriptor.AppDescriptorId d;
      AppDescriptor.Name := Mem.AppDescriptor.Name d;
      AppDescriptor.ConfigurationOptions := configurationOptions;
      AppDescriptor.EnvironmentVariables := environmentVariables;
      AppDescriptor.Labels := labels;
      AppDescriptor.Rules := rules;
      AppDescriptor.Groups := groups;
      AppDescriptor.Parameters := Mem.AppDescriptor.Parameters d;
      AppDescriptor.InboundNetInterfaces := Mem.AppDescriptor.InboundNetInterfaces d;
      AppDescriptor.OutboundNetInterfaces := Mem.AppDescriptor.OutboundNetInterfaces d
    |}
  | _ => None
  end.

(** The parametrized descriptor behind a pointer. *)
Definition readParametrized (h : Mem.heap) (l : Mem.loc)
  : option ParametrizedDescriptor.t :=
  o ← h !! l;
  match o with
  | Mem.OParametrized p =>
    configurationOptions ← readMap h (Mem.ParametrizedDescriptor.ConfigurationOptions p);
    environmentVariables ← readMap h (Mem.ParametrizedDescriptor.EnvironmentVariables p);
    labels ← readMap h (Mem.ParametrizedDescriptor.Labels p);
    rules ← read (viewPointers viewRule) h (Mem.ParametrizedDescriptor.Rules p);
    groups ← read (viewPointers viewGroup) h (Mem.ParametrizedDescriptor.Groups p);
    Some {|
      ParametrizedDescriptor.OrganizationId := Mem.ParametrizedDescriptor.OrganizationId p;
      ParametrizedDescriptor.AppDescriptorId := Mem.ParametrizedDescriptor.AppDescriptorId p;
      ParametrizedDescriptor.AppInstanceId := Mem.ParametrizedDescriptor.AppInstanceId p;
      ParametrizedDescriptor.Name := Mem.ParametrizedDescriptor.Name p;
      ParametrizedDescriptor.ConfigurationOptions := configurationOptions;
      ParametrizedDescriptor.EnvironmentVariables := environmentVariables;
      ParametrizedDescriptor.Labels := labels;
      ParametrizedDescriptor.Rules := rules;
      ParametrizedDescriptor.Groups := groups
    |}
  | _ => None
  end.

(** ** The engine on the heap *)

(** json.Unmarshal(data, v) on the heap: it decodes into the object at v. *)
Class HeapLibraries `{Libraries} := {
  json_UnmarshalInto : string -> Mem.loc -> Mem.heap -> option error * Mem.heap
}.

Module MemEngine.
Section Engine.
Context `{HeapLibraries}.

(* CreateParametrizedDescriptor on the heap. The document that is patched is
   the serialization of what the copy holds; with parameters to apply, a nil
   descriptor is dereferenced by findParameterInDescriptor. *)
Definition CreateParametrizedDescriptor (descriptor : Mem.ptr)
    (parameters : InstanceParameterList) : Mem.Alloc (dresult Mem.ptr) :=
  Mem.bind (Mem.newParametrizedDescriptorFromDescriptor descriptor) (fun parametrized =>
  match parameters with
  | None | Some [] => Mem.ret (inr parametrized)
  | Some params =>
    fun h =>
      match descriptor, parametrized with
      | Some d, Some p =>
        original ← readDescriptor h d;
        document ← readParametrized h p;
        match json_Marshal document with
        | inl err => Some (inl (ToDerror err), h)
        | inr jsonDescriptor =>
          match applyParameters original jsonDescriptor params with
          | inl err => Some (inl err, h)
          | inr jsonDescriptor' =>
            match json_UnmarshalInto jsonDescriptor' p h with
            | (Some err, h') => Some (inl (ToDerror err), h')
            | (None, h') => Some (inr parametrized, h')
            end
          end
        end
      | _, _ => None
      end
  end).

End Engine.
End MemEngine.

(** ** Mutation through a reference *)

(* m[key] = value on the map behind the reference *)
Definition mapSet (m : Mem.ptr) (key value : string) (h : Mem.heap) : Mem.heap :=
  match m with
  | Some a =>
    match h !! a with
    | Some (Mem.OMap entries) => <[a := Mem.OMap (<[key := value]> entries)]> h
    | _ => h
    end
  | None => h
  end.

(** The rules and the groups of the two descriptors, as the heap shows them. *)
Definition rulesOfDescriptor (h : Mem.heap) (l : Mem.loc) : Mem.ptr :=
  match h !! l with
  | Some (Mem.ODescriptor d) => Mem.AppDescriptor.Rules d
  | _ => None
  end.
Definition groupsOfDescriptor (h : Mem.heap) (l : Mem.loc) : Mem.ptr :=
  match h !! l with
  | Some (Mem.ODescriptor d) => Mem.AppDescriptor.Groups d
  | _ => None
  end.
Definition rulesOfParametrized (h : Mem.heap) (l : Mem.loc) : Mem.ptr :=
  match h !! l with
  | Some (Mem.OParametrized p) => Mem.ParametrizedDescriptor.Rules p
  | _ => None
  end.
Definition groupsOfParametrized (h : Mem.heap) (l : Mem.loc) : Mem.ptr :=
  match h !! l with
  | Some (Mem.OParametrized p) => Mem.ParametrizedDescriptor.Groups p
  | _ => None
  end.

(** A copy function copies, for a view: from a reference that reads as [v] it
    returns, on an extension of the heap, a reference that reads as the copy
    of [v], owns new addresses only and shares what the original shares. *)
Definition copies {V} (view : View V) (copy : Mem.ptr -> Mem.Alloc Mem.ptr)
    (vcopy : V -> V) : Prop :=
  forall h p v,
    read view h p = Some v ->
    exists p' h',
      copy p h = Some (p', h') /\
      h `prefix_of` h' /\
      read view h' p' = Some (vcopy v) /\
      Forall (fun l => (length h <= l)%nat) (owned view h' p') /\
      shared view h' p' = shared view h p.

(** What is read on a heap is read on its extensions. *)
Definition stable {V} (view : View V) : Prop :=
  forall h h' p v,
    h `prefix_of` h' ->
    read view h p = Some v ->
    read view h' p = Some v /\
    owned view h' p = owned view h p /\
    shared view h' p = shared view h p.

(** * Test doubles

    A scripted remote side, in the manner of the mocks of the repository's
    tests: the script fixes the answer of every collaborator, the state counts
    the calls. The goroutines run in the order of the map. *)

Module Scripted.

Record Script := mk {
  descriptor : result AppDescriptor.t;
  instances : list AppInstance.t;
  listFails : option error;
  added : result AppInstance.t;
  persistFails : option error;
  updateFails : option error;
  removeInstanceFails : option error;
  inbound : result (option (list ConnectionInstance.t));
  outbound : result (option (list ConnectionInstance.t));
  removeConnectionFails : option error;
  sendFails : option error
}.

Definition answer {A} (fails : option error) (a : A) : result A :=
  match fails with Some e => inl e | None => inr a end.

Definition lookupInstance (sc : Script) (id : AppInstanceId.t) : result AppInstance.t :=
  match find (fun inst => bool_decide (AppInstance.AppInstanceId inst =
                                       AppInstanceId.AppInstanceId id))
             (instances sc) with
  | Some inst => inr inst
  | None => inl (ForeignError "rpc error: code = NotFound")
  end.

Definition expand (inst : AppInstance.t) : ExpandedAppInstance.t :=
  {|
    ExpandedAppInstance.OrganizationId := AppInstance.OrganizationId inst;
    ExpandedAppInstance.AppDescriptorId := AppInstance.AppDescriptorId inst;
    ExpandedAppInstance.AppInstanceId := AppInstance.AppInstanceId inst;
    ExpandedAppInstance.Name := AppInstance.Name inst;
    ExpandedAppInstance.InboundConnections := [];
    ExpandedAppInstance.OutboundConnections := []
  |}.

#[refine] Instance collaborators (sc : Script) : Collaborators nat := {|
  GetAppDescriptor := fun _ n => (descriptor sc, S n);
  RemoveAppDescriptor_ := fun _ n => (inr mkSuccess, S n);
  ListAppInstances := fun _ n => (answer (listFails sc) (instances sc), S n);
  GetAppInstance_ := fun id n => (lookupInstance sc id, S n);
  AddAppInstance := fun _ n => (added sc, S n);
  UpdateAppInstance := fun _ n => (answer (updateFails sc) mkSuccess, S n);
  RemoveAppInstance := fun _ n => (answer (removeInstanceFails sc) mkSuccess, S n);
  AddParametrizedDescriptor := fun pd n => (answer (persistFails sc) pd, S n);
  ListInboundConnections := fun _ n => (inbound sc, S n);
  ListOutboundConnections := fun _ n => (outbound sc, S n);
  RemoveConnection := fun _ n => (answer (removeConnectionFails sc) mkSuccess, S n);
  SendDeploy := fun _ n => (sendFails sc, S n);
  SendUndeploy := fun _ n => (sendFails sc, S n);
  rand_Int := fun n => (Z.of_nat n, S n);
  ToAppInstance := expand;
  lookupOrder := fun l => l;
  arrivalOrder := fun l => l
|}.
Proof. all: intros l; reflexivity. Defined.

(** Libraries that leave the document as it is. *)
Instance libraries : Libraries := {|
  float64 := Z;
  strconv_ParseFloat := fun str _ => inl (strconv.ErrSyntax "ParseFloat" str);
  json_Marshal := fun _ => inr "{}";
  json_Unmarshal := fun _ p => inr p;
  sjson_Set_ := fun _ json _ _ => inr json;
  ToDerror := fun e =>
    match e with
    | Derror d | GRPCError d => d
    | ForeignError descr => derrors.mkError derrors.Generic descr []
    end
|}.

End Scripted.

(** * Vocabulary of the properties and sample inputs *)

(** The parameters of the deploy request, nil being no parameter. *)
Definition deployParameters (params : InstanceParameterList)
  : list InstanceParameter.t :=
  match params with Some l => l | None => [] end.

Definition filled (params : InstanceParameterList) (p : AppParameter.t) : Prop :=
  exists dp, dp ∈ deployParameters params /\
             InstanceParameter.ParameterName dp = AppParameter.Name p.

(** A descriptor that declares the given parameters and nothing else. *)
Definition descriptorWithParameters (params : list AppParameter.t) : AppDescriptor.t :=
  {|
    AppDescriptor.OrganizationId := "org1";
    AppDescriptor.AppDescriptorId := "desc1";
    AppDescriptor.Name := "descriptor-test";
    AppDescriptor.ConfigurationOptions := ∅;
    AppDescriptor.EnvironmentVariables := ∅;
    AppDescriptor.Labels := ∅;
    AppDescriptor.Rules := [];
    AppDescriptor.Groups := [];
    AppDescriptor.Parameters := params;
    AppDescriptor.InboundNetInterfaces := [];
    AppDescriptor.OutboundNetInterfaces := []
  |}.

Definition replicasParameter : AppParameter.t :=
  AppParameter.mk "replicas" "groups.0.services.0.specs.replicas"
    ParamDataType_INTEGER [] true.

(** The error class of a result, if it is an error of a known class. *)
Definition resultClass {A} (r : result A) : option derrors.ErrorType :=
  match r with
  | inl e => errorClass e
  | inr _ => None
  end.

(** An instance references a descriptor when it was created from it. *)
Definition references (id : AppDescriptorId.t) (inst : AppInstance.t) : Prop :=
  AppInstance.AppDescriptorId inst = AppDescriptorId.AppDescriptorId id.

(** The calls by which a descriptor is removed from the store. *)
Definition isRemoveAppDescriptor (ev : Event) : Prop :=
  match ev with EvRemoveAppDescriptor _ _ => True | _ => False end.

(** An organization with one instance of the descriptor "desc1". *)
Definition sampleInstance (id : string) (rules : list (option SecurityRule.t))
    (inbounds : list NetworkInterface.t) : AppInstance.t :=
  {|
    AppInstance.OrganizationId := "org1";
    AppInstance.AppDescriptorId := "desc1";
    AppInstance.AppInstanceId := id;
    AppInstance.Name := "app";
    AppInstance.ConfigurationOptions := ∅;
    AppInstance.EnvironmentVariables := ∅;
    AppInstance.Labels := ∅;
    AppInstance.Rules := rules;
    AppInstance.InboundNetInterfaces := inbounds;
    AppInstance.OutboundNetInterfaces := []
  |}.

Definition sampleScript : Scripted.Script :=
  {|
    Scripted.descriptor := inr (descriptorWithParameters []);
    Scripted.instances := [sampleInstance "inst1" [] []];
    Scripted.listFails := None;
    Scripted.added := inr (sampleInstance "inst2" [] []);
    Scripted.persistFails := None;
    Scripted.updateFails := None;
    Scripted.removeInstanceFails := None;
    Scripted.inbound := inr None;
    Scripted.outbound := inr None;
    Scripted.removeConnectionFails := None;
    Scripted.sendFails := None
  |}.

(** Kinds of calls. *)
Definition isLookup (ev : Event) : Prop :=
  match ev with EvGetAppInstance _ _ => True | _ => False end.
Definition isLog (ev : Event) : Prop :=
  match ev with EvLogError _ => True | _ => False end.
Definition isPersist (ev : Event) : Prop :=
  match ev with EvAddParametrizedDescriptor _ _ => True | _ => False end.
Definition isRemoveConnection (ev : Event) : Prop :=
  match ev with EvRemoveConnection _ _ => True | _ => False end.
Definition isSend (ev : Event) : Prop :=
  match ev with EvSendDeploy _ _ | EvSendUndeploy _ _ => True | _ => False end.

(** The compensation of a failed step of Deploy as it shows in the trace: the
    delete of the instance, and the log of the delete when it fails too. *)
Definition compensation (id : AppInstanceId.t) (rollback : result Success)
  : list Event :=
  EvRemoveAppInstance id rollback ::
  match rollback with
  | inl _ => [EvLogError "error in rollback deleting the instance %s"]
  | inr _ => []
  end.

(** The script of a deploy whose descriptor cannot be persisted and whose
    compensating delete fails as well. *)
Definition failingPersistScript : Scripted.Script :=
  {|
    Scripted.descriptor := inr (descriptorWithParameters []);
    Scripted.instances := [];
    Scripted.listFails := None;
    Scripted.added := inr (sampleInstance "inst2" [] []);
    Scripted.persistFails := Some (ForeignError "rpc error: code = Unavailable");
    Scripted.updateFails := None;
    Scripted.removeInstanceFails := Some (ForeignError "rpc error: code = Internal");
    Scripted.inbound := inr None;
    Scripted.outbound := inr None;
    Scripted.removeConnectionFails := None;
    Scripted.sendFails := None
  |}.

Definition sampleDeployRequest (connections : list ConnectionRequest.t)
  : DeployRequest.t :=
  {|
    DeployRequest.OrganizationId := "org1";
    DeployRequest.AppDescriptorId := "desc1";
    DeployRequest.Name := "app";
    DeployRequest.Parameters := None;
    DeployRequest.OutboundConnections := connections
  |}.

(** The removal requests made in a trace, in order. *)
Fixpoint removalRequests (evs : list Event) : list RemoveConnectionRequest.t :=
  match evs with
  | [] => []
  | EvRemoveConnection req _ :: rest => req :: removalRequests rest
  | _ :: rest => removalRequests rest
  end.

(** What follows the send of the undeploy command in the trace. *)
Definition sendLog (sent : option error) : list Event :=
  match sent with
  | Some _ => [EvLogError "error when sending the undeploy request to the queue"]
  | None => []
  end.

(** What Undeploy returns after the send. *)
Definition sendResult (sent : option error) : result Success :=
  match sent with
  | Some err => inl err
  | None => inr mkSuccess
  end.

Definition sampleConnection (source target : string) : ConnectionInstance.t :=
  {|
    ConnectionInstance.OrganizationId := "org1";
    ConnectionInstance.SourceInstanceId := source;
    ConnectionInstance.SourceInstanceName := "svc";
    ConnectionInstance.TargetInstanceId := target;
    ConnectionInstance.InboundName := "in";
    ConnectionInstance.OutboundName := "out"
  |}.

(** An instance "inst1" with one inbound and one outbound connection, on a
    network manager that fails every removal. *)
Definition connectedScript : Scripted.Script :=
  {|
    Scripted.descriptor := inr (descriptorWithParameters []);
    Scripted.instances := [sampleInstance "inst1" [] []];
    Scripted.listFails := None;
    Scripted.added := inr (sampleInstance "inst2" [] []);
    Scripted.persistFails := None;
    Scripted.updateFails := None;
    Scripted.removeInstanceFails := None;
    Scripted.inbound := inr (Some [sampleConnection "inst0" "inst1"]);
    Scripted.outbound := inr (Some [sampleConnection "inst1" "inst3"]);
    Scripted.removeConnectionFails := Some (ForeignError "rpc error: code = Internal");
    Scripted.sendFails := None
  |}.

(** The target service of the last rule of the instance that carries the
    outbound interface, "" when no rule carries it. *)
Definition lastTarget (rules : list (option SecurityRule.t)) (outboundName : string)
  : string :=
  match last (filter (fun rule => SecurityRule.OutboundNetInterface rule = outboundName)
                     (omap id rules)) with
  | Some rule => SecurityRule.TargetServiceName rule
  | None => ""
  end.

(** The slot of a requested connection in the resolved list: nil when the
    name found for its source is empty. *)
Definition resolvedSlot (organizationId : string) (rules : list (option SecurityRule.t))
    (connectionRequest : ConnectionRequest.t) : option ConnectionInstance.t :=
  let sourceInstanceName :=
    lastTarget rules (ConnectionRequest.SourceOutboundName connectionRequest) in
  if bool_decide (sourceInstanceName = "") then None
  else Some {|
    ConnectionInstance.OrganizationId := organizationId;
    ConnectionInstance.SourceInstanceId := "";
    ConnectionInstance.SourceInstanceName := sourceInstanceName;
    ConnectionInstance.TargetInstanceId :=
      ConnectionRequest.TargetInstanceId connectionRequest;
    ConnectionInstance.InboundName :=
      ConnectionRequest.TargetInboundName connectionRequest;
    ConnectionInstance.OutboundName :=
      ConnectionRequest.SourceOutboundName connectionRequest
  |}.

Definition sampleRule (outbound target : string) : SecurityRule.t :=
  {|
    SecurityRule.OrganizationId := "org1";
    SecurityRule.AppDescriptorId := "desc1";
    SecurityRule.RuleId := "rule1";
    SecurityRule.Name := "rule1";
    SecurityRule.TargetServiceGroupName := "g1";
    SecurityRule.TargetServiceName := target;
    SecurityRule.TargetPort := 80;
    SecurityRule.Access := 0;
    SecurityRule.AuthServiceGroupName := "";
    SecurityRule.AuthServices := [];
    SecurityRule.DeviceGroupIds := [];
    SecurityRule.DeviceGroupNames := [];
    SecurityRule.OutboundNetInterface := outbound
  |}.

(** A deploy on a store that accepts everything: the target "inst1" declares
    the inbound "in", the created instance "inst2" has the given rules. *)
Definition deployScript (rules : list (option SecurityRule.t)) : Scripted.Script :=
  {|
    Scripted.descriptor := inr (descriptorWithParameters []);
    Scripted.instances := [sampleInstance "inst1" [] [NetworkInterface.mk "in" false]];
    Scripted.listFails := None;
    Scripted.added := inr (sampleInstance "inst2" rules []);
    Scripted.persistFails := None;
    Scripted.updateFails := None;
    Scripted.removeInstanceFails := None;
    Scripted.inbound := inr None;
    Scripted.outbound := inr None;
    Scripted.removeConnectionFails := None;
    Scripted.sendFails := None
  |}.

(** The inbound names an instance declares. *)
Definition declaredInbounds (instance : AppInstance.t) : list string :=
  map NetworkInterface.Name (AppInstance.InboundNetInterfaces instance).

(** The first of the names that is not declared. *)
Definition firstMissing (declared names : list string) : option string :=
  head (filter (fun name => name ∉ declared) names).

(** The response owed for a target instance, given what its lookup answered:
    true when every name is declared, false with the first missing name, false
    with no name when the lookup failed. *)
Definition expectedResponse (instanceID : string) (inboundNames : list string)
    (lookup : result AppInstance.t) : CheckInboundResponse.t :=
  match lookup with
  | inl _ => CheckInboundResponse.mk instanceID "" false
  | inr targetInstance =>
    match firstMissing (declaredInbounds targetInstance) inboundNames with
    | Some inboundName => CheckInboundResponse.mk instanceID inboundName false
    | None => CheckInboundResponse.mk instanceID "" true
    end
  end.

(** The inbound names that the connections reference on a target instance,
    in the order of the connections. *)
Definition inboundsFor (instanceID : string) (connections : list ConnectionRequest.t)
  : list string :=
  map ConnectionRequest.TargetInboundName
      (filter (fun conn => ConnectionRequest.TargetInstanceId conn = instanceID)
              connections).

(** The distinct target instances of the connections. *)
Definition targetInstances (connections : list ConnectionRequest.t) : list string :=
  remove_dups (map ConnectionRequest.TargetInstanceId connections).

(** One check of the fan-out: the target instance, the names to find on it,
    and what its lookup answered. *)
Definition Check : Type := string * list string * result AppInstance.t.

Definition lookupEvent (organizationID : string) (c : Check) : Event :=
  EvGetAppInstance (AppInstanceId.mk organizationID c.1.1) c.2.

Definition responseOf (c : Check) : CheckInboundResponse.t :=
  expectedResponse c.1.1 c.1.2 c.2.

(** The target instance of a check exists and declares every inbound name
    referenced for it. *)
Definition satisfied (c : Check) : Prop :=
  exists targetInstance,
    c.2 = inr targetInstance /\
    forall name, name ∈ c.1.2 -> name ∈ declaredInbounds targetInstance.

(** The first required outbound of the descriptor that no connection names
    as its source. *)
Definition firstMissingOutbound (connections : list ConnectionRequest.t)
    (outboundInterfaces : list NetworkInterface.t) : option string :=
  head (filter (fun name =>
                  name ∉ map ConnectionRequest.SourceOutboundName connections)
               (map NetworkInterface.Name
                    (filter (fun outbound => NetworkInterface.Required outbound = true)
                            outboundInterfaces))).

Definition instanceNotFound (instanceID : string) : derrors.Error :=
  derrors.mkError derrors.FailedPrecondition "instance not found" [instanceID].

Definition noInboundFound (instanceID inboundName : string) : derrors.Error :=
  derrors.mkError derrors.FailedPrecondition "no inbound interface found"
    [instanceID; inboundName].

(** The error reported for a check that is not satisfied. *)
Definition failureOf (c : Check) : derrors.Error :=
  match c.2 with
  | inl _ => instanceNotFound c.1.1
  | inr targetInstance =>
    match firstMissing (declaredInbounds targetInstance) c.1.2 with
    | Some inboundName =>
      if bool_decide (inboundName = "") then instanceNotFound c.1.1
      else noInboundFound c.1.1 inboundName
    | None => instanceNotFound c.1.1
    end
  end.

(** Three target instances: "inst1" and "inst3" declare the inbound "in1",
    "inst2" declares "in1" and "in2". *)
Definition instanceWithInbounds (id : string) (names : list string) : AppInstance.t :=
  sampleInstance id [] (map (fun name => NetworkInterface.mk name false) names).

Definition threeTargetsScript : Scripted.Script :=
  {|
    Scripted.descriptor := inr (descriptorWithParameters []);
    Scripted.instances :=
      [instanceWithInbounds "inst1" ["in1"];
       instanceWithInbounds "inst2" ["in1"; "in2"];
       instanceWithInbounds "inst3" ["in1"]];
    Scripted.listFails := None;
    Scripted.added := inr (sampleInstance "inst9" [] []);
    Scripted.persistFails := None;
    Scripted.updateFails := None;
    Scripted.removeInstanceFails := None;
    Scripted.inbound := inr None;
    Scripted.outbound := inr None;
    Scripted.removeConnectionFails := None;
    Scripted.sendFails := None
  |}.

(** No parameter of the descriptor has the name of the instance parameter. *)
Definition undeclared (descriptor : AppDescriptor.t) (param : InstanceParameter.t)
  : Prop :=
  forall definition,
    definition ∈ AppDescriptor.Parameters descriptor ->
    AppParameter.Name definition <> InstanceParameter.ParameterName param.

Definition modeParameter : AppParameter.t :=
  AppParameter.mk "mode" "environment_variables.MODE" ParamDataType_ENUM
    ["fast"; "safe"] false.

(** The fields of a rule that its copy carries over. *)
Definition carriedRule (rule copy : option SecurityRule.t) : Prop :=
  match rule, copy with
  | None, None => True
  | Some rule, Some copy =>
    SecurityRule.OrganizationId copy = SecurityRule.OrganizationId rule /\
    SecurityRule.AppDescriptorId copy = SecurityRule.AppDescriptorId rule /\
    SecurityRule.RuleId copy = SecurityRule.RuleId rule /\
    SecurityRule.Name copy = SecurityRule.Name rule /\
    SecurityRule.TargetServiceName copy = SecurityRule.TargetServiceName rule /\
    SecurityRule.TargetPort copy = SecurityRule.TargetPort rule /\
    SecurityRule.Access copy = SecurityRule.Access rule /\
    SecurityRule.AuthServiceGroupName copy = SecurityRule.AuthServiceGroupName rule /\
    SecurityRule.AuthServices copy = SecurityRule.AuthServices rule /\
    SecurityRule.DeviceGroupIds copy = SecurityRule.DeviceGroupIds rule /\
    SecurityRule.DeviceGroupNames copy = SecurityRule.DeviceGroupNames rule
  | _, _ => False
  end.

(** The fields of a group that its copy carries over; the services are equal
    in every field. *)
Definition carriedGroup (group copy : option ServiceGroup.t) : Prop :=
  match group, copy with
  | None, None => True
  | Some group, Some copy =>
    ServiceGroup.OrganizationId copy = ServiceGroup.OrganizationId group /\
    ServiceGroup.AppDescriptorId copy = ServiceGroup.AppDescriptorId group /\
    ServiceGroup.ServiceGroupId copy = ServiceGroup.ServiceGroupId group /\
    ServiceGroup.Name copy = ServiceGroup.Name group /\
    ServiceGroup.Services copy = ServiceGroup.Services group /\
    ServiceGroup.Policy copy = ServiceGroup.Policy group /\
    ServiceGroup.Labels copy = ServiceGroup.Labels group
  | _, _ => False
  end.

(** Heap libraries that decode nothing. *)
Instance scriptedHeapLibraries : @HeapLibraries Scripted.libraries :=
  {| json_UnmarshalInto := fun _ _ h => (None, h) |}.

(** A heap with one descriptor, at address 4: no rule, one group "g1" (at 2)
    with no service and the labels {tier: db} (the map at 0). *)
Definition sampleHeap : list Mem.object :=
  [Mem.OMap {[ "tier" := "db" ]};
   Mem.OPointers [];
   Mem.OGroup (Mem.ServiceGroup.mk "org1" "desc1" "group1" "g1" (Some 1%nat) 0 None
                 (Some 0%nat));
   Mem.OPointers [Some 2%nat];
   Mem.ODescriptor (Mem.AppDescriptor.mk "org1" "desc1" "descriptor-test" None None None
                      None (Some 3%nat) [] [] [])].

(** What the sample heap holds at address 4. *)
Definition sampleHeapDescriptor : AppDescriptor.t :=
  {|
    AppDescriptor.OrganizationId := "org1";
    AppDescriptor.AppDescriptorId := "desc1";
    AppDescriptor.Name := "descriptor-test";
    AppDescriptor.ConfigurationOptions := ∅;
    AppDescriptor.EnvironmentVariables := ∅;
    AppDescriptor.Labels := ∅;
    AppDescriptor.Rules := [];
    AppDescriptor.Groups :=
      [Some (ServiceGroup.mk "org1" "desc1" "group1" "g1" [] 0 None
               {[ "tier" := "db" ]})];
    AppDescriptor.Parameters := [];
    AppDescriptor.InboundNetInterfaces := [];
    AppDescriptor.OutboundNetInterfaces := []
  |}.

(** The heap once the descriptor at 4 has been copied with no parameter. *)
Definition copiedHeap : list Mem.object :=
  match @MemEngine.CreateParametrizedDescriptor Scripted.libraries
          scriptedHeapLibraries (Some 4%nat) None sampleHeap with
  | Some (_, h') => h'
  | None => []
  end.

(** The value of a label of the first group of a descriptor. *)
Definition firstGroupLabel (descriptor : option AppDescriptor.t) (key : string)
  : option string :=
  match descriptor with
  | Some descriptor =>
    match AppDescriptor.Groups descriptor with
    | Some group :: _ => ServiceGroup.Labels group !! key
    | _ => None
    end
  | None => None
  end.

(** ** Vocabulary of the further properties of Deploy *)

(** The calls that Deploy makes before it asks for the creation of the
    instance. *)
Definition isPreparation (ev : Event) : Prop :=
  match ev with
  | EvGetAppDescriptor _ _ | EvGetAppInstance _ _ | EvLogError _ => True
  | _ => False
  end.

Definition isRemoveAppInstance (ev : Event) : Prop :=
  match ev with EvRemoveAppInstance _ _ => True | _ => False end.

(** The identifier under which Deploy fetches the descriptor, and the request
    by which it creates the instance. *)
Definition descriptorOf (deployRequest : DeployRequest.t) : AppDescriptorId.t :=
  {|
    AppDescriptorId.OrganizationId := DeployRequest.OrganizationId deployRequest;
    AppDescriptorId.AppDescriptorId := DeployRequest.AppDescriptorId deployRequest
  |}.

Definition creationOf (deployRequest : DeployRequest.t) : AddAppInstanceRequest.t :=
  {|
    AddAppInstanceRequest.OrganizationId := DeployRequest.OrganizationId deployRequest;
    AddAppInstanceRequest.AppDescriptorId := DeployRequest.AppDescriptorId deployRequest;
    AddAppInstanceRequest.Name := DeployRequest.Name deployRequest;
    AddAppInstanceRequest.Parameters := DeployRequest.Parameters deployRequest
  |}.

(** A descriptor with one rule and no parameter, and a store and a queue of
    which the update of an instance and the send fail as told. *)
Definition descriptorWithRule : AppDescriptor.t :=
  {|
    AppDescriptor.OrganizationId := "org1";
    AppDescriptor.AppDescriptorId := "desc1";
    AppDescriptor.Name := "descriptor-test";
    AppDescriptor.ConfigurationOptions := ∅;
    AppDescriptor.EnvironmentVariables := ∅;
    AppDescriptor.Labels := {[ "app" := "simple-app" ]};
    AppDescriptor.Rules := [Some (sampleRule "out1" "svc1")];
    AppDescriptor.Groups := [];
    AppDescriptor.Parameters := [];
    AppDescriptor.InboundNetInterfaces := [];
    AppDescriptor.OutboundNetInterfaces := []
  |}.

Definition ruledScript (updateFails sendFails : option error) : Scripted.Script :=
  {|
    Scripted.descriptor := inr descriptorWithRule;
    Scripted.instances := [];
    Scripted.listFails := None;
    Scripted.added := inr (sampleInstance "inst2" [] []);
    Scripted.persistFails := None;
    Scripted.updateFails := updateFails;
    Scripted.removeInstanceFails := None;
    Scripted.inbound := inr None;
    Scripted.outbound := inr None;
    Scripted.removeConnectionFails := None;
    Scripted.sendFails := sendFails
  |}.

(** ** Vocabulary of the expansion of an instance *)

(** The connections an expanded instance ends with, given what the listing
    answered: the listed ones, or the ones it had when the listing failed or
    answered nil. *)
Definition listedOr (listing : result (option (list ConnectionInstance.t)))
    (had : list ConnectionInstance.t) : list ConnectionInstance.t :=
  match listing with
  | inr (Some conns) => conns
  | _ => had
  end.

(** What a failed listing leaves in the trace. *)
Definition listingLog (what : string)
    (listing : result (option (list ConnectionInstance.t))) : list Event :=
  match listing with
  | inl _ => [EvLogError ("error getting " +:+ what +:+ " connections")]
  | inr _ => []
  end.

(** The identifier under which the connections of an instance are listed. *)
Definition instanceIdOf (instance : AppInstance.t) : AppInstanceId.t :=
  {|
    AppInstanceId.OrganizationId := AppInstance.OrganizationId instance;
    AppInstanceId.AppInstanceId := AppInstance.AppInstanceId instance
  |}.

(** * The manager: listings of instances and of their open interfaces
      (server/application/manager.go) *)

Module AvailableInstanceInbound.
Record t := mk {
  OrganizationId : string;
  AppInstanceId : string;
  InstanceName : string;
  InboundName : string
}.
End AvailableInstanceInbound.

Module AvailableInstanceOutbound.
Record t := mk {
  OrganizationId : string;
  AppInstanceId : string;
  InstanceName : string;
  OutboundName : string
}.
End AvailableInstanceOutbound.

Module Manager.
Section Listings.
Context {St : Type} `{Collaborators St}.

(* for _, instance := range list.Instances {
     expandList = append(expandList, m.getInstanceConnections(instance)) } *)
Fixpoint expandInstances (instances : list AppInstance.t)
    (expandList : list ExpandedAppInstance.t) : M St (list ExpandedAppInstance.t) :=
  match instances with
  | [] => ret expandList
  | instance :: rest =>
    expanded <- getInstanceConnections instance ;;
    expandInstances rest (expandList ++ [expanded])%list
  end.

(* for _, inbound := range appInstance.InboundNetInterfaces {
     instanceInbounds = append(instanceInbounds, &AvailableInstanceInbound{...}) } *)
Definition appendInbounds (organizationId : string)
    (instanceInbounds : list AvailableInstanceInbound.t) (appInstance : AppInstance.t)
  : list AvailableInstanceInbound.t :=
  foldl (fun instanceInbounds inbound =>
           (instanceInbounds ++
            [{| AvailableInstanceInbound.OrganizationId := organizationId;
                AvailableInstanceInbound.AppInstanceId :=
                  AppInstance.AppInstanceId appInstance;
                AvailableInstanceInbound.InstanceName := AppInstance.Name appInstance;
                AvailableInstanceInbound.InboundName := NetworkInterface.Name inbound
             |}])%list)
        instanceInbounds (AppInstance.InboundNetInterfaces appInstance).

(* ListAvailableInstanceInbounds List all the pluggable inbounds *)
Definition ListAvailableInstanceInbounds (organizationId : string)
  : M St (result (list AvailableInstanceInbound.t)) :=
  appInstances <- call (ListAppInstances organizationId)
                       (EvListAppInstances organizationId) ;;
  match appInstances with
  | inl err => ret (inl err)
  | inr appInstances =>
    ret (inr (foldl (appendInbounds organizationId) [] appInstances))
  end.

(* for _, connection := range expandedAppInstance.OutboundConnections {
     if outbound.Name == connection.OutboundName { connected = true } } *)
Definition connected (outbound : NetworkInterface.t)
    (connections : list ConnectionInstance.t) : bool :=
  existsb (fun connection =>
             bool_decide (NetworkInterface.Name outbound =
                          ConnectionInstance.OutboundName connection))
          connections.

(* for _, outbound := range appInstance.OutboundNetInterfaces: the connected
   outbounds are excluded *)
Definition appendOutbounds (organizationId : string) (appInstance : AppInstance.t)
    (expandedAppInstance : ExpandedAppInstance.t)
    (instanceOutbounds : list AvailableInstanceOutbound.t)
  : list AvailableInstanceOutbound.t :=
  foldl (fun instanceOutbounds outbound =>
           if negb (connected outbound
                      (ExpandedAppInstance.OutboundConnections expandedAppInstance))
           then
             (instanceOutbounds ++
              [{| AvailableInstanceOutbound.OrganizationId := organizationId;
                  AvailableInstanceOutbound.AppInstanceId :=
                    AppInstance.AppInstanceId appInstance;
                  AvailableInstanceOutbound.InstanceName := AppInstance.Name appInstance;
                  AvailableInstanceOutbound.OutboundName := NetworkInterface.Name outbound
               |}])%list
           else instanceOutbounds)
        instanceOutbounds (AppInstance.OutboundNetInterfaces appInstance).

(* for _, appInstance := range appInstances.Instances *)
Fixpoint availableOutbounds (organizationId : string)
    (appInstances : list AppInstance.t)
    (instanceOutbounds : list AvailableInstanceOutbound.t)
  : M St (list AvailableInstanceOutbound.t) :=
  match appInstances with
  | [] => ret instanceOutbounds
  | appInstance :: rest =>
    expandedAppInstance <- getInstanceConnections appInstance ;;
    availableOutbounds organizationId rest
      (appendOutbounds organizationId appInstance expandedAppInstance instanceOutbounds)
  end.

(* ListAvailableInstanceOutbounds List all the outbounds that are not
   connected *)
Definition ListAvailableInstanceOutbounds (organizationId : string)
  : M St (result (list AvailableInstanceOutbound.t)) :=
  appInstances <- call (ListAppInstances organizationId)
                       (EvListAppInstances organizationId) ;;
  match appInstances with
  | inl err => ret (inl err)
  | inr appInstances =>
    instanceOutbounds <- availableOutbounds organizationId appInstances [] ;;
    ret (inr instanceOutbounds)
  end.

(* ListAppInstances retrieves a list of application instances, each with its
   connections; the listing itself is the one of the store (appClient) *)
Definition ListAppInstances (organizationID : string)
  : M St (result (list ExpandedAppInstance.t)) :=
  list <- call (ListAppInstances organizationID) (EvListAppInstances organizationID) ;;
  match list with
  | inl err => ret (inl err)
  | inr instances =>
    expandList <- expandInstances instances [] ;;
    ret (inr expandList)
  end.

End Listings.
End Manager.

(** ** Vocabulary of the listings *)

(** The listings of connections made in a trace, in order: the direction and
    the identifier asked for. *)
Fixpoint connectionListings (evs : list Event) : list (string * AppInstanceId.t) :=
  match evs with
  | EvListInboundConnections id _ :: rest => ("inbound", id) :: connectionListings rest
  | EvListOutboundConnections id _ :: rest => ("outbound", id) :: connectionListings rest
  | _ :: rest => connectionListings rest
  | [] => []
  end.

Definition isConnectionListing (ev : Event) : Prop :=
  match ev with
  | EvListInboundConnections _ _ | EvListOutboundConnections _ _ => True
  | _ => False
  end.

(** The two listings made for an instance. *)
Definition listingsOf (instance : AppInstance.t) : list (string * AppInstanceId.t) :=
  [("inbound", instanceIdOf instance); ("outbound", instanceIdOf instance)].

(** An expanded instance has the identity of another. *)
Definition sameIdentity (expandInstance expanded : ExpandedAppInstance.t) : Prop :=
  ExpandedAppInstance.OrganizationId expanded =
    ExpandedAppInstance.OrganizationId expandInstance /\
  ExpandedAppInstance.AppDescriptorId expanded =
    ExpandedAppInstance.AppDescriptorId expandInstance /\
  ExpandedAppInstance.AppInstanceId expanded =
    ExpandedAppInstance.AppInstanceId expandInstance /\
  ExpandedAppInstance.Name expanded = ExpandedAppInstance.Name expandInstance.

(** The entry of an inbound, and of an outbound, of an instance. *)
Definition inboundEntry (organizationId : string) (appInstance : AppInstance.t)
    (inbound : NetworkInterface.t) : AvailableInstanceInbound.t :=
  {|
    AvailableInstanceInbound.OrganizationId := organizationId;
    AvailableInstanceInbound.AppInstanceId := AppInstance.AppInstanceId appInstance;
    AvailableInstanceInbound.InstanceName := AppInstance.Name appInstance;
    AvailableInstanceInbound.InboundName := NetworkInterface.Name inbound
  |}.

Definition outboundEntry (organizationId : string) (appInstance : AppInstance.t)
    (outbound : NetworkInterface.t) : AvailableInstanceOutbound.t :=
  {|
    AvailableInstanceOutbound.OrganizationId := organizationId;
    AvailableInstanceOutbound.AppInstanceId := AppInstance.AppInstanceId appInstance;
    AvailableInstanceOutbound.InstanceName := AppInstance.Name appInstance;
    AvailableInstanceOutbound.OutboundName := NetworkInterface.Name outbound
  |}.

(** The outbounds of an instance that none of the outbound connections of
    its expansion names. *)
Definition openOutbounds (appInstance : AppInstance.t)
    (expanded : ExpandedAppInstance.t) : list NetworkInterface.t :=
  filter (fun outbound =>
            NetworkInterface.Name outbound
              ∉ map ConnectionInstance.OutboundName
                    (ExpandedAppInstance.OutboundConnections expanded))
         (AppInstance.OutboundNetInterfaces appInstance).

(** An organization of two instances: "inst1" declares the outbounds "out"
    and "spare", "inst2" the inbound "in"; every instance is listed with one
    outbound connection, from its outbound "out". *)
Definition interfacedInstance (id name : string) (inbounds outbounds : list string)
  : AppInstance.t :=
  {|
    AppInstance.OrganizationId := "org1";
    AppInstance.AppDescriptorId := "desc1";
    AppInstance.AppInstanceId := id;
    AppInstance.Name := name;
    AppInstance.ConfigurationOptions := ∅;
    AppInstance.EnvironmentVariables := ∅;
    AppInstance.Labels := ∅;
    AppInstance.Rules := [];
    AppInstance.InboundNetInterfaces :=
      map (fun name => NetworkInterface.mk name false) inbounds;
    AppInstance.OutboundNetInterfaces :=
      map (fun name => NetworkInterface.mk name false) outbounds
  |}.

Definition interfacedScript (outbound : result (option (list ConnectionInstance.t)))
  : Scripted.Script :=
  {|
    Scripted.descriptor := inr (descriptorWithParameters []);
    Scripted.instances :=
      [interfacedInstance "inst1" "front" [] ["out"; "spare"];
       interfacedInstance "inst2" "back" ["in"] []];
    Scripted.listFails := None;
    Scripted.added := inr (sampleInstance "inst9" [] []);
    Scripted.persistFails := None;
    Scripted.updateFails := None;
    Scripted.removeInstanceFails := None;
    Scripted.inbound := inr None;
    Scripted.outbound := outbound;
    Scripted.removeConnectionFails := None;
    Scripted.sendFails := None
  |}.

(** ** Vocabulary of the further properties of the parametrization *)

Section ParametrizationVocabulary.
Context `{Libraries}.

(** The parameter is declared by the descriptor and its value passes the
    validation of the declared type. *)
Definition accepted (descriptor : AppDescriptor.t) (param : InstanceParameter.t)
  : Prop :=
  exists definition value,
    findParameterInDescriptor descriptor param = inr definition /\
    validateInstanceParameter definition param = inr value.

End ParametrizationVocabulary.

(** No instance parameter: a nil list, a list with nil parameters, an empty
    list. *)
Definition noParameters (parameters : InstanceParameterList) : Prop :=
  parameters = None \/ parameters = Some [].

(** A rule that targets the group "g1" from the outbound "out1", and a group
    with deployment specs. *)
Definition descriptorWithGroupSpecs : AppDescriptor.t :=
  {|
    AppDescriptor.OrganizationId := "org1";
    AppDescriptor.AppDescriptorId := "desc1";
    AppDescriptor.Name := "descriptor-test";
    AppDescriptor.ConfigurationOptions := ∅;
    AppDescriptor.EnvironmentVariables := ∅;
    AppDescriptor.Labels := ∅;
    AppDescriptor.Rules := [Some (sampleRule "out1" "svc1")];
    AppDescriptor.Groups :=
      [Some (ServiceGroup.mk "org1" "desc1" "group1" "g1" [] 0
               (Some (ServiceGroupDeploymentSpecs.mk 3 true)) ∅)];
    AppDescriptor.Parameters := [];
    AppDescriptor.InboundNetInterfaces := [];
    AppDescriptor.OutboundNetInterfaces := []
  |}.

(** * Validation of the requests (entities/validator.go) *)

Module AddAppDescriptorRequest.
Record t := mk {
  RequestId : string;
  OrganizationId : string;
  Name : string;
  Services : list (option Service.t)
}.
End AddAppDescriptorRequest.

Module entities.

Definition emptyRequestId : string := "request_id cannot be empty".
Definition emptyOrganizationId : string := "organization_id cannot be empty".
Definition emptyDescriptorId : string := "app_descriptor_id cannot be empty".
Definition emptyInstanceId : string := "app_instance_id cannot be empty".
Definition emptyName : string := "name cannot be empty".

(* the argument is the OrganizationId field of the *OrganizationId message;
   [None] is a nil error *)
Definition ValidOrganizationId (organizationID : string) : option derrors.Error :=
  if bool_decide (organizationID = "") then
    Some (derrors.NewInvalidArgumentError emptyOrganizationId)
  else None.

Definition ValidAddAppDescriptorRequest (toAdd : AddAppDescriptorRequest.t)
  : option derrors.Error :=
  if bool_decide (AddAppDescriptorRequest.OrganizationId toAdd = "") then
    Some (derrors.NewInvalidArgumentError emptyOrganizationId)
  else if bool_decide (AddAppDescriptorRequest.RequestId toAdd = "") then
    Some (derrors.NewInvalidArgumentError emptyRequestId)
  else if bool_decide (AddAppDescriptorRequest.Name toAdd = "") then
    Some (derrors.NewInvalidArgumentError emptyName)
  else if bool_decide (length (AddAppDescriptorRequest.Services toAdd) = 0%nat) then
    Some (derrors.NewInvalidArgumentError "expecting at least one service")
  else None.

Definition ValidAppDescriptorID (descriptorID : AppDescriptorId.t)
  : option derrors.Error :=
  if bool_decide (AppDescriptorId.OrganizationId descriptorID = "") then
    Some (derrors.NewInvalidArgumentError emptyOrganizationId)
  else if bool_decide (AppDescriptorId.AppDescriptorId descriptorID = "") then
    Some (derrors.NewInvalidArgumentError emptyDescriptorId)
  else None.

Definition ValidAppInstanceID (instanceID : AppInstanceId.t) : option derrors.Error :=
  if bool_decide (AppInstanceId.OrganizationId instanceID = "") then
    Some (derrors.NewInvalidArgumentError emptyOrganizationId)
  else if bool_decide (AppInstanceId.AppInstanceId instanceID = "") then
    Some (derrors.NewInvalidArgumentError emptyInstanceId)
  else None.

Definition ValidDeployRequest (deployRequest : DeployRequest.t)
  : option derrors.Error :=
  if bool_decide (DeployRequest.OrganizationId deployRequest = "") then
    Some (derrors.NewInvalidArgumentError emptyOrganizationId)
  else if bool_decide (DeployRequest.AppDescriptorId deployRequest = "") then
    Some (derrors.NewInvalidArgumentError emptyDescriptorId)
  else if bool_decide (DeployRequest.Name deployRequest = "") then
    Some (derrors.NewInvalidArgumentError emptyName)
  else None.

End entities.

(** * Workflows over further collaborators

    The workflows below call collaborators that the deployment workflows do
    not know (the cluster store, the logging coordinator, the history of the
    logs): their calls are logged in traces of their own, by the same monad
    over any type of events. *)

Module Traced.
Section Traced.
Context {Ev St : Type}.

Definition T (A : Type) : Type := St -> A * St * list Ev.

Definition ret {A} (a : A) : T A := fun s => (a, s, []).

Definition bind {A B} (m : T A) (k : A -> T B) : T B :=
  fun s =>
    let '(a, s1, t1) := m s in
    let '(b, s2, t2) := k a s1 in
    (b, s2, (t1 ++ t2)%list).

(* one call, logged with its outcome *)
Definition call {A} (f : St -> A * St) (ev : A -> Ev) : T A :=
  fun s => let (r, s') := f s in (r, s', [ev r]).

(* an entry of the log of the process *)
Definition note (ev : Ev) : T unit := fun s => (tt, s, [ev]).

Definition value {A} (r : A * St * list Ev) : A := fst (fst r).
Definition final {A} (r : A * St * list Ev) : St := snd (fst r).
Definition events {A} (r : A * St * list Ev) : list Ev := snd r.

End Traced.
End Traced.

Notation "'let*' x ':=' m 'in' k" := (Traced.bind m (fun x => k))
  (at level 10, x name, m at level 100, k at level 200).

(** * The manager: endpoints of an instance (server/application/manager.go) *)

Inductive ServiceStatus :=
| ServiceStatus_SERVICE_DEPLOYING
| ServiceStatus_SERVICE_RUNNING
| ServiceStatus_SERVICE_ERROR
| ServiceStatus_SERVICE_TERMINATING
| ServiceStatus_other (n : Z).

#[global] Instance ServiceStatus_eq_dec : EqDecision ServiceStatus.
Proof. solve_decision. Defined.

Module EndpointInstance.
Record t := mk {
  EndpointInstanceId : string;
  Type_ : Z;
  Fqdn : string;
  Port : Z
}.
End EndpointInstance.

(** Of a service instance, of a group instance and of the instance that the
    store returns: what RetrieveEndpoints reads. The slices hold no nil
    element. *)
Module ServiceInstance.
Record t := mk {
  ServiceInstanceId : string;
  Status : ServiceStatus;
  Endpoints : list EndpointInstance.t;
  DeployedOnClusterId : string
}.
End ServiceInstance.

Module ServiceGroupInstance.
Record t := mk {
  ServiceGroupInstanceId : string;
  ServiceInstances : list ServiceInstance.t
}.
End ServiceGroupInstance.

Module DeployedAppInstance.
Record t := mk {
  OrganizationId : string;
  AppInstanceId : string;
  Groups : list ServiceGroupInstance.t
}.
End DeployedAppInstance.

Module ClusterId.
Record t := mk { OrganizationId : string; ClusterId : string }.
End ClusterId.

Module Cluster.
Record t := mk { ClusterId : string; Hostname : string }.
End Cluster.

Module RetrieveEndpointsRequest.
Record t := mk { OrganizationId : string; AppInstanceId : string }.
End RetrieveEndpointsRequest.

Module ApplicationClusterEndpoints.
Record t := mk {
  DeviceControllerUrl : string;
  Endpoints : list EndpointInstance.t
}.
End ApplicationClusterEndpoints.

Inductive EndpointsEvent :=
| EvGetDeployedInstance (id : AppInstanceId.t) (r : result DeployedAppInstance.t)
| EvGetCluster (id : ClusterId.t) (r : result Cluster.t).

(** appClient.GetAppInstance, for the groups of the instance, and
    clusterClient.GetCluster. *)
Class EndpointsCollaborators (St : Type) := {
  GetDeployedInstance : AppInstanceId.t -> St -> result DeployedAppInstance.t * St;
  GetCluster : ClusterId.t -> St -> result Cluster.t * St
}.

Section Endpoints.
Context {St : Type} `{EndpointsCollaborators St}.

(* endpoints[i].Fqdn = fmt.Sprintf("%s:%d", endpoints[i].Fqdn, endpoints[i].Port),
   for every i *)
Definition fillEndpoints (endpoints : list EndpointInstance.t)
  : list EndpointInstance.t :=
  map (fun endpoint =>
         {| EndpointInstance.EndpointInstanceId :=
              EndpointInstance.EndpointInstanceId endpoint;
            EndpointInstance.Type_ := EndpointInstance.Type_ endpoint;
            EndpointInstance.Fqdn :=
              EndpointInstance.Fqdn endpoint +:+ ":" +:+
              pretty (EndpointInstance.Port endpoint);
            EndpointInstance.Port := EndpointInstance.Port endpoint |})
      endpoints.

(* for _, service := range group.ServiceInstances: the cluster host of each
   running service that has endpoints; the first failed lookup returns *)
Fixpoint serviceEndpoints (organizationId : string)
    (services : list ServiceInstance.t)
    (appClusterEndPoints : list ApplicationClusterEndpoints.t)
  : Traced.T (Ev := EndpointsEvent) (St := St)
      (result (list ApplicationClusterEndpoints.t)) :=
  match services with
  | [] => Traced.ret (inr appClusterEndPoints)
  | service :: rest =>
    if bool_decide (ServiceInstance.Status service = ServiceStatus_SERVICE_RUNNING)
       && bool_decide (0 < length (ServiceInstance.Endpoints service))%nat
    then
      let clusterId := {|
        ClusterId.OrganizationId := organizationId;
        ClusterId.ClusterId := ServiceInstance.DeployedOnClusterId service
      |} in
      let* cluster := Traced.call (GetCluster clusterId) (EvGetCluster clusterId) in
      match cluster with
      | inl err => Traced.ret (inl err)
      | inr cluster =>
        let clusterEndPoint := {|
          ApplicationClusterEndpoints.DeviceControllerUrl :=
            "device-controller." +:+ Cluster.Hostname cluster;
          ApplicationClusterEndpoints.Endpoints :=
            fillEndpoints (ServiceInstance.Endpoints service)
        |} in
        serviceEndpoints organizationId rest
          (appClusterEndPoints ++ [clusterEndPoint])%list
      end
    else serviceEndpoints organizationId rest appClusterEndPoints
  end.

(* for _, group := range instance.Groups *)
Fixpoint groupEndpoints (organizationId : string)
    (groups : list ServiceGroupInstance.t)
    (appClusterEndPoints : list ApplicationClusterEndpoints.t)
  : Traced.T (Ev := EndpointsEvent) (St := St)
      (result (list ApplicationClusterEndpoints.t)) :=
  match groups with
  | [] => Traced.ret (inr appClusterEndPoints)
  | group :: rest =>
    let* collected :=
      serviceEndpoints organizationId (ServiceGroupInstance.ServiceInstances group)
        appClusterEndPoints in
    match collected with
    | inl err => Traced.ret (inl err)
    | inr appClusterEndPoints => groupEndpoints organizationId rest appClusterEndPoints
    end
  end.

(* RetrieveEndpoints: the result is the ClusterEndpoints of the
   ApplicationEndpoints returned *)
Definition RetrieveEndpoints (request : RetrieveEndpointsRequest.t)
  : Traced.T (Ev := EndpointsEvent) (St := St)
      (result (list ApplicationClusterEndpoints.t)) :=
  let instanceID := {|
    AppInstanceId.OrganizationId := RetrieveEndpointsRequest.OrganizationId request;
    AppInstanceId.AppInstanceId := RetrieveEndpointsRequest.AppInstanceId request
  |} in
  (* get the instance requested *)
  let* instance :=
    Traced.call (GetDeployedInstance instanceID) (EvGetDeployedInstance instanceID) in
  match instance with
  | inl err => Traced.ret (inl err)
  | inr instance =>
    groupEndpoints (RetrieveEndpointsRequest.OrganizationId request)
      (DeployedAppInstance.Groups instance) []
  end.

End Endpoints.

(** ** Vocabulary of the endpoints *)

(** A service is exposed when it is running and has an endpoint. *)
Definition exposed (service : ServiceInstance.t) : Prop :=
  ServiceInstance.Status service = ServiceStatus_SERVICE_RUNNING /\
  ServiceInstance.Endpoints service <> [].

#[global] Instance exposed_dec service : Decision (exposed service).
Proof. unfold exposed. apply _. Defined.

(** The services of an instance, group after group. *)
Definition servicesOf (instance : DeployedAppInstance.t) : list ServiceInstance.t :=
  flat_map ServiceGroupInstance.ServiceInstances (DeployedAppInstance.Groups instance).

Definition clusterIdOf (organizationId : string) (service : ServiceInstance.t)
  : ClusterId.t :=
  {|
    ClusterId.OrganizationId := organizationId;
    ClusterId.ClusterId := ServiceInstance.DeployedOnClusterId service
  |}.

(** The lookup of the cluster of a service, with its answer. *)
Definition clusterLookup (organizationId : string)
    (asked : ServiceInstance.t * result Cluster.t) : EndpointsEvent :=
  EvGetCluster (clusterIdOf organizationId asked.1) asked.2.

(** The entry of a service on the cluster that hosts it. *)
Definition clusterEndpointsOf (service : ServiceInstance.t) (cluster : Cluster.t)
  : ApplicationClusterEndpoints.t :=
  {|
    ApplicationClusterEndpoints.DeviceControllerUrl :=
      "device-controller." +:+ Cluster.Hostname cluster;
    ApplicationClusterEndpoints.Endpoints :=
      map (fun endpoint =>
             EndpointInstance.mk (EndpointInstance.EndpointInstanceId endpoint)
               (EndpointInstance.Type_ endpoint)
               (EndpointInstance.Fqdn endpoint +:+ ":" +:+
                pretty (EndpointInstance.Port endpoint))
               (EndpointInstance.Port endpoint))
          (ServiceInstance.Endpoints service)
  |}.

(** A scripted cluster store: the instance it holds and the clusters it
    knows, by identifier. *)
Module ScriptedEndpoints.

Record Script := mk {
  instance : result DeployedAppInstance.t;
  clusters : list Cluster.t
}.

Definition lookupCluster (sc : Script) (id : ClusterId.t) : result Cluster.t :=
  match find (fun cluster => bool_decide (Cluster.ClusterId cluster = ClusterId.ClusterId id))
             (clusters sc) with
  | Some cluster => inr cluster
  | None => inl (ForeignError "rpc error: code = NotFound")
  end.

Instance collaborators (sc : Script) : EndpointsCollaborators nat := {|
  GetDeployedInstance := fun _ n => (instance sc, S n);
  GetCluster := fun id n => (lookupCluster sc id, S n)
|}.

End ScriptedEndpoints.

(** An instance of one group: a running service with an endpoint on
    "cluster1", a running service without endpoint, a service in error with
    an endpoint, and a running service with an endpoint on "cluster2". *)
Definition sampleEndpoint (fqdn : string) (port : Z) : EndpointInstance.t :=
  EndpointInstance.mk "endpoint" 0 fqdn port.

Definition sampleDeployedInstance : DeployedAppInstance.t :=
  DeployedAppInstance.mk "org1" "inst1"
    [ServiceGroupInstance.mk "group1"
       [ServiceInstance.mk "svc1" ServiceStatus_SERVICE_RUNNING
          [sampleEndpoint "web.nalej.io" 80] "cluster1";
        ServiceInstance.mk "svc2" ServiceStatus_SERVICE_RUNNING [] "cluster1";
        ServiceInstance.mk "svc3" ServiceStatus_SERVICE_ERROR
          [sampleEndpoint "db.nalej.io" 5432] "cluster1";
        ServiceInstance.mk "svc4" ServiceStatus_SERVICE_RUNNING
          [sampleEndpoint "api.nalej.io" 8080] "cluster2"]].

(** * Unified logging (server/unified-logging/manager.go) *)

Module ServiceInstanceReducedSummary.
Record t := mk { ServiceId : string; ServiceName : string }.
End ServiceInstanceReducedSummary.

Module ServiceGroupInstanceReducedSummary.
Record t := mk {
  ServiceGroupId : string;
  ServiceGroupName : string;
  ServiceInstances : list ServiceInstanceReducedSummary.t
}.
End ServiceGroupInstanceReducedSummary.

Module AppInstanceReducedSummary.
Record t := mk {
  AppDescriptorId : string;
  AppDescriptorName : string;
  Groups : list ServiceGroupInstanceReducedSummary.t
}.
End AppInstanceReducedSummary.

(** grpc_application_manager_go.SearchRequest *)
Module SearchRequest.
Record t := mk {
  OrganizationId : string;
  AppDescriptorId : string;
  AppInstanceId : string;
  ServiceGroupId : string;
  ServiceGroupInstanceId : string;
  ServiceId : string;
  ServiceInstanceId : string;
  MsgQueryFilter : string;
  From : Z;
  To : Z;
  IncludeMetadata : bool
}.
End SearchRequest.

(** grpc_unified_logging_go.SearchRequest *)
Module CoordinatorSearchRequest.
Record t := mk {
  OrganizationId : string;
  AppDescriptorId : string;
  AppInstanceId : string;
  ServiceGroupId : string;
  ServiceGroupInstanceId : string;
  ServiceId : string;
  ServiceInstanceId : string;
  MsgQueryFilter : string;
  From : Z;
  To : Z
}.
End CoordinatorSearchRequest.

Module LogEntry.
Record t := mk { Timestamp : Z; Msg : string }.
End LogEntry.

(** One response of the coordinator: the entries of one service instance. *)
Module CoordinatorLogEntries.
Record t := mk {
  AppDescriptorId : string;
  AppInstanceId : string;
  ServiceGroupId : string;
  ServiceGroupInstanceId : string;
  ServiceId : string;
  ServiceInstanceId : string;
  Entries : list LogEntry.t
}.
End CoordinatorLogEntries.

Module CoordinatorLogResponse.
Record t := mk {
  OrganizationId : string;
  From : Z;
  To : Z;
  Responses : list CoordinatorLogEntries.t
}.
End CoordinatorLogResponse.

(** grpc_application_manager_go.LogEntryResponse *)
Module LogEntryResponse.
Record t := mk {
  AppDescriptorId : string;
  AppDescriptorName : string;
  AppInstanceId : string;
  ServiceGroupId : string;
  ServiceGroupName : string;
  ServiceGroupInstanceId : string;
  ServiceId : string;
  ServiceName : string;
  ServiceInstanceId : string;
  Timestamp : Z;
  Msg : string
}.
End LogEntryResponse.

Module LogResponse.
Record t := mk {
  OrganizationId : string;
  From : Z;
  To : Z;
  Entries : list LogEntryResponse.t
}.
End LogResponse.

(** One service of a grpc_conductor_go.DeploymentServiceUpdateRequest. *)
Module ServiceUpdate.
Record t := mk {
  ApplicationInstanceId : string;
  ServiceGroupId : string;
  ServiceGroupInstanceId : string;
  ServiceId : string;
  ServiceInstanceId : string;
  Status : ServiceStatus
}.
End ServiceUpdate.

Module DeploymentServiceUpdateRequest.
Record t := mk {
  OrganizationId : string;
  List : list ServiceUpdate.t
}.
End DeploymentServiceUpdateRequest.

Module AddLogRequest.
Record t := mk {
  OrganizationId : string;
  AppInstanceId : string;
  AppDescriptorId : string;
  ServiceGroupId : string;
  ServiceGroupInstanceId : string;
  ServiceId : string;
  ServiceInstanceId : string;
  Created : Z
}.
End AddLogRequest.

Module UpdateLogRequest.
Record t := mk {
  OrganizationId : string;
  AppInstanceId : string;
  ServiceInstanceId : string;
  Terminated : Z
}.
End UpdateLogRequest.

(** The calls of the logging manager, and its warnings. *)
Inductive LoggingEvent :=
| EvSearch (req : CoordinatorSearchRequest.t) (r : result CoordinatorLogResponse.t)
| EvRetrieveInstanceSummary (organizationId appInstanceId : string)
    (r : dresult AppInstanceReducedSummary.t)
| EvNow (nanoseconds : Z)
| EvAddLog (req : AddLogRequest.t) (r : option error)
| EvUpdateLog (req : UpdateLogRequest.t) (r : option error)
| EvWarn (msg : string).

(** coordinatorClient.Search, instHelper.RetrieveInstanceSummary,
    appHistoryLogsClient.Add and Update (of which the error alone is read),
    and time.Now().UnixNano(). *)
Class LoggingCollaborators (St : Type) := {
  coordinator_Search :
    CoordinatorSearchRequest.t -> St -> result CoordinatorLogResponse.t * St;
  RetrieveInstanceSummary :
    string -> string -> St -> dresult AppInstanceReducedSummary.t * St;
  history_Add : AddLogRequest.t -> St -> option error * St;
  history_Update : UpdateLogRequest.t -> St -> option error * St;
  time_Now_UnixNano : St -> Z * St
}.

Module unified_logging.

Definition unknownField : string := "Unknown".

(* for _, service := range group.ServiceInstances {
     if service.ServiceId == serviceId { serviceName = service.ServiceName; return } } *)
Fixpoint findServiceName (services : list ServiceInstanceReducedSummary.t)
    (serviceId : string) : option string :=
  match services with
  | [] => None
  | service :: rest =>
    if bool_decide (ServiceInstanceReducedSummary.ServiceId service = serviceId)
    then Some (ServiceInstanceReducedSummary.ServiceName service)
    else findServiceName rest serviceId
  end.

(* for _, group := range inst.Groups, from the group name reached so far: a
   group of the identifier sets the group name, and returns if it holds the
   service *)
Fixpoint namesLoop (groups : list ServiceGroupInstanceReducedSummary.t)
    (serviceGroupId serviceId : string) (groupName : string) : string * string :=
  match groups with
  | [] => (groupName, unknownField)
  | group :: rest =>
    if bool_decide (ServiceGroupInstanceReducedSummary.ServiceGroupId group
                    = serviceGroupId)
    then
      let groupName := ServiceGroupInstanceReducedSummary.ServiceGroupName group in
      match findServiceName
              (ServiceGroupInstanceReducedSummary.ServiceInstances group) serviceId with
      | Some serviceName => (groupName, serviceName)
      | None => namesLoop rest serviceGroupId serviceId groupName
      end
    else namesLoop rest serviceGroupId serviceId groupName
  end.

(* getNamesFromSummary returns the name of the serviceGroupId and the
   serviceId; inst is a pointer *)
Definition getNamesFromSummary (serviceGroupId serviceId : string)
    (inst : option AppInstanceReducedSummary.t) : string * string :=
  match inst with
  | None => (unknownField, unknownField)
  | Some inst =>
    namesLoop (AppInstanceReducedSummary.Groups inst) serviceGroupId serviceId
      unknownField
  end.

(* the assignments to logEntry.AppDescriptorName, ServiceGroupName and
   ServiceName *)
Definition setNames (logEntry : LogEntryResponse.t)
    (appDescriptorName serviceGroupName serviceName : string) : LogEntryResponse.t :=
  {|
    LogEntryResponse.AppDescriptorId := LogEntryResponse.AppDescriptorId logEntry;
    LogEntryResponse.AppDescriptorName := appDescriptorName;
    LogEntryResponse.AppInstanceId := LogEntryResponse.AppInstanceId logEntry;
    LogEntryResponse.ServiceGroupId := LogEntryResponse.ServiceGroupId logEntry;
    LogEntryResponse.ServiceGroupName := serviceGroupName;
    LogEntryResponse.ServiceGroupInstanceId :=
      LogEntryResponse.ServiceGroupInstanceId logEntry;
    LogEntryResponse.ServiceId := LogEntryResponse.ServiceId logEntry;
    LogEntryResponse.ServiceName := serviceName;
    LogEntryResponse.ServiceInstanceId := LogEntryResponse.ServiceInstanceId logEntry;
    LogEntryResponse.Timestamp := LogEntryResponse.Timestamp logEntry;
    LogEntryResponse.Msg := LogEntryResponse.Msg logEntry
  |}.

Section Manager.
Context {St : Type} `{LoggingCollaborators St}.

Abbreviation T := (Traced.T (Ev := LoggingEvent) (St := St)).

(* expandInformation fill the logEntry with the descriptor and names *)
Definition expandInformation (organizationId : string)
    (logEntry : LogEntryResponse.t) (expand : bool) : T LogEntryResponse.t :=
  if negb expand then Traced.ret logEntry
  else if bool_decide (LogEntryResponse.AppInstanceId logEntry = "") then
    let* _ := Traced.note
                (EvWarn "unable to expand log information, app_instance_id is empty") in
    Traced.ret (setNames logEntry unknownField unknownField unknownField)
  else
    let* summary :=
      Traced.call
        (RetrieveInstanceSummary organizationId (LogEntryResponse.AppInstanceId logEntry))
        (EvRetrieveInstanceSummary organizationId
           (LogEntryResponse.AppInstanceId logEntry)) in
    match summary with
    | inl err =>
      let* _ := Traced.note (EvWarn "error getting reduced summary") in
      Traced.ret logEntry
    | inr summary =>
      let '(groupName, serviceName) :=
        getNamesFromSummary (LogEntryResponse.ServiceGroupId logEntry)
          (LogEntryResponse.ServiceId logEntry) (Some summary) in
      Traced.ret (setNames logEntry
                    (AppInstanceReducedSummary.AppDescriptorName summary)
                    groupName serviceName)
    end.

(* the entry built for one log entry of a response, before it is expanded *)
Definition entryOf (response : CoordinatorLogEntries.t) (entry : LogEntry.t)
  : LogEntryResponse.t :=
  {|
    LogEntryResponse.AppDescriptorId := CoordinatorLogEntries.AppDescriptorId response;
    LogEntryResponse.AppDescriptorName := "";
    LogEntryResponse.AppInstanceId := CoordinatorLogEntries.AppInstanceId response;
    LogEntryResponse.ServiceGroupId := CoordinatorLogEntries.ServiceGroupId response;
    LogEntryResponse.ServiceGroupName := "";
    LogEntryResponse.ServiceGroupInstanceId :=
      CoordinatorLogEntries.ServiceGroupInstanceId response;
    LogEntryResponse.ServiceId := CoordinatorLogEntries.ServiceId response;
    LogEntryResponse.ServiceName := "";
    LogEntryResponse.ServiceInstanceId :=
      CoordinatorLogEntries.ServiceInstanceId response;
    LogEntryResponse.Timestamp := LogEntry.Timestamp entry;
    LogEntryResponse.Msg := LogEntry.Msg entry
  |}.

(* for _, entry := range response.Entries {
     logResponse = append(logResponse, m.expandInformation(...)) } *)
Fixpoint expandEntries (organizationId : string) (includeMetadata : bool)
    (response : CoordinatorLogEntries.t) (entries : list LogEntry.t)
    (logResponse : list LogEntryResponse.t) : T (list LogEntryResponse.t) :=
  match entries with
  | [] => Traced.ret logResponse
  | entry :: rest =>
    let* expanded :=
      expandInformation organizationId (entryOf response entry) includeMetadata in
    expandEntries organizationId includeMetadata response rest
      (logResponse ++ [expanded])%list
  end.

(* for _, response := range searchResponse.Responses *)
Fixpoint expandResponses (organizationId : string) (includeMetadata : bool)
    (responses : list CoordinatorLogEntries.t)
    (logResponse : list LogEntryResponse.t) : T (list LogEntryResponse.t) :=
  match responses with
  | [] => Traced.ret logResponse
  | response :: rest =>
    let* logResponse :=
      expandEntries organizationId includeMetadata response
        (CoordinatorLogEntries.Entries response) logResponse in
    expandResponses organizationId includeMetadata rest logResponse
  end.

Definition Search (request : SearchRequest.t) : T (result LogResponse.t) :=
  let coordinatorRequest := {|
    CoordinatorSearchRequest.OrganizationId := SearchRequest.OrganizationId request;
    CoordinatorSearchRequest.AppDescriptorId := SearchRequest.AppDescriptorId request;
    CoordinatorSearchRequest.AppInstanceId := SearchRequest.AppInstanceId request;
    CoordinatorSearchRequest.ServiceGroupId := SearchRequest.ServiceGroupId request;
    CoordinatorSearchRequest.ServiceGroupInstanceId :=
      SearchRequest.ServiceGroupInstanceId request;
    CoordinatorSearchRequest.ServiceId := SearchRequest.ServiceId request;
    CoordinatorSearchRequest.ServiceInstanceId := SearchRequest.ServiceInstanceId request;
    CoordinatorSearchRequest.MsgQueryFilter := SearchRequest.MsgQueryFilter request;
    CoordinatorSearchRequest.From := SearchRequest.From request;
    CoordinatorSearchRequest.To := SearchRequest.To request
  |} in
  let* searchResponse :=
    Traced.call (coordinator_Search coordinatorRequest) (EvSearch coordinatorRequest) in
  match searchResponse with
  | inl err => Traced.ret (inl err)
  | inr searchResponse =>
    (* convert unified_logging.LogEntryResponse to
       grpc_application_manager_go.LogEntryResponse and expand info if proceeded *)
    let* logResponse :=
      expandResponses (SearchRequest.OrganizationId request)
        (SearchRequest.IncludeMetadata request)
        (CoordinatorLogResponse.Responses searchResponse) [] in
    Traced.ret (inr {|
      LogResponse.OrganizationId := CoordinatorLogResponse.OrganizationId searchResponse;
      LogResponse.From := CoordinatorLogResponse.From searchResponse;
      LogResponse.To := CoordinatorLogResponse.To searchResponse;
      LogResponse.Entries := logResponse
    |})
  end.

(* the first if of the loop of ManageCatalog: a service that is deploying is
   added to the service history logs *)
Definition addToHistory (organizationId : string) (service : ServiceUpdate.t)
  : T (option error) :=
  if bool_decide (ServiceUpdate.Status service = ServiceStatus_SERVICE_DEPLOYING) then
    let* appInstanceReducedSummary :=
      Traced.call
        (RetrieveInstanceSummary organizationId
           (ServiceUpdate.ApplicationInstanceId service))
        (EvRetrieveInstanceSummary organizationId
           (ServiceUpdate.ApplicationInstanceId service)) in
    match appInstanceReducedSummary with
    | inl sumErr => Traced.ret (Some (GRPCError sumErr))
    | inr appInstanceReducedSummary =>
      let* now := Traced.call time_Now_UnixNano EvNow in
      let addRequest := {|
        AddLogRequest.OrganizationId := organizationId;
        AddLogRequest.AppInstanceId := ServiceUpdate.ApplicationInstanceId service;
        AddLogRequest.AppDescriptorId :=
          AppInstanceReducedSummary.AppDescriptorId appInstanceReducedSummary;
        AddLogRequest.ServiceGroupId := ServiceUpdate.ServiceGroupId service;
        AddLogRequest.ServiceGroupInstanceId :=
          ServiceUpdate.ServiceGroupInstanceId service;
        AddLogRequest.ServiceId := ServiceUpdate.ServiceId service;
        AddLogRequest.ServiceInstanceId := ServiceUpdate.ServiceInstanceId service;
        AddLogRequest.Created := now
      |} in
      Traced.call (history_Add addRequest) (EvAddLog addRequest)
    end
  else Traced.ret None.

(* the second if: a service in error or terminating is updated in the
   service history logs *)
Definition updateInHistory (organizationId : string) (service : ServiceUpdate.t)
  : T (option error) :=
  if bool_decide (ServiceUpdate.Status service = ServiceStatus_SERVICE_ERROR)
     || bool_decide (ServiceUpdate.Status service = ServiceStatus_SERVICE_TERMINATING)
  then
    let* now := Traced.call time_Now_UnixNano EvNow in
    let updateRequest := {|
      UpdateLogRequest.OrganizationId := organizationId;
      UpdateLogRequest.AppInstanceId := ServiceUpdate.ApplicationInstanceId service;
      UpdateLogRequest.ServiceInstanceId := ServiceUpdate.ServiceInstanceId service;
      UpdateLogRequest.Terminated := now
    |} in
    Traced.call (history_Update updateRequest) (EvUpdateLog updateRequest)
  else Traced.ret None.

(* for _, service := range request.List: the first error returns *)
Fixpoint manageServices (organizationId : string) (services : list ServiceUpdate.t)
  : T (option error) :=
  match services with
  | [] => Traced.ret None
  | service :: rest =>
    let* addErr := addToHistory organizationId service in
    match addErr with
    | Some err => Traced.ret (Some err)
    | None =>
      let* updateErr := updateInHistory organizationId service in
      match updateErr with
      | Some err => Traced.ret (Some err)
      | None => manageServices organizationId rest
      end
    end
  end.

(* ManageCatalog receives DeploymentServiceUpdateRequest messages from the bus
   and manages the catalog entries to be sent to system-model *)
Definition ManageCatalog (request : DeploymentServiceUpdateRequest.t)
  : T (option error) :=
  manageServices (DeploymentServiceUpdateRequest.OrganizationId request)
    (DeploymentServiceUpdateRequest.List request).

End Manager.
End unified_logging.

(** ** Vocabulary of the unified logging *)

(** The name under which a group holds the service, if it holds it. *)
Definition serviceNamed (serviceId : string)
    (group : ServiceGroupInstanceReducedSummary.t) : option string :=
  ServiceInstanceReducedSummary.ServiceName <$>
    head (filter (fun service =>
                    ServiceInstanceReducedSummary.ServiceId service = serviceId)
                 (ServiceGroupInstanceReducedSummary.ServiceInstances group)).

(** The groups of the summary that have the identifier. *)
Definition groupsNamed (serviceGroupId : string)
    (groups : list ServiceGroupInstanceReducedSummary.t)
  : list ServiceGroupInstanceReducedSummary.t :=
  filter (fun group =>
            ServiceGroupInstanceReducedSummary.ServiceGroupId group = serviceGroupId)
         groups.

(** The names of the groups of the identifier that hold the service: the
    name of the group with the name of the service. *)
Definition namedPairs (serviceGroupId serviceId : string)
    (groups : list ServiceGroupInstanceReducedSummary.t) : list (string * string) :=
  omap (fun group =>
          (fun serviceName =>
             (ServiceGroupInstanceReducedSummary.ServiceGroupName group, serviceName))
            <$> serviceNamed serviceId group)
       (groupsNamed serviceGroupId groups).

(** What expandInformation does to an entry, and the calls and warnings it
    costs. *)
Definition expansion (organizationId : string) (includeMetadata : bool)
    (logEntry expanded : LogEntryResponse.t) (evs : list LoggingEvent) : Prop :=
  if includeMetadata then
    if bool_decide (LogEntryResponse.AppInstanceId logEntry = "") then
      expanded =
        unified_logging.setNames logEntry "Unknown" "Unknown" "Unknown" /\
      evs = [EvWarn "unable to expand log information, app_instance_id is empty"]
    else
      exists retrieved,
        match retrieved with
        | inl err =>
          expanded = logEntry /\
          evs = [EvRetrieveInstanceSummary organizationId
                   (LogEntryResponse.AppInstanceId logEntry) (inl err);
                 EvWarn "error getting reduced summary"]
        | inr summary =>
          expanded =
            unified_logging.setNames logEntry
              (AppInstanceReducedSummary.AppDescriptorName summary)
              (unified_logging.getNamesFromSummary
                 (LogEntryResponse.ServiceGroupId logEntry)
                 (LogEntryResponse.ServiceId logEntry) (Some summary)).1
              (unified_logging.getNamesFromSummary
                 (LogEntryResponse.ServiceGroupId logEntry)
                 (LogEntryResponse.ServiceId logEntry) (Some summary)).2 /\
          evs = [EvRetrieveInstanceSummary organizationId
                   (LogEntryResponse.AppInstanceId logEntry) (inr summary)]
        end
  else expanded = logEntry /\ evs = [].

(** The entries of the coordinator, response after response, as Search
    builds them before their expansion. *)
Definition rawEntries (responses : list CoordinatorLogEntries.t)
  : list LogEntryResponse.t :=
  flat_map (fun response =>
              map (unified_logging.entryOf response)
                  (CoordinatorLogEntries.Entries response))
           responses.

(** The request handed to the coordinator: the search request without its
    IncludeMetadata flag. *)
Definition coordinatorRequestOf (request : SearchRequest.t)
  : CoordinatorSearchRequest.t :=
  {|
    CoordinatorSearchRequest.OrganizationId := SearchRequest.OrganizationId request;
    CoordinatorSearchRequest.AppDescriptorId := SearchRequest.AppDescriptorId request;
    CoordinatorSearchRequest.AppInstanceId := SearchRequest.AppInstanceId request;
    CoordinatorSearchRequest.ServiceGroupId := SearchRequest.ServiceGroupId request;
    CoordinatorSearchRequest.ServiceGroupInstanceId :=
      SearchRequest.ServiceGroupInstanceId request;
    CoordinatorSearchRequest.ServiceId := SearchRequest.ServiceId request;
    CoordinatorSearchRequest.ServiceInstanceId := SearchRequest.ServiceInstanceId request;
    CoordinatorSearchRequest.MsgQueryFilter := SearchRequest.MsgQueryFilter request;
    CoordinatorSearchRequest.From := SearchRequest.From request;
    CoordinatorSearchRequest.To := SearchRequest.To request
  |}.

(** What ManageCatalog does for one service, by its status: the error it
    ends with, if any, and its calls. *)
Definition recorded (organizationId : string) (service : ServiceUpdate.t)
    (err : option error) (evs : list LoggingEvent) : Prop :=
  match ServiceUpdate.Status service with
  | ServiceStatus_SERVICE_DEPLOYING =>
    (exists sumErr,
        evs = [EvRetrieveInstanceSummary organizationId
                 (ServiceUpdate.ApplicationInstanceId service) (inl sumErr)] /\
        err = Some (GRPCError sumErr)) \/
    (exists summary now,
        evs = [EvRetrieveInstanceSummary organizationId
                 (ServiceUpdate.ApplicationInstanceId service) (inr summary);
               EvNow now;
               EvAddLog
                 {| AddLogRequest.OrganizationId := organizationId;
                    AddLogRequest.AppInstanceId :=
                      ServiceUpdate.ApplicationInstanceId service;
                    AddLogRequest.AppDescriptorId :=
                      AppInstanceReducedSummary.AppDescriptorId summary;
                    AddLogRequest.ServiceGroupId := ServiceUpdate.ServiceGroupId service;
                    AddLogRequest.ServiceGroupInstanceId :=
                      ServiceUpdate.ServiceGroupInstanceId service;
                    AddLogRequest.ServiceId := ServiceUpdate.ServiceId service;
                    AddLogRequest.ServiceInstanceId :=
                      ServiceUpdate.ServiceInstanceId service;
                    AddLogRequest.Created := now |}
                 err])
  | ServiceStatus_SERVICE_ERROR | ServiceStatus_SERVICE_TERMINATING =>
    exists now,
      evs = [EvNow now;
             EvUpdateLog
               {| UpdateLogRequest.OrganizationId := organizationId;
                  UpdateLogRequest.AppInstanceId :=
                    ServiceUpdate.ApplicationInstanceId service;
                  UpdateLogRequest.ServiceInstanceId :=
                    ServiceUpdate.ServiceInstanceId service;
                  UpdateLogRequest.Terminated := now |}
               err]
  | _ => evs = [] /\ err = None
  end.

(** A scripted logging side: the answer of the coordinator, the summaries by
    instance, the failures of the history; the state is the clock. *)
Module ScriptedLogging.

Record Script := mk {
  found : result CoordinatorLogResponse.t;
  summaries : list (string * AppInstanceReducedSummary.t);
  addFails : option error;
  updateFails : option error
}.

Definition summaryOf (sc : Script) (appInstanceId : string)
  : dresult AppInstanceReducedSummary.t :=
  match find (fun entry => bool_decide (entry.1 = appInstanceId)) (summaries sc) with
  | Some entry => inr entry.2
  | None => inl (derrors.NewNotFoundError "instance summary not found")
  end.

Instance collaborators (sc : Script) : LoggingCollaborators Z := {|
  coordinator_Search := fun _ t => (found sc, t);
  RetrieveInstanceSummary := fun _ appInstanceId t => (summaryOf sc appInstanceId, t);
  history_Add := fun _ t => (addFails sc, t);
  history_Update := fun _ t => (updateFails sc, t);
  time_Now_UnixNano := fun t => (t, t + 1)
|}.

End ScriptedLogging.

(** The summary of "inst1": the group "g1" twice, of which the second holds
    the service "s2". *)
Definition sampleSummary : AppInstanceReducedSummary.t :=
  AppInstanceReducedSummary.mk "desc1" "simple-app"
    [ServiceGroupInstanceReducedSummary.mk "g1" "front"
       [ServiceInstanceReducedSummary.mk "s1" "nginx"];
     ServiceGroupInstanceReducedSummary.mk "g1" "front-replica"
       [ServiceInstanceReducedSummary.mk "s2" "cache"];
     ServiceGroupInstanceReducedSummary.mk "g2" "back"
       [ServiceInstanceReducedSummary.mk "s3" "mysql"]].

(** * The manager: target applications of a device group
      (server/application/manager.go) *)

Module ApplicationFilter.
Record t := mk {
  OrganizationId : string;
  DeviceGroupId : string;
  DeviceGroupName : string;
  MatchLabels : gmap string string
}.
End ApplicationFilter.

Module DeviceGroupId.
Record t := mk { OrganizationId : string; DeviceGroupId : string }.
End DeviceGroupId.

Module DeviceGroup.
Record t := mk {
  OrganizationId : string;
  DeviceGroupId : string;
  Name : string
}.
End DeviceGroup.

(** deviceClient.GetDeviceGroup and appClient.ListAppInstances; ApplyFilter
    and ToApplicationLabelsList, of the same package, are taken as they are,
    with the type of the list they produce. *)
Class TargetCollaborators (St : Type) := {
  TargetApplicationList : Type;
  GetDeviceGroup : DeviceGroupId.t -> St -> result DeviceGroup.t * St;
  ListOrganizationInstances : string -> St -> result (list AppInstance.t) * St;
  ApplyFilter : list AppInstance.t -> ApplicationFilter.t -> list AppInstance.t;
  ToApplicationLabelsList : list AppInstance.t -> dresult TargetApplicationList
}.

Inductive TargetsEvent :=
| EvGetDeviceGroup (id : DeviceGroupId.t) (r : result DeviceGroup.t)
| EvListOrganizationInstances (organizationId : string)
    (r : result (list AppInstance.t)).

Section TargetApplications.
Context {St : Type} `{TargetCollaborators St}.

Definition RetrieveTargetApplications (filter : ApplicationFilter.t)
  : Traced.T (Ev := TargetsEvent) (St := St) (result TargetApplicationList) :=
  (* check if the device_group_id and device_group_name are correct *)
  let groupId := {|
    DeviceGroupId.OrganizationId := ApplicationFilter.OrganizationId filter;
    DeviceGroupId.DeviceGroupId := ApplicationFilter.DeviceGroupId filter
  |} in
  let* group := Traced.call (GetDeviceGroup groupId) (EvGetDeviceGroup groupId) in
  match group with
  | inl err => Traced.ret (inl err)
  | inr group =>
    if negb (bool_decide (DeviceGroup.Name group
                          = ApplicationFilter.DeviceGroupName filter))
    then
      (* derrors.NewPermissionDeniedError, through conversions.ToGRPCError *)
      Traced.ret (inl (GRPCError (derrors.mkError derrors.PermissionDenied
                                    "cannot access device_group_name" [])))
    else
      let orgID := ApplicationFilter.OrganizationId filter in
      let* allApps :=
        Traced.call (ListOrganizationInstances orgID)
                    (EvListOrganizationInstances orgID) in
      match allApps with
      | inl err => Traced.ret (inl err)
      | inr allApps =>
        let filtered := ApplyFilter allApps filter in
        match ToApplicationLabelsList filtered with
        | inl fErr => Traced.ret (inl (GRPCError fErr))
        | inr result => Traced.ret (inr result)
        end
      end
  end.

End TargetApplications.

(** ** Vocabulary of the target applications *)

Definition isInstanceListing (ev : TargetsEvent) : Prop :=
  match ev with EvListOrganizationInstances _ _ => True | _ => False end.

(** A device store with one group, "dg1" named "sensors", and an organization
    of one instance; the filter keeps every instance and the list is the list
    of the names. *)
Instance scriptedTargets : TargetCollaborators nat := {|
  TargetApplicationList := list string;
  GetDeviceGroup := fun id n =>
    (if bool_decide (DeviceGroupId.DeviceGroupId id = "dg1")
     then inr (DeviceGroup.mk (DeviceGroupId.OrganizationId id) "dg1" "sensors")
     else inl (ForeignError "rpc error: code = NotFound"), S n);
  ListOrganizationInstances := fun _ n => (inr [sampleInstance "inst1" [] []], S n);
  ApplyFilter := fun instances _ => instances;
  ToApplicationLabelsList := fun instances => inr (map AppInstance.Name instances)
|}.

(** * Properties *)

(** ** Required parameters *)

Lemma findDeployParam_spec name deployParams :
  findDeployParam name deployParams = true <->
  exists dp, dp ∈ deployParams /\ InstanceParameter.ParameterName dp = name.
Proof.
  induction deployParams as [|dp rest IH]; simpl.
  - split; [discriminate|]. intros (dp & Hin & _). inversion Hin.
  - case_bool_decide as Hname.
    + split; [|done]. intros _. exists dp. split; [left|done].
    + rewrite IH. split.
      * intros (dp' & Hin & Hdp'). exists dp'. split; [by right|done].
      * intros (dp' & Hin & Hdp'). apply elem_of_cons in Hin as [->|Hin]; [done|].
        by exists dp'.
Qed.

(** The check passes exactly when every required parameter is filled. *)
Lemma checkAllRequiredParametersAreFilled_passes desc params :
  checkAllRequiredParametersAreFilled desc params = None <->
  forall p, p ∈ AppDescriptor.Parameters desc ->
            AppParameter.Required p = true -> filled params p.
Proof.
  unfold checkAllRequiredParametersAreFilled.
  induction (AppDescriptor.Parameters desc) as [|p rest IH]; simpl.
  - split; [|done]. intros _ p Hin. inversion Hin.
  - assert (Hfind : (match params with
                     | Some deployParams => findDeployParam (AppParameter.Name p) deployParams
                     | None => false
                     end) = true <-> filled params p).
    { unfold filled. destruct params as [l|]; simpl.
      - apply findDeployParam_spec.
      - split; [discriminate|]. intros (dp & Hin & _). inversion Hin. }
    destruct (AppParameter.Required p) eqn:Hreq.
    + destruct (match params with Some _ => _ | None => _ end) eqn:Hf; simpl.
      * rewrite IH. split.
        -- intros Hall q Hq Hr. apply elem_of_cons in Hq as [->|Hq]; [|by apply Hall].
           by apply Hfind.
        -- intros Hall q Hq Hr. apply Hall; [by right|done].
      * split; [discriminate|]. intros Hall.
        assert (filled params p) as Hp by (apply Hall; [left|done]).
        apply Hfind in Hp. discriminate.
    + rewrite IH. split.
      * intros Hall q Hq Hr. apply elem_of_cons in Hq as [->|Hq]; [congruence|].
        by apply Hall.
      * intros Hall q Hq Hr. apply Hall; [by right|done].
Qed.

(** Whatever parameter is missing, the error is the same constant error: it
    carries no parameter. *)
Lemma checkAllRequiredParametersAreFilled_error desc params err :
  checkAllRequiredParametersAreFilled desc params = Some err ->
  err = Derror (derrors.mkError derrors.FailedPrecondition RequiredParamNotFilled []).
Proof.
  unfold checkAllRequiredParametersAreFilled.
  induction (AppDescriptor.Parameters desc) as [|p rest IH]; simpl; [discriminate|].
  destruct (AppParameter.Required p); [|done].
  destruct (negb _); [|done].
  by intros [= <-].
Qed.

(** C4 (at the failing input): with the required parameter "replicas" missing
    from the deploy request, the check fails with a failed-precondition error
    whose message is the constant text and whose parameter list is empty: the
    missing parameter is not named. The required outbound check of
    checkConnections attaches the name with WithParams; this check does not. *)
Theorem checkAllRequiredParametersAreFilled_does_not_name_parameter :
  checkAllRequiredParametersAreFilled
    (descriptorWithParameters [replicasParameter]) None
  = Some (Derror (derrors.mkError derrors.FailedPrecondition
                    "Required parameter not filled" [])).
Proof. reflexivity. Qed.

(** ** Removal of a descriptor *)

Section RemoveAppDescriptorProperties.
Context {St : Type} `{Collaborators St}.

Lemma existsb_references id instances :
  existsb (fun inst =>
             bool_decide (AppInstance.AppDescriptorId inst =
                          AppDescriptorId.AppDescriptorId id)) instances = true
  <-> Exists (references id) instances.
Proof.
  rewrite existsb_exists, Exists_exists. split.
  - intros (inst & Hin & Hb). apply bool_decide_eq_true in Hb.
    exists inst. split; [by apply list_elem_of_In|done].
  - intros (inst & Hin & Hr). exists inst. split; [by apply list_elem_of_In|].
    by apply bool_decide_eq_true.
Qed.

(** C9: when the listing of the organization's instances shows an instance
    created from the descriptor, RemoveAppDescriptor fails with a
    failed-precondition error and makes no removal call; and whenever a
    removal call is made, the listing succeeded and showed no instance
    created from the descriptor. *)
Theorem RemoveAppDescriptor_guard (appDescriptorID : AppDescriptorId.t) (s : St) :
  let run := RemoveAppDescriptor appDescriptorID s in
  let listing :=
    fst (ListAppInstances (AppDescriptorId.OrganizationId appDescriptorID) s) in
  (forall instances,
      listing = inr instances ->
      Exists (references appDescriptorID) instances ->
      resultClass (value run) = Some derrors.FailedPrecondition /\
      Forall (fun ev => ~ isRemoveAppDescriptor ev) (events run)) /\
  (Exists isRemoveAppDescriptor (events run) ->
     exists instances,
       listing = inr instances /\
       Forall (fun inst => ~ references appDescriptorID inst) instances).
Proof.
  intros run listing. subst run listing.
  unfold RemoveAppDescriptor, bind, call, ret, value, events.
  destruct (ListAppInstances _ s) as [[err|instances] s1] eqn:Hlist; simpl.
  - split; [intros ? [=]|].
    intros Hex. apply Exists_cons in Hex as [[]|Hex]. by apply Exists_nil in Hex.
  - destruct (existsb _ instances) eqn:Hany; simpl.
    + split.
      * intros ? [= <-] _. split; [done|]. repeat constructor; simpl; tauto.
      * intros Hex. apply Exists_cons in Hex as [[]|Hex]. by apply Exists_nil in Hex.
    + assert (~ Exists (references appDescriptorID) instances) as Hnone.
      { rewrite <- existsb_references. by rewrite Hany. }
      split; [intros ? [= <-] Hex; by destruct Hnone|].
      intros _. exists instances. split; [done|].
      by apply Forall_Exists_neg.
Qed.

End RemoveAppDescriptorProperties.

(** C9 at a sample organization: "inst1" was created from "desc1", the removal
    of "desc1" is refused and nothing is forwarded. *)
Lemma RemoveAppDescriptor_guard_witness :
  let run := @RemoveAppDescriptor nat (Scripted.collaborators sampleScript)
               (AppDescriptorId.mk "org1" "desc1") 0%nat in
  resultClass (value run) = Some derrors.FailedPrecondition /\
  Forall (fun ev => ~ isRemoveAppDescriptor ev) (events run).
Proof.
  apply (proj1 (@RemoveAppDescriptor_guard nat (Scripted.collaborators sampleScript)
                  (AppDescriptorId.mk "org1" "desc1") 0%nat)
               [sampleInstance "inst1" [] []]).
  - reflexivity.
  - left. reflexivity.
Defined.

(** ** Equations of the monad *)

Section MonadLaws.
Context {St : Type}.

Lemma value_ret {A} (a : A) (s : St) : value (ret a s) = a.
Proof. reflexivity. Qed.
Lemma final_ret {A} (a : A) (s : St) : final (ret a s) = s.
Proof. reflexivity. Qed.
Lemma events_ret {A} (a : A) (s : St) : events (ret a s) = [].
Proof. reflexivity. Qed.

Lemma value_bind {A B} (m : M St A) (k : A -> M St B) s :
  value (bind m k s) = value (k (value (m s)) (final (m s))).
Proof.
  unfold bind, value, final. destruct (m s) as [[a s1] t1]. simpl.
  by destruct (k a s1) as [[b s2] t2].
Qed.
Lemma final_bind {A B} (m : M St A) (k : A -> M St B) s :
  final (bind m k s) = final (k (value (m s)) (final (m s))).
Proof.
  unfold bind, value, final. destruct (m s) as [[a s1] t1]. simpl.
  by destruct (k a s1) as [[b s2] t2].
Qed.
Lemma events_bind {A B} (m : M St A) (k : A -> M St B) s :
  events (bind m k s) =
  (events (m s) ++ events (k (value (m s)) (final (m s))))%list.
Proof.
  unfold bind, value, final, events. destruct (m s) as [[a s1] t1]. simpl.
  by destruct (k a s1) as [[b s2] t2].
Qed.

Lemma value_call {A} (f : St -> A * St) ev s : value (call f ev s) = fst (f s).
Proof. unfold call, value. by destruct (f s). Qed.
Lemma final_call {A} (f : St -> A * St) ev s : final (call f ev s) = snd (f s).
Proof. unfold call, final. by destruct (f s). Qed.
Lemma events_call {A} (f : St -> A * St) ev s :
  events (call f ev s) = [ev (fst (f s))].
Proof. unfold call, events. by destruct (f s). Qed.

Lemma value_logError msg (s : St) : value (logError msg s) = tt.
Proof. reflexivity. Qed.
Lemma final_logError msg (s : St) : final (logError msg s) = s.
Proof. reflexivity. Qed.
Lemma events_logError msg (s : St) : events (logError msg s) = [EvLogError msg].
Proof. reflexivity. Qed.

End MonadLaws.

Create Rewrite HintDb run.
#[global] Hint Rewrite @value_ret @final_ret @events_ret @value_bind @final_bind
  @events_bind @value_call @final_call @events_call @value_logError
  @final_logError @events_logError : run.

Ltac run := autorewrite with run.

(** ** What each step of the workflows calls *)

Section TraceShapes.
Context `{Libraries} {St : Type} `{Collaborators St}.

Lemma fanOut_events organizationID work s :
  Forall isLookup (events (fanOut organizationID work s)).
Proof.
  revert s. induction work as [|[instanceId inboundList] rest IH]; intros s; simpl.
  - constructor.
  - unfold checkInbounds. run. simpl. constructor; [exact I|].
    rewrite app_nil_r. apply IH.
Qed.

Lemma collectResponses_events organizationID instanceList s :
  Forall isLookup (events (collectResponses organizationID instanceList s)).
Proof.
  unfold collectResponses. run. rewrite app_nil_r. apply fanOut_events.
Qed.

Lemma checkConnections_events organizationID connections outboundInterfaces s :
  Forall isLookup
    (events (checkConnections organizationID connections outboundInterfaces s)).
Proof.
  unfold checkConnections.
  destruct (checkRequiredOutbounds _ _); [constructor|].
  run. rewrite app_nil_r. apply collectResponses_events.
Qed.

Lemma resolveConnections_events organizationId rules requests idx connections (s : St) :
  Forall isLog
    (events (resolveConnections organizationId rules requests idx connections s)).
Proof.
  revert idx connections s.
  induction requests as [|r rest IH]; intros idx connections s; simpl.
  - constructor.
  - destruct (sourceInstanceNameLoop _ _ _); [|constructor].
    case_bool_decide; [|apply IH].
    run. simpl. constructor; [exact I|apply IH].
Qed.

Lemma resolveConnections_final organizationId rules requests idx connections (s : St) :
  final (resolveConnections organizationId rules requests idx connections s) = s.
Proof.
  revert idx connections.
  induction requests as [|r rest IH]; intros idx connections; simpl; [done|].
  destruct (sourceInstanceNameLoop _ _ _); [|done].
  case_bool_decide; [|apply IH].
  run. apply IH.
Qed.

Lemma enqueueDeployment_events deployRequest instance appInstanceID connections s :
  Forall (fun ev => ~ isPersist ev)
    (events (enqueueDeployment deployRequest instance appInstanceID connections s)).
Proof.
  unfold enqueueDeployment. run. simpl. constructor; [simpl; tauto|].
  constructor; [simpl; tauto|].
  destruct (fst (SendDeploy _ _)); run; simpl; repeat constructor; simpl; tauto.
Qed.

End TraceShapes.

(** ** Deploy: the compensation of a failed persistence *)

Section DeployRollback.
Context `{Libraries} {St : Type} `{Collaborators St}.

Lemma not_persist_of_lookup evs : Forall isLookup evs -> Forall (fun ev => ~ isPersist ev) evs.
Proof.
  intros Hf. eapply Forall_impl; [exact Hf|].
  intros ev Hl Hp. destruct ev; simpl in *; tauto.
Qed.

Lemma not_persist_of_log evs : Forall isLog evs -> Forall (fun ev => ~ isPersist ev) evs.
Proof.
  intros Hf. eapply Forall_impl; [exact Hf|].
  intros ev Hl Hp. destruct ev; simpl in *; tauto.
Qed.

Lemma persist_not_in evs pd r :
  Forall (fun ev => ~ isPersist ev) evs -> EvAddParametrizedDescriptor pd r ∉ evs.
Proof.
  intros Hall Hin. rewrite Forall_forall in Hall. by apply (Hall _ Hin).
Qed.

Ltac split_mem :=
  repeat match goal with
  | Hin : _ ∈ (_ ++ _)%list |- _ => apply elem_of_app in Hin as [Hin|Hin]
  | Hin : _ ∈ _ :: _ |- _ => apply elem_of_cons in Hin as [Hin|Hin]
  | Hin : _ ∈ [] |- _ => by apply elem_of_nil in Hin
  | Heq : EvAddParametrizedDescriptor _ _ = _ |- _ => discriminate Heq
  end.

(** After the creation of the instance: a failed persistence is followed by
    the delete of the instance and its error is the one returned. *)
Lemma deployInstance_rollback deployRequest desc parametrizedDesc instance (s : St) pd e :
  EvAddParametrizedDescriptor pd (inl e)
    ∈ events (deployInstance deployRequest desc parametrizedDesc instance s) ->
  value (deployInstance deployRequest desc parametrizedDesc instance s)
    = Returns (inl e) /\
  ParametrizedDescriptor.AppInstanceId pd = AppInstance.AppInstanceId instance /\
  exists before rollback,
    Forall isLog before /\
    events (deployInstance deployRequest desc parametrizedDesc instance s) =
      (before ++
       [EvAddParametrizedDescriptor pd (inl e);
        EvLogError "error adding  parametrized descriptor %s. Delete instance"] ++
       compensation
         {| AppInstanceId.OrganizationId := DeployRequest.OrganizationId deployRequest;
            AppInstanceId.AppInstanceId := AppInstance.AppInstanceId instance |}
         rollback)%list.
Proof.
  unfold deployInstance. run.
  pose proof (resolveConnections_events (AppDescriptor.OrganizationId desc)
    (AppInstance.Rules instance) (DeployRequest.OutboundConnections deployRequest) 0
    (replicate (length (DeployRequest.OutboundConnections deployRequest)) None) s) as Hlog.
  rewrite resolveConnections_final.
  destruct (value (resolveConnections _ _ _ _ _ s)) as [connections|msg].
  2:{ run. rewrite app_nil_r. intros Hin.
      by apply persist_not_in in Hin; [|apply not_persist_of_log]. }
  run.
  set (pd0 := setAppInstanceId parametrizedDesc (AppInstance.AppInstanceId instance)).
  set (appInstanceID := AppInstanceId.mk (DeployRequest.OrganizationId deployRequest)
                          (AppInstance.AppInstanceId instance)).
  destruct (AddParametrizedDescriptor pd0 s) as [[err|newDesc] s1] eqn:Hadd; simpl.
  - run. unfold rollbackInstance. run. simpl.
    intros Hin. apply elem_of_app in Hin as [Hin|Hin].
    { by apply persist_not_in in Hin; [|apply not_persist_of_log]. }
    apply elem_of_cons in Hin as [Heq|Hin].
    + injection Heq as -> ->. split; [done|split; [done|]].
      exists (events (resolveConnections (AppDescriptor.OrganizationId desc)
                (AppInstance.Rules instance)
                (DeployRequest.OutboundConnections deployRequest) 0
                (replicate (length (DeployRequest.OutboundConnections deployRequest)) None)
                s)).
      exists (fst (RemoveAppInstance appInstanceID s1)). split; [exact Hlog|].
      unfold compensation. rewrite app_nil_r.
      destruct (RemoveAppInstance appInstanceID s1) as [[?|?] ?]; reflexivity.
    + exfalso.
      destruct (RemoveAppInstance appInstanceID s1) as [[?|?] ?]; simpl in Hin;
        revert Hin; run; intros Hin; split_mem.
  - intros Hin. exfalso. apply elem_of_app in Hin as [Hin|Hin].
    { by apply persist_not_in in Hin; [|apply not_persist_of_log]. }
    apply elem_of_cons in Hin as [[=]|Hin].
    case_bool_decide.
    + revert Hin. run. intros Hin. apply elem_of_cons in Hin as [[=]|Hin].
      destruct (UpdateAppInstance _ s1) as [[?|?] s2]; simpl in Hin.
      * revert Hin. unfold rollbackInstance. run. intros Hin.
        destruct (RemoveAppInstance appInstanceID s2) as [[?|?] ?]; simpl in Hin;
          revert Hin; run; intros Hin; split_mem.
      * by apply persist_not_in in Hin; [|apply enqueueDeployment_events].
    + by apply persist_not_in in Hin; [|apply enqueueDeployment_events].
Qed.

(** C1: whenever a run of Deploy contains a failed AddParametrizedDescriptor
    call, that call comes after the successful creation of the instance, the
    calls that follow it are the delete of that very instance (and the log of
    the delete when it fails), and Deploy returns the error of the failed
    persistence, whatever the delete answered. *)
Theorem Deploy_rollback (deployRequest : DeployRequest.t) (s : St)
    (pd : ParametrizedDescriptor.t) (e : error) :
  EvAddParametrizedDescriptor pd (inl e) ∈ events (Deploy deployRequest s) ->
  value (Deploy deployRequest s) = Returns (inl e) /\
  exists before addReq instance rollback,
    EvAddAppInstance addReq (inr instance) ∈ before /\
    ParametrizedDescriptor.AppInstanceId pd = AppInstance.AppInstanceId instance /\
    events (Deploy deployRequest s) =
      (before ++
       [EvAddParametrizedDescriptor pd (inl e);
        EvLogError "error adding  parametrized descriptor %s. Delete instance"] ++
       compensation
         {| AppInstanceId.OrganizationId := DeployRequest.OrganizationId deployRequest;
            AppInstanceId.AppInstanceId := AppInstance.AppInstanceId instance |}
         rollback)%list.
Proof.
  unfold Deploy. run.
  set (descID := AppDescriptorId.mk _ _).
  destruct (GetAppDescriptor descID s) as [[err|desc] s1]; simpl.
  { run. intros Hin. split_mem. }
  destruct (checkAllRequiredParametersAreFilled _ _).
  { run. intros Hin. split_mem. }
  run.
  pose proof (checkConnections_events (DeployRequest.OrganizationId deployRequest)
    (DeployRequest.OutboundConnections deployRequest)
    (AppDescriptor.OutboundNetInterfaces desc) s1) as Hcheck.
  apply not_persist_of_lookup in Hcheck.
  set (checkRun := checkConnections _ _ _ s1) in *.
  destruct (value checkRun) as [dErr|].
  { run. intros Hin. split_mem. by apply persist_not_in in Hin. }
  destruct (CreateParametrizedDescriptor _ _) as [err|parametrizedDesc].
  { run. intros Hin. split_mem. by apply persist_not_in in Hin. }
  run. set (addReq := AddAppInstanceRequest.mk _ _ _ _).
  destruct (AddAppInstance addReq (final checkRun)) as [[err|instance] s3] eqn:Hadd; simpl.
  { run. intros Hin. split_mem. by apply persist_not_in in Hin. }
  intros Hin. split_mem; try by apply persist_not_in in Hin.
  destruct (deployInstance_rollback _ _ _ _ _ _ _ Hin)
    as (Hval & Hid & before & rollback & Hlog & Hev).
  split; [done|].
  eexists (EvGetAppDescriptor descID (inr desc)
           :: events checkRun
           ++ EvAddAppInstance addReq (inr instance) :: before)%list,
          addReq, instance, rollback.
  split; [|split; [done|]].
  - apply elem_of_cons. right. apply elem_of_app. right. by left.
  - simpl. f_equal. rewrite <- app_assoc. f_equal. simpl. f_equal. exact Hev.
Qed.

End DeployRollback.

(** The run of Deploy when the store refuses the parametrized descriptor and
    then refuses the delete of the instance as well. *)
Example Deploy_failed_persistence_trace :
  @Deploy Scripted.libraries nat (Scripted.collaborators failingPersistScript)
    (sampleDeployRequest []) 0%nat
  = (Returns (inl (ForeignError "rpc error: code = Unavailable")), 4%nat,
     [EvGetAppDescriptor (AppDescriptorId.mk "org1" "desc1")
        (inr (descriptorWithParameters []));
      EvAddAppInstance (AddAppInstanceRequest.mk "org1" "desc1" "app" None)
        (inr (sampleInstance "inst2" [] []));
      EvAddParametrizedDescriptor
        (setAppInstanceId
           (newParametrizedDescriptorFromDescriptor (descriptorWithParameters []))
           "inst2")
        (inl (ForeignError "rpc error: code = Unavailable"));
      EvLogError "error adding  parametrized descriptor %s. Delete instance";
      EvRemoveAppInstance (AppInstanceId.mk "org1" "inst2")
        (inl (ForeignError "rpc error: code = Internal"));
      EvLogError "error in rollback deleting the instance %s"]).
Proof. vm_compute. reflexivity. Qed.

(** C1 on that run: the persistence error is the one returned, the delete of
    the created instance follows the failed call. *)
Lemma Deploy_rollback_witness :
  let run := @Deploy Scripted.libraries nat
               (Scripted.collaborators failingPersistScript)
               (sampleDeployRequest []) 0%nat in
  let pd := setAppInstanceId
              (newParametrizedDescriptorFromDescriptor (descriptorWithParameters []))
              "inst2" in
  let e := ForeignError "rpc error: code = Unavailable" in
  EvAddParametrizedDescriptor pd (inl e) ∈ events run /\
  value run = Returns (inl e) /\
  exists before addReq instance rollback,
    EvAddAppInstance addReq (inr instance) ∈ before /\
    ParametrizedDescriptor.AppInstanceId pd = AppInstance.AppInstanceId instance /\
    events run =
      (before ++
       [EvAddParametrizedDescriptor pd (inl e);
        EvLogError "error adding  parametrized descriptor %s. Delete instance"] ++
       compensation (AppInstanceId.mk "org1" (AppInstance.AppInstanceId instance))
         rollback)%list.
Proof.
  intros run pd e.
  assert (EvAddParametrizedDescriptor pd (inl e) ∈ events run) as Hin.
  { apply list_elem_of_In. vm_compute. right. right. left. reflexivity. }
  split; [exact Hin|].
  exact (@Deploy_rollback Scripted.libraries nat
           (Scripted.collaborators failingPersistScript)
           (sampleDeployRequest []) 0%nat pd e Hin).
Defined.

(** ** Undeploy *)

Section UndeployProperties.
Context {St : Type} `{Collaborators St}.

Lemma removalRequests_app evs1 evs2 :
  removalRequests (evs1 ++ evs2) = (removalRequests evs1 ++ removalRequests evs2)%list.
Proof.
  induction evs1 as [|ev rest IH]; [done|].
  destruct ev; simpl; by rewrite ?IH.
Qed.

(** One removal: the call, and a log when it fails. *)
Lemma removeConnection_events what conn (s : St) :
  removalRequests (events (removeConnection what conn s)) = [removalOf conn] /\
  Forall (fun ev => isRemoveConnection ev \/ isLog ev)
         (events (removeConnection what conn s)).
Proof.
  unfold removeConnection. run.
  destruct (RemoveConnection (removalOf conn) s) as [[err|ok] s']; simpl; run; simpl.
  - split; [done|]. constructor; [by left|]. constructor; [by right|done].
  - split; [done|]. constructor; [by left|done].
Qed.

(** One removal loop: a removal call per connection, in order, logs apart;
    no removal result stops it. *)
Lemma removalLoop_events what conns (s : St) :
  removalRequests (events (forEach conns (removeConnection what) s))
    = map removalOf conns /\
  Forall (fun ev => isRemoveConnection ev \/ isLog ev)
         (events (forEach conns (removeConnection what) s)).
Proof.
  revert s. induction conns as [|conn rest IH]; intros s; simpl.
  - by split.
  - run. destruct (IH (final (removeConnection what conn s))) as [IHreq IHshape].
    destruct (removeConnection_events what conn s) as [Hreq Hshape].
    rewrite removalRequests_app, Hreq, IHreq. split; [done|].
    by apply Forall_app.
Qed.

(** The fetch of the expanded instance removes nothing and sends nothing. *)
Lemma GetAppInstance_events appInstanceID (s : St) :
  Forall (fun ev => ~ isRemoveConnection ev /\ ~ isSend ev)
         (events (GetAppInstance appInstanceID s)).
Proof.
  unfold GetAppInstance. run.
  constructor; [simpl; tauto|].
  destruct (fst (GetAppInstance_ appInstanceID s)) as [err|appInstance]; run;
    [constructor|].
  rewrite app_nil_r. unfold getInstanceConnections. run.
  constructor; [simpl; tauto|].
  apply Forall_app. split.
  - destruct (fst (ListInboundConnections _ _)) as [err|[conns|]]; run;
      repeat constructor; simpl; tauto.
  - constructor; [simpl; tauto|].
    destruct (fst (ListOutboundConnections _ _)) as [err|[conns|]]; run;
      repeat constructor; simpl; tauto.
Qed.

(** C2: for the instance that Undeploy fetched, (1) with an inbound
    connection and no user confirmation, Undeploy fails with a
    failed-precondition error after the fetch alone: its run holds no
    removal call and no send;
    (2) with the confirmation, or without inbound connection, the calls after
    the fetch are one RemoveConnection per inbound connection, then one per
    outbound connection (failed removals only add a log), then the send of
    the undeploy command, whose outcome alone decides the result. *)
Theorem Undeploy_guard_and_removals (undeployRequest : UndeployRequest.t) (s : St)
    (instance : ExpandedAppInstance.t) :
  let run := Undeploy undeployRequest s in
  let fetch :=
    GetAppInstance
      {| AppInstanceId.OrganizationId := UndeployRequest.OrganizationId undeployRequest;
         AppInstanceId.AppInstanceId := UndeployRequest.AppInstanceId undeployRequest |}
      s in
  value fetch = inr instance ->
  (ExpandedAppInstance.InboundConnections instance <> [] ->
   UndeployRequest.UserConfirmation undeployRequest = false ->
   resultClass (value run) = Some derrors.FailedPrecondition /\
   events run = events fetch /\
   Forall (fun ev => ~ isRemoveConnection ev /\ ~ isSend ev) (events run)) /\
  (UndeployRequest.UserConfirmation undeployRequest = true \/
   ExpandedAppInstance.InboundConnections instance = [] ->
   exists removals sent,
     events run =
       (events fetch ++ removals ++
        EvSendUndeploy
          {| ConductorUndeployRequest.OrganizationId :=
               UndeployRequest.OrganizationId undeployRequest;
             ConductorUndeployRequest.AppInstanceId :=
               UndeployRequest.AppInstanceId undeployRequest |} sent
        :: sendLog sent)%list /\
     removalRequests removals =
       map removalOf (ExpandedAppInstance.InboundConnections instance ++
                      ExpandedAppInstance.OutboundConnections instance) /\
     Forall (fun ev => isRemoveConnection ev \/ isLog ev) removals /\
     value run = sendResult sent).
Proof.
  intros run fetch Hfetch. subst run. unfold Undeploy. run. fold fetch.
  rewrite Hfetch.
  set (guard := bool_decide _ && negb _).
  assert (guard = true <->
          ExpandedAppInstance.InboundConnections instance <> [] /\
          UndeployRequest.UserConfirmation undeployRequest = false) as Hguard.
  { subst guard. rewrite andb_true_iff, bool_decide_eq_true, negb_true_iff.
    destruct (ExpandedAppInstance.InboundConnections instance); simpl;
      split; intros [? ?]; split; try done; lia. }
  destruct guard eqn:Hg.
  - split.
    + intros _ _. run. rewrite app_nil_r. split; [done|]. split; [done|].
      apply GetAppInstance_events.
    + intros Hproceed. exfalso. destruct Hguard as [Hguard _].
      destruct (Hguard eq_refl) as [Hne Hconf]. destruct Hproceed; congruence.
  - split.
    + intros Hne Hconf. exfalso. destruct Hguard as [_ Hguard].
      specialize (Hguard (conj Hne Hconf)). discriminate.
    + intros _. run.
      set (s1 := final fetch).
      set (loop1 := forEach (ExpandedAppInstance.InboundConnections instance)
                      (removeConnection "inbound") s1).
      set (loop2 := forEach (ExpandedAppInstance.OutboundConnections instance)
                      (removeConnection "outbound") (final loop1)).
      set (req := ConductorUndeployRequest.mk _ _).
      destruct (removalLoop_events "inbound"
                  (ExpandedAppInstance.InboundConnections instance) s1) as [Hr1 Hs1].
      destruct (removalLoop_events "outbound"
                  (ExpandedAppInstance.OutboundConnections instance) (final loop1))
        as [Hr2 Hs2].
      exists (events loop1 ++ events loop2)%list, (fst (SendUndeploy req (final loop2))).
      split; [|split; [|split]].
      * rewrite <- !app_assoc. do 3 f_equal. simpl. f_equal.
        destruct (SendUndeploy req (final loop2)) as [[err|] s2]; simpl; by run.
      * rewrite removalRequests_app, map_app. by f_equal.
      * by apply Forall_app.
      * destruct (SendUndeploy req (final loop2)) as [[err|] s2]; simpl; by run.
Qed.

End UndeployProperties.

(** The run of Undeploy on the connected instance, with the confirmation, on
    a network manager that fails every removal. *)
Example Undeploy_confirmed_trace :
  events (@Undeploy nat (Scripted.collaborators connectedScript)
            (UndeployRequest.mk "org1" "inst1" true) 0%nat)
  = [EvGetAppInstance (AppInstanceId.mk "org1" "inst1")
       (inr (sampleInstance "inst1" [] []));
     EvListInboundConnections (AppInstanceId.mk "org1" "inst1")
       (inr (Some [sampleConnection "inst0" "inst1"]));
     EvListOutboundConnections (AppInstanceId.mk "org1" "inst1")
       (inr (Some [sampleConnection "inst1" "inst3"]));
     EvRemoveConnection (removalOf (sampleConnection "inst0" "inst1"))
       (inl (ForeignError "rpc error: code = Internal"));
     EvLogError "Error removing inbound connection";
     EvRemoveConnection (removalOf (sampleConnection "inst1" "inst3"))
       (inl (ForeignError "rpc error: code = Internal"));
     EvLogError "Error removing outbound connection";
     EvSendUndeploy (ConductorUndeployRequest.mk "org1" "inst1") None].
Proof. vm_compute. reflexivity. Qed.

(** C2 on the connected instance "inst1": without the confirmation the
    request is refused after the fetch; with it, both connections are removed
    and the command is sent. *)
Lemma Undeploy_guard_and_removals_witness :
  let instance :=
    setOutboundConnections
      (setInboundConnections (Scripted.expand (sampleInstance "inst1" [] []))
         [sampleConnection "inst0" "inst1"])
      [sampleConnection "inst1" "inst3"] in
  let refused := @Undeploy nat (Scripted.collaborators connectedScript)
                   (UndeployRequest.mk "org1" "inst1" false) 0%nat in
  let confirmed := @Undeploy nat (Scripted.collaborators connectedScript)
                     (UndeployRequest.mk "org1" "inst1" true) 0%nat in
  (resultClass (value refused) = Some derrors.FailedPrecondition /\
   Forall (fun ev => ~ isRemoveConnection ev /\ ~ isSend ev) (events refused)) /\
  exists removals sent,
    removalRequests removals =
      [removalOf (sampleConnection "inst0" "inst1");
       removalOf (sampleConnection "inst1" "inst3")] /\
    value confirmed = sendResult sent.
Proof.
  intros instance refused confirmed. split.
  - destruct (proj1 (@Undeploy_guard_and_removals nat
                       (Scripted.collaborators connectedScript)
                       (UndeployRequest.mk "org1" "inst1" false) 0%nat instance
                       eq_refl)) as (Hclass & _ & Hnone); [done|done|].
    split; [exact Hclass|exact Hnone].
  - destruct (proj2 (@Undeploy_guard_and_removals nat
                       (Scripted.collaborators connectedScript)
                       (UndeployRequest.mk "org1" "inst1" true) 0%nat instance
                       eq_refl)) as (removals & sent & _ & Hreq & _ & Hval);
      [by left|].
    exists removals, sent. split; [exact Hreq|exact Hval].
Defined.

(** ** Deploy: the resolution of the connection sources *)

Section ResolveConnections.
Context `{Libraries} {St : Type} `{Collaborators St}.

Lemma sourceInstanceNameLoop_spec rules outboundName acc :
  Forall is_Some rules ->
  sourceInstanceNameLoop rules outboundName acc =
  Returns (match last (filter (fun rule =>
                                 SecurityRule.OutboundNetInterface rule = outboundName)
                              (omap id rules)) with
           | Some rule => SecurityRule.TargetServiceName rule
           | None => acc
           end).
Proof.
  intros Hrules. revert acc.
  induction rules as [|[rule|] rest IH]; intros acc; simpl; [done| |].
  - apply Forall_cons in Hrules as [_ Hrest]. specialize (IH Hrest).
    rewrite filter_cons. case_bool_decide as Hm.
    + rewrite decide_True by done. rewrite IH, last_cons. by destruct (last _).
    + rewrite decide_False by done. apply IH.
  - apply Forall_cons in Hrules as [[x [=]] _].
Qed.

(** A nil rule in front of a request stops the run. *)
Lemma sourceInstanceNameLoop_nil rules outboundName acc :
  ~ Forall is_Some rules ->
  exists msg, sourceInstanceNameLoop rules outboundName acc = Panics msg.
Proof.
  revert acc. induction rules as [|[rule|] rest IH]; intros acc Hnil; simpl.
  - destruct Hnil. constructor.
  - assert (~ Forall is_Some rest) as Hrest.
    { intros Hr. apply Hnil. constructor; [by eexists|done]. }
    case_bool_decide; by apply IH.
  - by eexists.
Qed.

Lemma resolveConnections_loop organizationId rules requests filled (s : St) :
  Forall is_Some rules ->
  value (resolveConnections organizationId rules requests (length filled)
           (filled ++ replicate (length requests) None) s)
  = Returns (filled ++ map (resolvedSlot organizationId rules) requests)%list.
Proof.
  intros Hrules. revert filled.
  induction requests as [|r rest IH]; intros filled; simpl; [done|].
  rewrite sourceInstanceNameLoop_spec by done.
  unfold resolvedSlot at 1. unfold lastTarget at 1.
  set (name := match last _ with Some rule => _ | None => "" end).
  specialize (IH (filled ++ [if bool_decide (name = "") then None
                           else Some (ConnectionInstance.mk organizationId "" name
                                        (ConnectionRequest.TargetInstanceId r)
                                        (ConnectionRequest.TargetInboundName r)
                                        (ConnectionRequest.SourceOutboundName r))])%list).
  rewrite length_app, <- !app_assoc in IH. simpl in IH.
  replace (length filled + 1)%nat with (S (length filled)) in IH by lia.
  destruct (bool_decide (name = "")) eqn:Hname.
  - run. exact IH.
  - rewrite insert_app_r_alt by lia. rewrite Nat.sub_diag. exact IH.
Qed.

(** From the fresh slice: the resolved list keeps one slot per request, in
    order. *)
Lemma resolveConnections_spec organizationId rules requests (s : St) :
  Forall is_Some rules ->
  value (resolveConnections organizationId rules requests 0
           (replicate (length requests) None) s)
  = Returns (map (resolvedSlot organizationId rules) requests).
Proof. intros Hrules. by apply (resolveConnections_loop _ _ _ []). Qed.

Lemma resolveConnections_panics organizationId rules requests idx connections (s : St) :
  ~ Forall is_Some rules -> requests <> [] ->
  exists msg,
    value (resolveConnections organizationId rules requests idx connections s)
    = Panics msg.
Proof.
  intros Hnil Hne. destruct requests as [|r rest]; [done|]. simpl.
  destruct (sourceInstanceNameLoop_nil rules
              (ConnectionRequest.SourceOutboundName r) "" Hnil) as [msg ->].
  by exists msg.
Qed.

Ltac mem_cases :=
  repeat match goal with
  | Hin : _ ∈ (_ ++ _)%list |- _ => apply elem_of_app in Hin as [Hin|Hin]
  | Hin : _ ∈ _ :: _ |- _ => apply elem_of_cons in Hin as [Hin|Hin]
  | Hin : _ ∈ [] |- _ => by apply elem_of_nil in Hin
  | Heq : @eq Event _ _ |- _ => discriminate Heq
  end.

Lemma send_not_in evs request sent :
  Forall (fun ev => isLookup ev \/ isLog ev) evs -> EvSendDeploy request sent ∉ evs.
Proof.
  intros Hall Hin. rewrite Forall_forall in Hall. by destruct (Hall _ Hin).
Qed.

Lemma enqueueDeployment_send deployRequest instance appInstanceID connections (s : St)
    request sent :
  EvSendDeploy request sent
    ∈ events (enqueueDeployment deployRequest instance appInstanceID connections s) ->
  DeploymentRequest.OutboundConnections request = connections.
Proof.
  unfold enqueueDeployment. run. intros Hin.
  apply elem_of_app in Hin as [Hin|Hin]; [mem_cases|].
  apply elem_of_app in Hin as [Hin|Hin].
  - apply elem_of_cons in Hin as [Heq|Hin]; [|by apply elem_of_nil in Hin]. by injection Heq as -> _.
  - destruct (fst (SendDeploy _ _)); revert Hin; run; intros Hin; mem_cases.
Qed.

Lemma deployInstance_send deployRequest desc parametrizedDesc instance (s : St)
    request sent :
  EvSendDeploy request sent
    ∈ events (deployInstance deployRequest desc parametrizedDesc instance s) ->
  DeploymentRequest.OutboundConnections request =
    map (resolvedSlot (AppDescriptor.OrganizationId desc) (AppInstance.Rules instance))
        (DeployRequest.OutboundConnections deployRequest).
Proof.
  unfold deployInstance. run. rewrite resolveConnections_final.
  pose proof (resolveConnections_events (AppDescriptor.OrganizationId desc)
    (AppInstance.Rules instance) (DeployRequest.OutboundConnections deployRequest) 0
    (replicate (length (DeployRequest.OutboundConnections deployRequest)) None) s) as Hlog.
  assert (forall request sent, EvSendDeploy request sent ∉
            events (resolveConnections (AppDescriptor.OrganizationId desc)
              (AppInstance.Rules instance)
              (DeployRequest.OutboundConnections deployRequest) 0
              (replicate (length (DeployRequest.OutboundConnections deployRequest)) None)
              s)) as Hnosend.
  { intros r0 s0. apply send_not_in. eapply Forall_impl; [exact Hlog|]. by right. }
  assert (value (resolveConnections (AppDescriptor.OrganizationId desc)
              (AppInstance.Rules instance)
              (DeployRequest.OutboundConnections deployRequest) 0
              (replicate (length (DeployRequest.OutboundConnections deployRequest)) None)
              s)
          = Returns (map (resolvedSlot (AppDescriptor.OrganizationId desc)
                            (AppInstance.Rules instance))
                         (DeployRequest.OutboundConnections deployRequest))
          \/ exists msg,
              value (resolveConnections (AppDescriptor.OrganizationId desc)
                (AppInstance.Rules instance)
                (DeployRequest.OutboundConnections deployRequest) 0
                (replicate (length (DeployRequest.OutboundConnections deployRequest)) None)
                s) = Panics msg) as [Hres|[msg Hres]].
  { destruct (decide (Forall is_Some (AppInstance.Rules instance))) as [Hrules|Hnil].
    - left. by apply resolveConnections_spec.
    - destruct (DeployRequest.OutboundConnections deployRequest) as [|r rest] eqn:Hreqs.
      + by left.
      + right. by apply resolveConnections_panics. }
  2:{ rewrite Hres. run. rewrite app_nil_r. intros Hin. by apply Hnosend in Hin. }
  rewrite Hres. run.
  set (pd0 := setAppInstanceId parametrizedDesc (AppInstance.AppInstanceId instance)).
  set (appInstanceID := AppInstanceId.mk (DeployRequest.OrganizationId deployRequest)
                          (AppInstance.AppInstanceId instance)).
  intros Hin. apply elem_of_app in Hin as [Hin|Hin]; [by apply Hnosend in Hin|].
  apply elem_of_cons in Hin as [[=]|Hin].
  destruct (AddParametrizedDescriptor pd0 s) as [[err|newDesc] s1]; simpl in Hin.
  - exfalso. revert Hin. unfold rollbackInstance. run. intros Hin.
    destruct (RemoveAppInstance appInstanceID s1) as [[?|?] ?]; simpl in Hin;
      revert Hin; run; intros Hin; mem_cases.
  - case_bool_decide.
    + revert Hin. run. intros Hin. apply elem_of_cons in Hin as [[=]|Hin].
      destruct (UpdateAppInstance _ s1) as [[?|?] s2]; simpl in Hin.
      * exfalso. revert Hin. unfold rollbackInstance. run. intros Hin.
        destruct (RemoveAppInstance appInstanceID s2) as [[?|?] ?]; simpl in Hin;
          revert Hin; run; intros Hin; mem_cases.
      * by apply enqueueDeployment_send in Hin.
    + by apply enqueueDeployment_send in Hin.
Qed.

(** The command that Deploy sends carries the resolved list. *)
Lemma Deploy_send_carries_resolution (deployRequest : DeployRequest.t) (s : St)
    (request : DeploymentRequest.t) (sent : option error) :
  EvSendDeploy request sent ∈ events (Deploy deployRequest s) ->
  exists descID desc addReq instance,
    EvGetAppDescriptor descID (inr desc) ∈ events (Deploy deployRequest s) /\
    EvAddAppInstance addReq (inr instance) ∈ events (Deploy deployRequest s) /\
    DeploymentRequest.OutboundConnections request =
      map (resolvedSlot (AppDescriptor.OrganizationId desc)
             (AppInstance.Rules instance))
          (DeployRequest.OutboundConnections deployRequest).
Proof.
  unfold Deploy. run.
  set (descID := AppDescriptorId.mk _ _).
  destruct (GetAppDescriptor descID s) as [[err|desc] s1]; simpl.
  { run. intros Hin. mem_cases. }
  destruct (checkAllRequiredParametersAreFilled _ _).
  { run. intros Hin. mem_cases. }
  run.
  pose proof (checkConnections_events (DeployRequest.OrganizationId deployRequest)
    (DeployRequest.OutboundConnections deployRequest)
    (AppDescriptor.OutboundNetInterfaces desc) s1) as Hcheck.
  set (checkRun := checkConnections _ _ _ s1) in *.
  assert (forall request sent, EvSendDeploy request sent ∉ events checkRun) as Hnosend.
  { intros r0 s0. apply send_not_in. eapply Forall_impl; [exact Hcheck|]. by left. }
  destruct (value checkRun) as [dErr|].
  { run. intros Hin. mem_cases. by apply Hnosend in Hin. }
  destruct (CreateParametrizedDescriptor _ _) as [err|parametrizedDesc].
  { run. intros Hin. mem_cases. by apply Hnosend in Hin. }
  run. set (addReq := AddAppInstanceRequest.mk _ _ _ _).
  destruct (AddAppInstance addReq (final checkRun)) as [[err|instance] s3]; simpl.
  { run. intros Hin. mem_cases. by apply Hnosend in Hin. }
  intros Hin. mem_cases; try by apply Hnosend in Hin.
  apply deployInstance_send in Hin.
  exists descID, desc, addReq, instance. split; [by left|]. split; [|done].
  apply elem_of_cons. right. apply elem_of_app. right. by left.
Qed.

(** The steps that follow the creation of the instance create no instance. *)
Lemma deployInstance_creates_nothing deployRequest desc parametrizedDesc instance
    (s : St) addReq r :
  EvAddAppInstance addReq r
    ∉ events (deployInstance deployRequest desc parametrizedDesc instance s).
Proof.
  unfold deployInstance. run. rewrite resolveConnections_final.
  pose proof (resolveConnections_events (AppDescriptor.OrganizationId desc)
    (AppInstance.Rules instance) (DeployRequest.OutboundConnections deployRequest) 0
    (replicate (length (DeployRequest.OutboundConnections deployRequest)) None) s) as Hlog.
  assert (EvAddAppInstance addReq r ∉
            events (resolveConnections (AppDescriptor.OrganizationId desc)
              (AppInstance.Rules instance)
              (DeployRequest.OutboundConnections deployRequest) 0
              (replicate (length (DeployRequest.OutboundConnections deployRequest)) None)
              s)) as Hnoadd.
  { intros Hin. rewrite Forall_forall in Hlog. by apply Hlog in Hin. }
  destruct (value (resolveConnections _ _ _ _ _ s)) as [connections|msg].
  2:{ run. by rewrite app_nil_r. }
  run.
  set (pd0 := setAppInstanceId parametrizedDesc (AppInstance.AppInstanceId instance)).
  set (appInstanceID := AppInstanceId.mk (DeployRequest.OrganizationId deployRequest)
                          (AppInstance.AppInstanceId instance)).
  assert (forall inst (s' : St),
             EvAddAppInstance addReq r ∉
               events (enqueueDeployment deployRequest inst appInstanceID connections s'))
    as Hnoenq.
  { intros inst s' Hin. revert Hin. unfold enqueueDeployment. run. intros Hin.
    apply elem_of_app in Hin as [Hin|Hin]; [mem_cases|].
    apply elem_of_app in Hin as [Hin|Hin]; [mem_cases|].
    destruct (fst (SendDeploy _ _)); revert Hin; run; intros Hin; mem_cases. }
  intros Hin. apply elem_of_app in Hin as [Hin|Hin]; [done|].
  apply elem_of_cons in Hin as [[=]|Hin].
  destruct (AddParametrizedDescriptor pd0 s) as [[err|newDesc] s1]; simpl in Hin.
  - revert Hin. unfold rollbackInstance. run. intros Hin.
    destruct (RemoveAppInstance appInstanceID s1) as [[?|?] ?]; simpl in Hin;
      revert Hin; run; intros Hin; mem_cases.
  - case_bool_decide.
    + revert Hin. run. intros Hin. apply elem_of_cons in Hin as [[=]|Hin].
      destruct (UpdateAppInstance _ s1) as [[?|?] s2]; simpl in Hin.
      * revert Hin. unfold rollbackInstance. run. intros Hin.
        destruct (RemoveAppInstance appInstanceID s2) as [[?|?] ?]; simpl in Hin;
          revert Hin; run; intros Hin; mem_cases.
      * by apply Hnoenq in Hin.
    + by apply Hnoenq in Hin.
Qed.

(** The resolution has no failure exit: with the rules of the created
    instance at hand, the persistence of the parametrized descriptor is the
    next call, whatever connection was dropped. *)
Lemma deployInstance_persists deployRequest desc parametrizedDesc instance (s : St) :
  Forall is_Some (AppInstance.Rules instance) ->
  exists pd r,
    EvAddParametrizedDescriptor pd r
      ∈ events (deployInstance deployRequest desc parametrizedDesc instance s).
Proof.
  intros Hrules. unfold deployInstance. run.
  rewrite resolveConnections_spec by done. run.
  eexists _, _. apply elem_of_app. right. by left.
Qed.


End ResolveConnections.

(** A deploy with two requested connections, of which only the first names
    an outbound interface carried by a rule of the created instance. *)
Example Deploy_resolution_trace :
  @Deploy Scripted.libraries nat
    (Scripted.collaborators (deployScript [Some (sampleRule "out1" "svc1")]))
    (sampleDeployRequest [ConnectionRequest.mk "out1" "inst1" "in";
                          ConnectionRequest.mk "out9" "inst1" "in"]) 0%nat
  = (Returns (inr (DeploymentResponse.mk "app-mngr-6" "inst2" ApplicationStatus_QUEUED)),
     7%nat,
     [EvGetAppDescriptor (AppDescriptorId.mk "org1" "desc1")
        (inr (descriptorWithParameters []));
      EvGetAppInstance (AppInstanceId.mk "org1" "inst1")
        (inr (sampleInstance "inst1" [] [NetworkInterface.mk "in" false]));
      EvAddAppInstance
        (AddAppInstanceRequest.mk "org1" "desc1" "app" None)
        (inr (sampleInstance "inst2" [Some (sampleRule "out1" "svc1")] []));
      EvLogError "the connection request refers to an outbound interface name not linked to a service. Skipping.";
      EvAddParametrizedDescriptor
        (setAppInstanceId
           (newParametrizedDescriptorFromDescriptor (descriptorWithParameters []))
           "inst2")
        (inr (setAppInstanceId
           (newParametrizedDescriptorFromDescriptor (descriptorWithParameters []))
           "inst2"));
      EvRandInt 4;
      EvSendDeploy
        (DeploymentRequest.mk "app-mngr-4" (AppInstanceId.mk "org1" "inst2") "app"
           [Some (ConnectionInstance.mk "org1" "" "svc1" "inst1" "in" "out1"); None])
        None;
      EvRandInt 6]).
Proof. vm_compute. reflexivity. Qed.



(** ** The inbound check of one target instance *)

Lemma targetFound_spec (inbounds : list NetworkInterface.t) (inboundName : string) :
  targetFound inbounds inboundName = true <->
  inboundName ∈ map NetworkInterface.Name inbounds.
Proof.
  unfold targetFound. rewrite existsb_exists, list_elem_of_In, in_map_iff. split.
  - intros (inbound & Hin & Hb). apply bool_decide_eq_true in Hb. by exists inbound.
  - intros (inbound & Hname & Hin). exists inbound.
    split; [done|by apply bool_decide_eq_true].
Qed.

Lemma inboundNamesLoop_spec instanceID inbounds inboundNames :
  inboundNamesLoop instanceID inbounds inboundNames =
  match firstMissing (map NetworkInterface.Name inbounds) inboundNames with
  | Some inboundName => (false, [CheckInboundResponse.mk instanceID inboundName false])
  | None => (true, [])
  end.
Proof.
  unfold firstMissing.
  induction inboundNames as [|name rest IH]; simpl; [done|].
  rewrite filter_cons.
  destruct (targetFound inbounds name) eqn:Hfound; simpl.
  - apply targetFound_spec in Hfound. by rewrite decide_False by tauto.
  - rewrite decide_True; [done|]. intros Hin. apply targetFound_spec in Hin. congruence.
Qed.

Lemma checkInboundsSends_spec instanceID inboundNames lookup :
  checkInboundsSends instanceID inboundNames lookup =
  [expectedResponse instanceID inboundNames lookup].
Proof.
  unfold checkInboundsSends, expectedResponse, declaredInbounds.
  destruct lookup as [err|targetInstance]; [done|].
  rewrite inboundNamesLoop_spec. by destruct (firstMissing _ _).
Qed.

Lemma expectedResponse_InstanceId instanceID inboundNames lookup :
  CheckInboundResponse.InstanceId (expectedResponse instanceID inboundNames lookup)
  = instanceID.
Proof.
  unfold expectedResponse. destruct lookup; [done|]. by destruct (firstMissing _ _).
Qed.

Lemma firstMissing_None declared names :
  firstMissing declared names = None <-> forall name, name ∈ names -> name ∈ declared.
Proof.
  unfold firstMissing. rewrite head_None. split.
  - intros Hnil name Hin. destruct (decide (name ∈ declared)) as [|Hout]; [done|].
    assert (name ∈ filter (fun name => name ∉ declared) names) as Hf
      by (by apply list_elem_of_filter).
    rewrite Hnil in Hf. by apply elem_of_nil in Hf.
  - induction names as [|name rest IH]; intros Hall; [done|].
    rewrite filter_cons, decide_False.
    + apply IH. intros n Hn. apply Hall. by right.
    + intros Hout. apply Hout, Hall. by left.
Qed.

Lemma firstMissing_Some declared names name :
  firstMissing declared names = Some name -> name ∈ names /\ name ∉ declared.
Proof.
  unfold firstMissing. intros Hhead. apply head_Some_elem_of in Hhead.
  apply list_elem_of_filter in Hhead. tauto.
Qed.

(** A check is satisfied exactly when the response owed for it is true. *)
Lemma satisfied_iff (c : Check) :
  satisfied c <-> CheckInboundResponse.Result (responseOf c) = true.
Proof.
  destruct c as [[instanceID names] [err|targetInstance]];
    unfold satisfied, responseOf, expectedResponse; simpl.
  - split; [by intros (? & [=] & _)|done].
  - destruct (firstMissing _ _) as [name|] eqn:Hfirst; simpl.
    + split; [|done]. intros (inst & [= <-] & Hall).
      apply firstMissing_Some in Hfirst as [Hin Hout]. destruct Hout. by apply Hall.
    + split; [done|]. intros _. exists targetInstance. split; [done|].
      by apply firstMissing_None.
Qed.


(** ** The grouping of the connections by target instance *)

Lemma inboundsFor_cons id conn rest :
  inboundsFor id (conn :: rest) =
  if decide (ConnectionRequest.TargetInstanceId conn = id)
  then ConnectionRequest.TargetInboundName conn :: inboundsFor id rest
  else inboundsFor id rest.
Proof. unfold inboundsFor. rewrite filter_cons. by case_decide. Qed.

Lemma foldl_addInbound_lookup (m : gmap string (list string)) conns id :
  foldl addInbound m conns !! id =
  match inboundsFor id conns with
  | [] => m !! id
  | names => Some (default [] (m !! id) ++ names)%list
  end.
Proof.
  revert m. induction conns as [|conn rest IH]; intros m; [done|].
  simpl. rewrite IH, inboundsFor_cons. unfold addInbound.
  case_decide as Htarget.
  - subst id. destruct (m !! ConnectionRequest.TargetInstanceId conn) as [inbounds|] eqn:Hm;
      rewrite lookup_insert_eq; simpl;
      destruct (inboundsFor _ rest); simpl; by rewrite <- ?app_assoc.
  - destruct (m !! ConnectionRequest.TargetInstanceId conn) as [inbounds|] eqn:Hm;
      by rewrite lookup_insert_ne.
Qed.

Lemma buildInstanceList_lookup conns id :
  buildInstanceList conns !! id =
  match inboundsFor id conns with
  | [] => None
  | names => Some names
  end.
Proof.
  unfold buildInstanceList. rewrite foldl_addInbound_lookup, lookup_empty.
  by destruct (inboundsFor id conns).
Qed.

Lemma inboundsFor_nil id conns :
  inboundsFor id conns = [] <-> id ∉ map ConnectionRequest.TargetInstanceId conns.
Proof.
  induction conns as [|conn rest IH]; simpl.
  - split; [|done]. intros _ Hin. by apply elem_of_nil in Hin.
  - rewrite inboundsFor_cons, not_elem_of_cons. case_decide as Htarget.
    + split; [done|]. intros [Hne _]. congruence.
    + rewrite IH. split; [|tauto]. intros Hout. split; [congruence|done].
Qed.

(** The map built by checkConnections holds, for each distinct target
    instance, the inbound names referenced for it. *)
Lemma map_to_list_buildInstanceList conns :
  map_to_list (buildInstanceList conns) ≡ₚ
  map (fun id => (id, inboundsFor id conns)) (targetInstances conns).
Proof.
  apply NoDup_Permutation.
  - apply NoDup_map_to_list.
  - change (NoDup ((fun id => (id, inboundsFor id conns)) <$> targetInstances conns)).
    apply NoDup_fmap_2; [by intros ? ? [= ->]|apply NoDup_remove_dups].
  - intros [id names]. rewrite elem_of_map_to_list, buildInstanceList_lookup.
    rewrite list_elem_of_In, in_map_iff. unfold targetInstances. split.
    + intros Hnames. exists id.
      assert (inboundsFor id conns <> []) as Hne by (by destruct (inboundsFor id conns)).
      rewrite inboundsFor_nil in Hne.
      split.
      * destruct (inboundsFor id conns); [done|]. by injection Hnames as <-.
      * apply list_elem_of_In, elem_of_remove_dups.
        destruct (decide (id ∈ map ConnectionRequest.TargetInstanceId conns))
          as [|Hout]; [done|exfalso; exact (Hne Hout)].
    + intros (id' & Heq & Hin). injection Heq as -> <-.
      rewrite <- list_elem_of_In, elem_of_remove_dups in Hin.
      destruct (inboundsFor id conns) eqn:Hfor; [|done].
      apply inboundsFor_nil in Hfor. exfalso. exact (Hfor Hin).
Qed.

(** ** The fan-out of checkConnections *)

Lemma checkRequiredOutbounds_spec connections outboundInterfaces :
  checkRequiredOutbounds connections outboundInterfaces =
  match firstMissingOutbound connections outboundInterfaces with
  | Some name =>
    Some (derrors.mkError derrors.FailedPrecondition RequiredOutboundNotFilled [name])
  | None => None
  end.
Proof.
  unfold firstMissingOutbound.
  induction outboundInterfaces as [|outbound rest IH]; simpl; [done|].
  rewrite filter_cons.
  destruct (NetworkInterface.Required outbound) eqn:Hreq.
  - rewrite decide_True by done. simpl. rewrite filter_cons.
    destruct (outboundFound connections (NetworkInterface.Name outbound)) eqn:Hfound; simpl.
    + rewrite decide_False; [done|].
      intros Hout. apply Hout. unfold outboundFound in Hfound.
      apply existsb_exists in Hfound as (conn & Hin & Hb).
      apply bool_decide_eq_true in Hb. apply list_elem_of_In, in_map_iff. by exists conn.
    + rewrite decide_True; [done|].
      intros Hin. apply list_elem_of_In, in_map_iff in Hin as (conn & Hname & Hin).
      assert (outboundFound connections (NetworkInterface.Name outbound) = true)
        as Hf; [|congruence].
      apply existsb_exists. exists conn. split; [done|by apply bool_decide_eq_true].
  - rewrite decide_False by congruence. exact IH.
Qed.

(** The error that inspectResults reports for a failed response. *)
Lemma inspectResults_spec respond :
  (Forall (fun r => CheckInboundResponse.Result r = true) respond ->
   inspectResults respond = None) /\
  (~ Forall (fun r => CheckInboundResponse.Result r = true) respond ->
   exists r, r ∈ respond /\ CheckInboundResponse.Result r = false /\
     inspectResults respond =
       Some (if bool_decide (CheckInboundResponse.InboundName r = "")
             then instanceNotFound (CheckInboundResponse.InstanceId r)
             else noInboundFound (CheckInboundResponse.InstanceId r)
                    (CheckInboundResponse.InboundName r))).
Proof.
  induction respond as [|r rest [IHok IHko]]; simpl.
  - split; [done|]. intros Hno. destruct Hno. constructor.
  - destruct (CheckInboundResponse.Result r) eqn:Hres; simpl.
    + split.
      * intros Hall. apply Forall_cons in Hall as [_ Hall]. by apply IHok.
      * intros Hno. destruct IHko as (r' & Hin & Hr' & Hins).
        { intros Hall. apply Hno. by constructor. }
        exists r'. split; [by right|done].
    + split.
      * intros Hall. apply Forall_cons in Hall as [Hr _]. congruence.
      * intros _. exists r. split; [by left|]. split; [done|].
        by case_bool_decide.
Qed.

Lemma failureOf_responseOf (c : Check) :
  ~ satisfied c ->
  (if bool_decide (CheckInboundResponse.InboundName (responseOf c) = "")
   then instanceNotFound (CheckInboundResponse.InstanceId (responseOf c))
   else noInboundFound (CheckInboundResponse.InstanceId (responseOf c))
          (CheckInboundResponse.InboundName (responseOf c)))
  = failureOf c.
Proof.
  intros Hno. rewrite satisfied_iff in Hno.
  destruct c as [[instanceID names] [err|targetInstance]];
    unfold responseOf, failureOf, expectedResponse in *; simpl in *; [done|].
  by destruct (firstMissing _ _).
Qed.

Section FanOut.
Context {St : Type} `{Collaborators St}.

Lemma fanOut_checks organizationID work (s : St) :
  exists checks : list Check,
    map fst checks = work /\
    events (fanOut organizationID work s) = map (lookupEvent organizationID) checks /\
    value (fanOut organizationID work s) = map responseOf checks.
Proof.
  revert s. induction work as [|[instanceId inboundList] rest IH]; intros s; simpl.
  - by exists [].
  - unfold checkInbounds. run.
    set (id := AppInstanceId.mk organizationID instanceId).
    destruct (IH (snd (GetAppInstance_ id s))) as (checks & Hwork & Hev & Hval).
    exists ((instanceId, inboundList, fst (GetAppInstance_ id s)) :: checks).
    simpl. split; [by rewrite Hwork|]. split.
    + rewrite app_nil_r. unfold lookupEvent at 1. simpl. by rewrite Hev.
    + by rewrite Hval, checkInboundsSends_spec.
Qed.

(** What the channel holds once the goroutines are done: one response per
    distinct target instance, each the response owed for what its lookup
    answered. *)
Lemma collectResponses_checks organizationID connections (s : St) :
  exists checks : list Check,
    map fst checks ≡ₚ
      map (fun id => (id, inboundsFor id connections)) (targetInstances connections) /\
    events (collectResponses organizationID (buildInstanceList connections) s)
      = map (lookupEvent organizationID) checks /\
    value (collectResponses organizationID (buildInstanceList connections) s)
      ≡ₚ map responseOf checks.
Proof.
  unfold collectResponses. run.
  destruct (fanOut_checks organizationID
              (lookupOrder (map_to_list (buildInstanceList connections))) s)
    as (checks & Hwork & Hev & Hval).
  exists checks. split; [|split].
  - by rewrite Hwork, lookupOrder_perm, map_to_list_buildInstanceList.
  - by rewrite app_nil_r.
  - by rewrite arrivalOrder_perm, Hval.
Qed.

(** C10: one run of checkInbounds sends exactly one response: the response
    owed for what the lookup of the target instance answered (true when every
    requested name is declared, false with the first missing name, false with
    an empty name when the lookup failed); and the channel that
    checkConnections reads holds exactly one response per distinct target
    instance of the connections. *)
Theorem checkInbounds_sends_exactly_one (organizationID instanceID : string)
    (inboundNames : list string) (connections : list ConnectionRequest.t) (s : St) :
  value (checkInbounds organizationID instanceID inboundNames s) =
    [expectedResponse instanceID inboundNames
       (fst (GetAppInstance_ (AppInstanceId.mk organizationID instanceID) s))] /\
  map CheckInboundResponse.InstanceId
      (value (collectResponses organizationID (buildInstanceList connections) s))
    ≡ₚ targetInstances connections.
Proof.
  split.
  - unfold checkInbounds. run. apply checkInboundsSends_spec.
  - destruct (collectResponses_checks organizationID connections s)
      as (checks & Hwork & _ & Hval).
    rewrite Hval.
    apply (Permutation_map fst) in Hwork. rewrite !map_map in Hwork. simpl in Hwork.
    rewrite map_id in Hwork. rewrite <- Hwork, map_map.
    erewrite map_ext; [reflexivity|].
    intros [[id names] lookup]. apply expectedResponse_InstanceId.
Qed.


End FanOut.


(** Three target instances, of which "inst3" lacks the inbound "in2": the
    check fails and names that pair. *)
Example checkConnections_names_the_missing_pair :
  value (@checkConnections nat (Scripted.collaborators threeTargetsScript) "org1"
           [ConnectionRequest.mk "out1" "inst1" "in1";
            ConnectionRequest.mk "out2" "inst2" "in2";
            ConnectionRequest.mk "out3" "inst3" "in1";
            ConnectionRequest.mk "out4" "inst3" "in2"]
           [NetworkInterface.mk "out1" true] 0%nat)
  = Some (noInboundFound "inst3" "in2").
Proof. by vm_compute. Qed.

(** ** Parametrization: failures *)

Section ParametrizationFailures.
Context `{Libraries}.

Lemma findParameterByName_None params name :
  findParameterByName params name = None <->
  forall definition, definition ∈ params -> AppParameter.Name definition <> name.
Proof.
  induction params as [|definition rest IH]; simpl.
  - split; [|done]. intros _ d Hin. by apply elem_of_nil in Hin.
  - case_bool_decide as Hname.
    + split; [done|]. intros Hall. destruct (Hall definition); [by left|done].
    + rewrite IH. split.
      * intros Hall d Hin. apply elem_of_cons in Hin as [->|Hin]; [done|by apply Hall].
      * intros Hall d Hin. apply Hall. by right.
Qed.

Lemma findParameterInDescriptor_undeclared descriptor param :
  undeclared descriptor param ->
  findParameterInDescriptor descriptor param =
  inl (if bool_decide (AppDescriptor.Parameters descriptor = [])
       then derrors.mkError derrors.InvalidArgument
              "Instance parameter not found. Descriptor has no parameters" []
       else derrors.mkError derrors.NotFound
              "Instance parameter not found in descriptor definition"
              [InstanceParameter.ParameterName param]).
Proof.
  intros Hun. unfold findParameterInDescriptor.
  destruct (AppDescriptor.Parameters descriptor) as [|definition rest] eqn:Hparams.
  - by rewrite bool_decide_true.
  - rewrite bool_decide_false by done. rewrite (bool_decide_false (_ = [])) by done.
    rewrite <- Hparams.
    by rewrite (proj2 (findParameterByName_None _ _) Hun).
Qed.

Lemma findEnumValue_spec enumValues value :
  findEnumValue enumValues value = true <-> value ∈ enumValues.
Proof.
  induction enumValues as [|paramVal rest IH]; simpl.
  - split; [done|]. intros Hin. by apply elem_of_nil in Hin.
  - case_bool_decide as Hval.
    + split; [|done]. intros _. subst. by left.
    + rewrite IH. split; [by right|].
      intros Hin. apply elem_of_cons in Hin as [->|Hin]; [done|done].
Qed.

Lemma validateInstanceParameter_enum definition param :
  AppParameter.Type_ definition = ParamDataType_ENUM ->
  InstanceParameter.Value param ∉ AppParameter.EnumValues definition ->
  validateInstanceParameter definition param =
  inl (derrors.mkError derrors.InvalidArgument "Invalid parameter value"
         ["parameter"; InstanceParameter.ParameterName param;
          "value"; InstanceParameter.Value param]).
Proof.
  intros Htype Hout. unfold validateInstanceParameter. rewrite Htype.
  destruct (findEnumValue _ _) eqn:Hfind; [|done].
  apply findEnumValue_spec in Hfind. by destruct Hout.
Qed.

Lemma applyParameters_app descriptor json before rest :
  applyParameters descriptor json (before ++ rest)%list =
  match applyParameters descriptor json before with
  | inl err => inl err
  | inr json' => applyParameters descriptor json' rest
  end.
Proof.
  revert json. induction before as [|param before IH]; intros json; simpl; [done|].
  destruct (findParameterInDescriptor descriptor param) as [err|definition]; [done|].
  destruct (validateInstanceParameter definition param) as [err|value]; [done|].
  by destruct (applyParameter json definition value).
Qed.

(** A parameter that cannot be found or validated makes the whole loop fail,
    wherever it stands in the list. *)
Lemma applyParameters_fails descriptor params param :
  param ∈ params ->
  (match findParameterInDescriptor descriptor param with
   | inl _ => True
   | inr definition => is_ok (validateInstanceParameter definition param) = false
   end) ->
  forall json, is_ok (applyParameters descriptor json params) = false.
Proof.
  intros Hin Hbad. induction params as [|p rest IH]; intros json.
  - by apply elem_of_nil in Hin.
  - simpl. apply elem_of_cons in Hin as [<-|Hin].
    + destruct (findParameterInDescriptor descriptor param) as [err|definition]; [done|].
      by destruct (validateInstanceParameter definition param).
    + destruct (findParameterInDescriptor descriptor p) as [err|definition]; [done|].
      destruct (validateInstanceParameter definition p) as [err|value]; [done|].
      destruct (applyParameter json definition value); [done|]. by apply IH.
Qed.

Lemma CreateParametrizedDescriptor_fails descriptor params param :
  param ∈ params ->
  (match findParameterInDescriptor descriptor param with
   | inl _ => True
   | inr definition => is_ok (validateInstanceParameter definition param) = false
   end) ->
  is_ok (CreateParametrizedDescriptor descriptor (Some params)) = false.
Proof.
  intros Hin Hbad. unfold CreateParametrizedDescriptor.
  destruct params as [|p rest]; [by apply elem_of_nil in Hin|].
  destruct (json_Marshal _) as [err|json]; [done|].
  pose proof (applyParameters_fails descriptor (p :: rest) param Hin Hbad json) as Hf.
  by destruct (applyParameters descriptor json (p :: rest)).
Qed.

(** When the document was serialized and the parameters before [param] were
    applied, the error of [param] is the error of the whole operation. *)
Lemma CreateParametrizedDescriptor_first_failure descriptor before param after
    json json' err :
  json_Marshal (newParametrizedDescriptorFromDescriptor descriptor) = inr json ->
  applyParameters descriptor json before = inr json' ->
  (match findParameterInDescriptor descriptor param with
   | inl e => e = err
   | inr definition => validateInstanceParameter definition param = inl err
   end) ->
  CreateParametrizedDescriptor descriptor (Some (before ++ param :: after)%list) = inl err.
Proof.
  intros Hjson Hbefore Hbad. unfold CreateParametrizedDescriptor.
  destruct (before ++ param :: after)%list eqn:Hparams.
  { by destruct before. }
  rewrite <- Hparams, Hjson, applyParameters_app, Hbefore. simpl.
  destruct (findParameterInDescriptor descriptor param) as [e|definition];
    [by subst|]. by rewrite Hbad.
Qed.

(** C6, in the form that holds of the code: an instance parameter whose name
    matches no declared parameter makes CreateParametrizedDescriptor fail,
    with no descriptor returned, wherever it stands in the list. When the
    document was serialized and the parameters before it were applied, the
    error is NotFound with the parameter's name if the descriptor declares
    some parameter, and InvalidArgument if the descriptor declares none. *)
Theorem CreateParametrizedDescriptor_unknown_parameter
    (descriptor : AppDescriptor.t) (before after : list InstanceParameter.t)
    (param : InstanceParameter.t) :
  undeclared descriptor param ->
  is_ok (CreateParametrizedDescriptor descriptor (Some (before ++ param :: after)%list))
    = false /\
  forall json json',
    json_Marshal (newParametrizedDescriptorFromDescriptor descriptor) = inr json ->
    applyParameters descriptor json before = inr json' ->
    CreateParametrizedDescriptor descriptor (Some (before ++ param :: after)%list) =
    inl (if bool_decide (AppDescriptor.Parameters descriptor = [])
         then derrors.mkError derrors.InvalidArgument
                "Instance parameter not found. Descriptor has no parameters" []
         else derrors.mkError derrors.NotFound
                "Instance parameter not found in descriptor definition"
                [InstanceParameter.ParameterName param]).
Proof.
  intros Hun. pose proof (findParameterInDescriptor_undeclared _ _ Hun) as Hfind.
  split.
  - apply (CreateParametrizedDescriptor_fails _ _ param).
    + apply elem_of_app. right. by left.
    + by rewrite Hfind.
  - intros json json' Hjson Hbefore.
    apply (CreateParametrizedDescriptor_first_failure _ _ _ _ json json');
      [done|done|]. by rewrite Hfind.
Qed.

(** C7: an instance parameter that resolves to an enum-typed definition and
    whose value is not one of the declared enum values makes
    CreateParametrizedDescriptor fail, with no descriptor returned, wherever
    it stands in the list; when the document was serialized and the
    parameters before it were applied, the error is the InvalidArgument error
    of that parameter. *)
Theorem CreateParametrizedDescriptor_invalid_enum_value
    (descriptor : AppDescriptor.t) (definition : AppParameter.t)
    (before after : list InstanceParameter.t) (param : InstanceParameter.t) :
  findParameterInDescriptor descriptor param = inr definition ->
  AppParameter.Type_ definition = ParamDataType_ENUM ->
  InstanceParameter.Value param ∉ AppParameter.EnumValues definition ->
  is_ok (CreateParametrizedDescriptor descriptor (Some (before ++ param :: after)%list))
    = false /\
  forall json json',
    json_Marshal (newParametrizedDescriptorFromDescriptor descriptor) = inr json ->
    applyParameters descriptor json before = inr json' ->
    CreateParametrizedDescriptor descriptor (Some (before ++ param :: after)%list) =
    inl (derrors.mkError derrors.InvalidArgument "Invalid parameter value"
           ["parameter"; InstanceParameter.ParameterName param;
            "value"; InstanceParameter.Value param]).
Proof.
  intros Hfind Htype Hout.
  pose proof (validateInstanceParameter_enum _ _ Htype Hout) as Hval.
  split.
  - apply (CreateParametrizedDescriptor_fails _ _ param).
    + apply elem_of_app. right. by left.
    + by rewrite Hfind, Hval.
  - intros json json' Hjson Hbefore.
    apply (CreateParametrizedDescriptor_first_failure _ _ _ _ json json');
      [done|done|]. by rewrite Hfind.
Qed.

End ParametrizationFailures.

(** C6 does not hold in the form the specification gives it: the descriptor
    declares no parameter, so the name "replicas" matches no declared
    parameter, and the error is InvalidArgument, not NotFound. *)
Lemma CreateParametrizedDescriptor_unknown_parameter_invalid_argument :
  let descriptor := descriptorWithParameters [] in
  let param := InstanceParameter.mk "replicas" "3" in
  undeclared descriptor param /\
  @CreateParametrizedDescriptor Scripted.libraries descriptor (Some [param]) =
  inl (derrors.mkError derrors.InvalidArgument
         "Instance parameter not found. Descriptor has no parameters" []).
Proof.
  intros descriptor param. split; [|reflexivity].
  intros definition Hin. by apply elem_of_nil in Hin.
Qed.

(** C6, in the form that holds of the code, on a descriptor that declares
    "mode": the parameter "replicas" is not found. *)
Lemma CreateParametrizedDescriptor_unknown_parameter_witness :
  @CreateParametrizedDescriptor Scripted.libraries
    (descriptorWithParameters [modeParameter])
    (Some [InstanceParameter.mk "mode" "fast"; InstanceParameter.mk "replicas" "3"])
  = inl (derrors.mkError derrors.NotFound
           "Instance parameter not found in descriptor definition" ["replicas"]).
Proof.
  refine (proj2 (@CreateParametrizedDescriptor_unknown_parameter Scripted.libraries
                   (descriptorWithParameters [modeParameter])
                   [InstanceParameter.mk "mode" "fast"] []
                   (InstanceParameter.mk "replicas" "3") _) "{}" "{}" eq_refl eq_refl).
  intros definition Hin. apply list_elem_of_In in Hin. simpl in Hin.
  destruct Hin as [<-|[]]. discriminate.
Defined.

(** C7 on the enum parameter "mode" with the value "turbo". *)
Lemma CreateParametrizedDescriptor_invalid_enum_value_witness :
  @CreateParametrizedDescriptor Scripted.libraries
    (descriptorWithParameters [modeParameter])
    (Some [InstanceParameter.mk "mode" "turbo"])
  = inl (derrors.mkError derrors.InvalidArgument "Invalid parameter value"
           ["parameter"; "mode"; "value"; "turbo"]).
Proof.
  refine (proj2 (@CreateParametrizedDescriptor_invalid_enum_value Scripted.libraries
                   (descriptorWithParameters [modeParameter]) modeParameter
                   [] [] (InstanceParameter.mk "mode" "turbo") eq_refl eq_refl _)
                "{}" "{}" eq_refl eq_refl).
  intros Hin. apply list_elem_of_In in Hin. simpl in Hin.
  destruct Hin as [[=]|[[=]|[]]].
Defined.

(** ** The heap: reading is stable under allocation *)

Lemma readStrings_stable h h' slice v :
  h `prefix_of` h' -> readStrings h slice = Some v -> readStrings h' slice = Some v.
Proof.
  intros Hp. destruct slice as [a|]; simpl; [|done].
  destruct (h !! a) as [o|] eqn:Ha; [|done].
  by rewrite (prefix_lookup_Some _ _ _ _ Ha Hp).
Qed.

Lemma readMap_stable h h' m v :
  h `prefix_of` h' -> readMap h m = Some v -> readMap h' m = Some v.
Proof.
  intros Hp. destruct m as [a|]; simpl; [|done].
  destruct (h !! a) as [o|] eqn:Ha; [|done].
  by rewrite (prefix_lookup_Some _ _ _ _ Ha Hp).
Qed.

Lemma stable_viewStruct {T} (decode : Mem.heap -> Mem.object -> option T)
    inside refs nested :
  (forall h h' o v,
      h `prefix_of` h' -> decode h o = Some v ->
      decode h' o = Some v /\ inside h' o = inside h o /\ nested h' o = nested h o) ->
  stable (viewStruct decode inside refs nested).
Proof.
  intros Hs h h' [l|] v Hp Hread; simpl in *; [|done].
  destruct (h !! l) as [o|] eqn:Hl; simpl in Hread; [|done].
  destruct (decode h o) as [t|] eqn:Hd; simpl in Hread; [|done].
  rewrite (prefix_lookup_Some _ _ _ _ Hl Hp). simpl.
  destruct (Hs _ _ _ _ Hp Hd) as (-> & -> & ->). by simpl.
Qed.

Lemma stable_elements {T} (elem : View (option T)) h h' elems vs :
  stable elem -> h `prefix_of` h' ->
  Forall2 (fun x v => read elem h x = Some v) elems vs ->
  Forall2 (fun x v => read elem h' x = Some v) elems vs /\
  map (owned elem h') elems = map (owned elem h) elems /\
  map (shared elem h') elems = map (shared elem h) elems.
Proof.
  intros Hs Hp Hall. induction Hall as [|x v elems vs Hx _ (IH1 & IH2 & IH3)]; [done|].
  destruct (Hs _ _ _ _ Hp Hx) as (Hr & Ho & Hsh).
  simpl. rewrite Ho, Hsh, IH2, IH3. split; [by constructor|done].
Qed.

Lemma stable_viewPointers {T} (elem : View (option T)) :
  stable elem -> stable (viewPointers elem).
Proof.
  intros Hs h h' [a|] vs Hp Hread; simpl in *; [|done].
  destruct (h !! a) as [o|] eqn:Ha; [|done].
  rewrite (prefix_lookup_Some _ _ _ _ Ha Hp).
  destruct o; try done.
  apply mapM_Some in Hread.
  destruct (stable_elements elem h h' elems vs Hs Hp Hread) as (Hr & -> & ->).
  split; [by apply mapM_Some|done].
Qed.

Lemma stable_scalar {T} (pick : Mem.object -> option T) :
  stable (viewStruct (fun _ o => pick o) nothing (fun _ => []) nothing).
Proof. apply stable_viewStruct. by intros. Qed.

Lemma stable_viewStorage : stable viewStorage.
Proof. apply stable_scalar. Qed.
Lemma stable_viewCredentials : stable viewCredentials.
Proof. apply stable_scalar. Qed.
Lemma stable_viewDeploySpecs : stable viewDeploySpecs.
Proof. apply stable_scalar. Qed.
Lemma stable_viewGroupSpecs : stable viewGroupSpecs.
Proof. apply stable_scalar. Qed.
Lemma stable_viewEndpoint : stable viewEndpoint.
Proof. apply stable_scalar. Qed.
Lemma stable_viewConfigFile : stable viewConfigFile.
Proof. apply stable_scalar. Qed.

Lemma stable_viewRule : stable viewRule.
Proof.
  apply stable_viewStruct. intros h h' o v Hp Hd. split; [|done].
  destruct o; try done. cbv beta in *.
  destruct (readStrings h (Mem.SecurityRule.AuthServices r)) eqn:H1; [|done].
  destruct (readStrings h (Mem.SecurityRule.DeviceGroupIds r)) eqn:H2; [|done].
  destruct (readStrings h (Mem.SecurityRule.DeviceGroupNames r)) eqn:H3; [|done].
  by rewrite (readStrings_stable _ _ _ _ Hp H1), (readStrings_stable _ _ _ _ Hp H2),
    (readStrings_stable _ _ _ _ Hp H3).
Qed.

Lemma stable_viewPort : stable viewPort.
Proof.
  apply stable_viewStruct. intros h h' o v Hp Hd.
  destruct o; try done. cbv beta in *.
  destruct (read (viewPointers viewEndpoint) h (Mem.Port.Endpoints p)) eqn:H1; [|done].
  destruct (stable_viewPointers viewEndpoint stable_viewEndpoint _ _ _ _ Hp H1)
    as (-> & -> & _).
  done.
Qed.

Lemma stable_viewService : stable viewService.
Proof.
  apply stable_viewStruct. intros h h' o v Hp Hd.
  destruct o; try done. cbv beta in *.
  destruct (read viewCredentials h (Mem.Service.Credentials s)) eqn:H1; [|done].
  destruct (read viewDeploySpecs h (Mem.Service.Specs s)) eqn:H2; [|done].
  destruct (read (viewPointers viewStorage) h (Mem.Service.Storage s)) eqn:H3; [|done].
  destruct (read (viewPointers viewPort) h (Mem.Service.ExposedPorts s)) eqn:H4; [|done].
  destruct (readMap h (Mem.Service.EnvironmentVariables s)) eqn:H5; [|done].
  destruct (read (viewPointers viewConfigFile) h (Mem.Service.Configs s)) eqn:H6; [|done].
  destruct (readMap h (Mem.Service.Labels s)) eqn:H7; [|done].
  destruct (readStrings h (Mem.Service.DeployAfter s)) eqn:H8; [|done].
  destruct (readStrings h (Mem.Service.RunArguments s)) eqn:H9; [|done].
  destruct (stable_viewCredentials _ _ _ _ Hp H1) as (-> & -> & _).
  destruct (stable_viewDeploySpecs _ _ _ _ Hp H2) as (-> & -> & _).
  destruct (stable_viewPointers viewStorage stable_viewStorage _ _ _ _ Hp H3)
    as (-> & -> & _).
  destruct (stable_viewPointers viewPort stable_viewPort _ _ _ _ Hp H4)
    as (-> & -> & _).
  destruct (stable_viewPointers viewConfigFile stable_viewConfigFile _ _ _ _ Hp H6)
    as (-> & -> & _).
  by rewrite (readMap_stable _ _ _ _ Hp H5), (readMap_stable _ _ _ _ Hp H7),
    (readStrings_stable _ _ _ _ Hp H8), (readStrings_stable _ _ _ _ Hp H9).
Qed.

Lemma stable_viewGroup : stable viewGroup.
Proof.
  apply stable_viewStruct. intros h h' o v Hp Hd.
  destruct o; try done. cbv beta in *.
  destruct (read (viewPointers viewService) h (Mem.ServiceGroup.Services g)) eqn:H1;
    [|done].
  destruct (read viewGroupSpecs h (Mem.ServiceGroup.Specs g)) eqn:H2; [|done].
  destruct (readMap h (Mem.ServiceGroup.Labels g)) eqn:H3; [|done].
  destruct (stable_viewPointers viewService stable_viewService _ _ _ _ Hp H1)
    as (-> & -> & ->).
  destruct (stable_viewGroupSpecs _ _ _ _ Hp H2) as (-> & -> & _).
  by rewrite (readMap_stable _ _ _ _ Hp H3).
Qed.

(** ** The heap: the copy functions copy *)

Lemma fresh_weaken (h h1 : list Mem.object) (ls : list nat) :
  h `prefix_of` h1 ->
  Forall (fun l => (length h1 <= l)%nat) ls -> Forall (fun l => (length h <= l)%nat) ls.
Proof.
  intros Hp Hall. apply prefix_length in Hp.
  eapply Forall_impl; [exact Hall|]. simpl. intros l Hl. lia.
Qed.

(** A copy, read on any later heap. *)
Lemma copies_later {V} (view : View V) copy vcopy :
  copies view copy vcopy -> stable view ->
  forall h0 h p v,
    h0 `prefix_of` h ->
    read view h0 p = Some v ->
    exists p' h',
      copy p h = Some (p', h') /\
      h `prefix_of` h' /\
      shared view h p = shared view h0 p /\
      forall h'', h' `prefix_of` h'' ->
        read view h'' p' = Some (vcopy v) /\
        Forall (fun l => (length h0 <= l)%nat) (owned view h'' p') /\
        shared view h'' p' = shared view h0 p.
Proof.
  intros Hc Hs h0 h p v Hp0 Hread.
  destruct (Hs _ _ _ _ Hp0 Hread) as (Hread' & _ & Hsh0).
  destruct (Hc _ _ _ Hread') as (p' & h' & Hrun & Hp & Hr & Ho & Hsh).
  exists p', h'. split; [done|]. split; [done|]. split; [done|].
  intros h'' Hp''. destruct (Hs _ _ _ _ Hp'' Hr) as (Hr'' & Ho'' & Hsh'').
  split; [done|]. split.
  - rewrite Ho''. by apply (fresh_weaken h0 h).
  - by rewrite Hsh'', Hsh.
Qed.

Lemma appendCopies_spec {T} (elem : View (option T)) copy vcopy :
  copies elem copy vcopy -> stable elem ->
  forall elems vs h0 h,
    h0 `prefix_of` h ->
    Forall2 (fun x v => read elem h0 x = Some v) elems vs ->
    exists out h',
      Mem.appendCopies copy elems h = Some (out, h') /\
      h `prefix_of` h' /\
      forall h'', h' `prefix_of` h'' ->
        Forall2 (fun x v => read elem h'' x = Some v) out (map vcopy vs) /\
        Forall (fun l => (length h0 <= l)%nat) (concat (map (owned elem h'') out)) /\
        concat (map (shared elem h'') out) = concat (map (shared elem h0) elems).
Proof.
  intros Hc Hs elems vs h0 h Hp0 Hall. revert h Hp0.
  induction Hall as [|x v elems vs Hx _ IH]; intros h Hp0; simpl.
  - exists [], h. split; [done|]. split; [done|]. intros h'' _. by repeat split.
  - destruct (copies_later elem copy vcopy Hc Hs h0 h x v Hp0 Hx)
      as (c & h1 & Hrun & Hp1 & _ & Hlater).
    destruct (IH h1) as (out & h2 & Hrest & Hp2 & Hlater2); [by etrans|].
    exists (c :: out), h2. unfold Mem.bind. rewrite Hrun, Hrest. simpl.
    split; [done|]. split; [by etrans|].
    intros h'' Hp''.
    destruct (Hlater h'') as (Hr & Ho & Hsh); [by etrans|].
    destruct (Hlater2 h'' Hp'') as (Hr2 & Ho2 & Hsh2).
    simpl. split; [by constructor|]. split; [by apply Forall_app|].
    by rewrite Hsh, Hsh2.
Qed.

Lemma copies_viewPointers {T} (elem : View (option T)) copy vcopy :
  copies elem copy vcopy -> stable elem ->
  copies (viewPointers elem) (Mem.copyPointers copy) (map vcopy).
Proof.
  intros Hc Hs h slice vs Hread.
  assert (exists elems,
             Mem.range slice h = Some (elems, h) /\
             Forall2 (fun x v => read elem h x = Some v) elems vs /\
             shared (viewPointers elem) h slice = concat (map (shared elem h) elems))
    as (elems & Hrange & Hall & Hshared).
  { destruct slice as [a|]; simpl in *.
    - unfold Mem.bind, Mem.load. destruct (h !! a) as [[]|] eqn:Ha; try done.
      exists elems. split; [done|]. split; [by apply mapM_Some|done].
    - injection Hread as <-. by exists []. }
  destruct (appendCopies_spec elem copy vcopy Hc Hs elems vs h h (reflexivity _) Hall)
    as (out & h1 & Hrun & Hp1 & Hlater).
  exists (Some (length h1)), (h1 ++ [Mem.OPointers out])%list.
  split.
  { unfold Mem.copyPointers, Mem.bind. by rewrite Hrange, Hrun. }
  split; [by apply prefix_app_r|].
  destruct (Hlater (h1 ++ [Mem.OPointers out])%list) as (Hr & Ho & Hsh);
    [by apply prefix_app_r|].
  rewrite Hshared. unfold viewPointers. cbn [read owned shared].
  rewrite list_lookup_middle by done.
  split; [by apply mapM_Some|]. split; [|done].
  constructor; [by apply prefix_length|done].
Qed.

Ltac copies_scalar Hl :=
  eexists (Some _), (_ ++ [_])%list;
  split; [unfold Mem.bind, Mem.load; rewrite Hl; reflexivity|];
  split; [by apply prefix_app_r|];
  cbn [read owned shared viewStruct];
  rewrite list_lookup_middle by done; rewrite Hl;
  split; [done|]; split; [|done];
  constructor; [done|constructor].

Lemma copies_viewStorage : copies viewStorage Mem.copyStorage copyStorage.
Proof.
  intros h [l|] v Hread; [|injection Hread as <-; by exists None, h].
  cbn [read viewStorage viewStruct] in Hread.
  destruct (h !! l) as [[]|] eqn:Hl; try done. injection Hread as <-.
  unfold Mem.copyStorage, Mem.loadStorage, viewStorage. copies_scalar Hl.
Qed.

Lemma copies_viewCredentials :
  copies viewCredentials Mem.copyImageCredential copyImageCredential.
Proof.
  intros h [l|] v Hread; [|injection Hread as <-; by exists None, h].
  cbn [read viewCredentials viewStruct] in Hread.
  destruct (h !! l) as [[]|] eqn:Hl; try done. injection Hread as <-.
  unfold Mem.copyImageCredential, Mem.loadCredentials, viewCredentials.
  copies_scalar Hl.
Qed.

Lemma copies_viewDeploySpecs : copies viewDeploySpecs Mem.copyDeploySpec copyDeploySpec.
Proof.
  intros h [l|] v Hread; [|injection Hread as <-; by exists None, h].
  cbn [read viewDeploySpecs viewStruct] in Hread.
  destruct (h !! l) as [[]|] eqn:Hl; try done. injection Hread as <-.
  unfold Mem.copyDeploySpec, Mem.loadDeploySpecs, viewDeploySpecs. copies_scalar Hl.
Qed.

Lemma copies_viewEndpoint : copies viewEndpoint Mem.copyEndPoint copyEndPoint.
Proof.
  intros h [l|] v Hread; [|injection Hread as <-; by exists None, h].
  cbn [read viewEndpoint viewStruct] in Hread.
  destruct (h !! l) as [[]|] eqn:Hl; try done. injection Hread as <-.
  unfold Mem.copyEndPoint, Mem.loadEndpoint, viewEndpoint. copies_scalar Hl.
Qed.

Lemma copies_viewConfigFile : copies viewConfigFile Mem.copyConfigFile copyConfigFile.
Proof.
  intros h [l|] v Hread; [|injection Hread as <-; by exists None, h].
  cbn [read viewConfigFile viewStruct] in Hread.
  destruct (h !! l) as [[]|] eqn:Hl; try done. injection Hread as <-.
  unfold Mem.copyConfigFile, Mem.loadConfigFile, viewConfigFile. copies_scalar Hl.
Qed.

Lemma copies_viewRule : copies viewRule Mem.copySecurityRule copySecurityRule.
Proof.
  intros h [l|] v Hread; [|injection Hread as <-; by exists None, h].
  cbn [read viewRule viewStruct] in Hread.
  destruct (h !! l) as [[]|] eqn:Hl; try done. cbn in Hread.
  destruct (readStrings h (Mem.SecurityRule.AuthServices r)) eqn:H1; [|done].
  destruct (readStrings h (Mem.SecurityRule.DeviceGroupIds r)) eqn:H2; [|done].
  destruct (readStrings h (Mem.SecurityRule.DeviceGroupNames r)) eqn:H3; [|done].
  cbn in Hread. injection Hread as <-.
  eexists (Some _), (_ ++ [_])%list.
  split.
  { unfold Mem.copySecurityRule, Mem.loadRule, Mem.bind, Mem.load. rewrite Hl.
    reflexivity. }
  split; [by apply prefix_app_r|].
  assert (h `prefix_of` (h ++ [Mem.ORule
            (Mem.SecurityRule.mk (Mem.SecurityRule.OrganizationId r)
               (Mem.SecurityRule.AppDescriptorId r) (Mem.SecurityRule.RuleId r)
               (Mem.SecurityRule.Name r) "" (Mem.SecurityRule.TargetServiceName r)
               (Mem.SecurityRule.TargetPort r) (Mem.SecurityRule.Access r)
               (Mem.SecurityRule.AuthServiceGroupName r)
               (Mem.SecurityRule.AuthServices r) (Mem.SecurityRule.DeviceGroupIds r)
               (Mem.SecurityRule.DeviceGroupNames r) "")])%list) as Hp
    by (by apply prefix_app_r).
  unfold viewRule. cbn [read owned shared viewStruct].
  rewrite list_lookup_middle by done. rewrite Hl. cbn.
  rewrite (readStrings_stable _ _ _ _ Hp H1), (readStrings_stable _ _ _ _ Hp H2),
    (readStrings_stable _ _ _ _ Hp H3). cbn.
  split; [done|]. split; [|done]. constructor; [done|constructor].
Qed.

Lemma copies_viewPort : copies viewPort Mem.copyExposedPort copyExposedPort.
Proof.
  intros h [l|] v Hread; [|injection Hread as <-; by exists None, h].
  cbn [read viewPort viewStruct] in Hread.
  destruct (h !! l) as [[]|] eqn:Hl; try done. cbn [mbind option_bind] in Hread.
  destruct (read (viewPointers viewEndpoint) h (Mem.Port.Endpoints p)) as [endpoints|]
    eqn:H1; [|done].
  cbn in Hread. injection Hread as <-.
  destruct (copies_later _ _ _ (copies_viewPointers _ _ _ copies_viewEndpoint
              stable_viewEndpoint) (stable_viewPointers _ stable_viewEndpoint)
              h h _ _ (reflexivity _) H1)
    as (endpoints' & h1 & Hrun & Hp1 & _ & Hlater).
  eexists (Some (length h1)), (h1 ++ [_])%list.
  split.
  { unfold Mem.copyExposedPort, Mem.loadPort, Mem.bind, Mem.load. rewrite Hl.
    cbn. rewrite Hrun. reflexivity. }
  split; [by apply prefix_app_r|].
  edestruct Hlater as (Hr & Ho & _); [by apply prefix_app_r|].
  unfold viewPort. cbn [read owned shared viewStruct].
  rewrite list_lookup_middle by done. rewrite Hl. cbn [mbind option_bind].
  rewrite Hr. cbn.
  split; [done|]. split; [|done].
  constructor; [by apply prefix_length|exact Ho].
Qed.

Lemma copies_viewService : copies viewService Mem.copyService copyService.
Proof.
  intros h [l|] v Hread; [|injection Hread as <-; by exists None, h].
  cbn [read viewService viewStruct] in Hread.
  destruct (h !! l) as [[]|] eqn:Hl; try done. cbn [mbind option_bind] in Hread.
  destruct (read viewCredentials h (Mem.Service.Credentials s)) as [credentials|]
    eqn:H1; [|done]. cbn [mbind option_bind] in Hread.
  destruct (read viewDeploySpecs h (Mem.Service.Specs s)) as [specs|] eqn:H2; [|done].
  cbn [mbind option_bind] in Hread.
  destruct (read (viewPointers viewStorage) h (Mem.Service.Storage s)) as [storage|]
    eqn:H3; [|done]. cbn [mbind option_bind] in Hread.
  destruct (read (viewPointers viewPort) h (Mem.Service.ExposedPorts s)) as [ports|]
    eqn:H4; [|done]. cbn [mbind option_bind] in Hread.
  destruct (readMap h (Mem.Service.EnvironmentVariables s)) as [env|] eqn:H5; [|done].
  cbn [mbind option_bind] in Hread.
  destruct (read (viewPointers viewConfigFile) h (Mem.Service.Configs s)) as [configs|]
    eqn:H6; [|done]. cbn [mbind option_bind] in Hread.
  destruct (readMap h (Mem.Service.Labels s)) as [labels|] eqn:H7; [|done].
  cbn [mbind option_bind] in Hread.
  destruct (readStrings h (Mem.Service.DeployAfter s)) as [deployAfter|] eqn:H8; [|done].
  cbn [mbind option_bind] in Hread.
  destruct (readStrings h (Mem.Service.RunArguments s)) as [runArguments|] eqn:H9;
    [|done].
  cbn in Hread. injection Hread as <-.
  destruct (copies_later _ _ _ (copies_viewPointers _ _ _ copies_viewStorage
              stable_viewStorage) (stable_viewPointers _ stable_viewStorage)
              h h _ _ (reflexivity _) H3)
    as (storage' & h1 & Hrun1 & Hp1 & _ & Hlater1).
  destruct (copies_later _ _ _ (copies_viewPointers _ _ _ copies_viewPort
              stable_viewPort) (stable_viewPointers _ stable_viewPort)
              h h1 _ _ Hp1 H4)
    as (ports' & h2 & Hrun2 & Hp2 & _ & Hlater2).
  assert (h `prefix_of` h2) as Hp02 by (by etrans).
  destruct (copies_later _ _ _ (copies_viewPointers _ _ _ copies_viewConfigFile
              stable_viewConfigFile) (stable_viewPointers _ stable_viewConfigFile)
              h h2 _ _ Hp02 H6)
    as (files' & h3 & Hrun3 & Hp3 & _ & Hlater3).
  assert (h `prefix_of` h3) as Hp03 by (by etrans).
  destruct (copies_later _ _ _ copies_viewCredentials stable_viewCredentials
              h h3 _ _ Hp03 H1)
    as (credentials' & h4 & Hrun4 & Hp4 & _ & Hlater4).
  assert (h `prefix_of` h4) as Hp04 by (by etrans).
  destruct (copies_later _ _ _ copies_viewDeploySpecs stable_viewDeploySpecs
              h h4 _ _ Hp04 H2)
    as (specs' & h5 & Hrun5 & Hp5 & _ & Hlater5).
  assert (h `prefix_of` h5) as Hp05 by (by etrans).
  eexists (Some (length h5)), (h5 ++ [_])%list.
  split.
  { unfold Mem.copyService, Mem.loadService, Mem.bind, Mem.load. rewrite Hl.
    cbn. rewrite Hrun1, Hrun2, Hrun3, Hrun4, Hrun5. reflexivity. }
  split; [by apply prefix_app_r|].
  set (o := Mem.OService _).
  assert (h5 `prefix_of` (h5 ++ [o])%list) as Hp5' by (by apply prefix_app_r).
  assert (h `prefix_of` (h5 ++ [o])%list) as Hp0' by (by etrans).
  destruct (Hlater1 (h5 ++ [o])%list) as (Hr1 & Ho1 & _); [by repeat (etrans; [eassumption|])|].
  destruct (Hlater2 (h5 ++ [o])%list) as (Hr2 & Ho2 & _); [by repeat (etrans; [eassumption|])|].
  destruct (Hlater3 (h5 ++ [o])%list) as (Hr3 & Ho3 & _); [by repeat (etrans; [eassumption|])|].
  destruct (Hlater4 (h5 ++ [o])%list) as (Hr4 & Ho4 & _); [by repeat (etrans; [eassumption|])|].
  destruct (Hlater5 (h5 ++ [o])%list) as (Hr5 & Ho5 & _); [done|].
  unfold viewService. cbn [read owned shared viewStruct].
  rewrite list_lookup_middle by done. subst o. rewrite Hl.
  cbn [mbind option_bind Mem.Service.Credentials Mem.Service.Specs Mem.Service.Storage
       Mem.Service.ExposedPorts Mem.Service.EnvironmentVariables Mem.Service.Configs
       Mem.Service.Labels Mem.Service.DeployAfter Mem.Service.RunArguments].
  rewrite Hr1, Hr2, Hr3, Hr4, Hr5.
  rewrite (readMap_stable _ _ _ _ Hp0' H5), (readMap_stable _ _ _ _ Hp0' H7),
    (readStrings_stable _ _ _ _ Hp0' H8), (readStrings_stable _ _ _ _ Hp0' H9).
  cbn.
  split; [done|]. split; [|done].
  constructor; [by apply prefix_length|].
  repeat (apply Forall_app; split); done.
Qed.

Lemma copies_viewGroup : copies viewGroup Mem.copyServiceGroup copyServiceGroup.
Proof.
  intros h [l|] v Hread; [|injection Hread as <-; by exists None, h].
  cbn [read viewGroup viewStruct] in Hread.
  destruct (h !! l) as [[]|] eqn:Hl; try done. cbn [mbind option_bind] in Hread.
  destruct (read (viewPointers viewService) h (Mem.ServiceGroup.Services g))
    as [services|] eqn:H1; [|done]. cbn [mbind option_bind] in Hread.
  destruct (read viewGroupSpecs h (Mem.ServiceGroup.Specs g)) as [specs|] eqn:H2;
    [|done]. cbn [mbind option_bind] in Hread.
  destruct (readMap h (Mem.ServiceGroup.Labels g)) as [labels|] eqn:H3; [|done].
  cbn in Hread. injection Hread as <-.
  destruct (copies_later _ _ _ (copies_viewPointers _ _ _ copies_viewService
              stable_viewService) (stable_viewPointers _ stable_viewService)
              h h _ _ (reflexivity _) H1)
    as (services' & h1 & Hrun1 & Hp1 & _ & Hlater1).
  eexists (Some (length h1)), (h1 ++ [_])%list.
  split.
  { unfold Mem.copyServiceGroup, Mem.loadGroup, Mem.bind, Mem.load. rewrite Hl.
    cbn. rewrite Hrun1. reflexivity. }
  split; [by apply prefix_app_r|].
  set (o := Mem.OGroup _).
  assert (h `prefix_of` (h1 ++ [o])%list) as Hp0' by (by apply prefix_app_r).
  destruct (Hlater1 (h1 ++ [o])%list) as (Hr1 & Ho1 & Hs1); [by apply prefix_app_r|].
  unfold viewGroup. cbn [read owned shared viewStruct].
  rewrite list_lookup_middle by done. subst o. rewrite Hl.
  cbn [mbind option_bind Mem.ServiceGroup.Services Mem.ServiceGroup.Specs
       Mem.ServiceGroup.Labels].
  rewrite Hr1, Hs1. rewrite (readMap_stable _ _ _ _ Hp0' H3). cbn.
  split; [done|]. split; [|done].
  constructor; [by apply prefix_length|].
  rewrite app_nil_r. exact Ho1.
Qed.

(** ** The copy of a descriptor *)

Lemma copyStorage_id storage : copyStorage storage = storage.
Proof. by destruct storage as [[]|]. Qed.
Lemma copyImageCredential_id credentials : copyImageCredential credentials = credentials.
Proof. by destruct credentials as [[]|]. Qed.
Lemma copyDeploySpec_id specs : copyDeploySpec specs = specs.
Proof. by destruct specs as [[]|]. Qed.
Lemma copyEndPoint_id endpoint : copyEndPoint endpoint = endpoint.
Proof. by destruct endpoint as [[]|]. Qed.
Lemma copyConfigFile_id configFile : copyConfigFile configFile = configFile.
Proof. by destruct configFile as [[]|]. Qed.

Lemma map_id_ext {A} (f : A -> A) (l : list A) : (forall x, f x = x) -> map f l = l.
Proof. intros Hf. induction l as [|x l IH]; simpl; by rewrite ?Hf, ?IH. Qed.

Lemma copyExposedPort_id port : copyExposedPort port = port.
Proof.
  destruct port as [[]|]; [|done]. simpl.
  by rewrite (map_id_ext _ _ copyEndPoint_id).
Qed.

(** The copy of a service is equal to the service in every field. *)
Lemma copyService_id service : copyService service = service.
Proof.
  destruct service as [[]|]; [|done]. simpl.
  by rewrite (map_id_ext _ _ copyStorage_id), (map_id_ext _ _ copyExposedPort_id),
    (map_id_ext _ _ copyConfigFile_id), copyImageCredential_id, copyDeploySpec_id.
Qed.

Lemma copySecurityRule_carried rule : carriedRule rule (copySecurityRule rule).
Proof. destruct rule as [rule|]; simpl; [|done]. by repeat split. Qed.

Lemma copyServiceGroup_carried group : carriedGroup group (copyServiceGroup group).
Proof.
  destruct group as [group|]; simpl; [|done].
  rewrite (map_id_ext _ _ copyService_id). by repeat split.
Qed.

Lemma newParametrizedDescriptorFromDescriptor_carried descriptor :
  Forall2 carriedRule (AppDescriptor.Rules descriptor)
    (ParametrizedDescriptor.Rules (newParametrizedDescriptorFromDescriptor descriptor)) /\
  Forall2 carriedGroup (AppDescriptor.Groups descriptor)
    (ParametrizedDescriptor.Groups (newParametrizedDescriptorFromDescriptor descriptor)).
Proof.
  simpl. split.
  - induction (AppDescriptor.Rules descriptor); simpl; constructor;
      [apply copySecurityRule_carried|done].
  - induction (AppDescriptor.Groups descriptor); simpl; constructor;
      [apply copyServiceGroup_carried|done].
Qed.

(** With no parameter the engine returns the copy. *)
Lemma CreateParametrizedDescriptor_no_parameters `{Libraries} descriptor parameters :
  parameters = None \/ parameters = Some [] ->
  CreateParametrizedDescriptor descriptor parameters =
  inr (newParametrizedDescriptorFromDescriptor descriptor).
Proof. by intros [-> | ->]. Qed.

Lemma readDescriptor_stable h h' d descriptor :
  h `prefix_of` h' ->
  readDescriptor h d = Some descriptor -> readDescriptor h' d = Some descriptor.
Proof.
  intros Hp. unfold readDescriptor.
  destruct (h !! d) as [o|] eqn:Hd; [|done].
  rewrite (prefix_lookup_Some _ _ _ _ Hd Hp). cbn [mbind option_bind].
  destruct o; try done.
  destruct (readMap h (Mem.AppDescriptor.ConfigurationOptions d0)) eqn:H1; [|done].
  destruct (readMap h (Mem.AppDescriptor.EnvironmentVariables d0)) eqn:H2; [|done].
  destruct (readMap h (Mem.AppDescriptor.Labels d0)) eqn:H3; [|done].
  rewrite (readMap_stable _ _ _ _ Hp H1), (readMap_stable _ _ _ _ Hp H2),
    (readMap_stable _ _ _ _ Hp H3). cbn [mbind option_bind].
  destruct (read (viewPointers viewRule) h (Mem.AppDescriptor.Rules d0)) eqn:H4; [|done].
  destruct (read (viewPointers viewGroup) h (Mem.AppDescriptor.Groups d0)) eqn:H5; [|done].
  destruct (stable_viewPointers _ stable_viewRule _ _ _ _ Hp H4) as (-> & _).
  destruct (stable_viewPointers _ stable_viewGroup _ _ _ _ Hp H5) as (-> & _).
  done.
Qed.




(** * Further properties *)

(** ** Deploy: the stages of a run *)

Section DeployStages.
Context `{Libraries} {St : Type} `{Collaborators St}.

Lemma preparation_of_lookup evs : Forall isLookup evs -> Forall isPreparation evs.
Proof.
  intros Hf. eapply Forall_impl; [exact Hf|]. intros ev. by destruct ev.
Qed.

(** The tail of Deploy: a draw, the send, and either the log of the failed
    send or the draw of the identifier of the response. *)
Lemma enqueueDeployment_stages deployRequest instance appInstanceID connections (s : St) :
  let run := enqueueDeployment deployRequest instance appInstanceID connections s in
  exists n sent,
    let request := {|
      DeploymentRequest.RequestId := "app-mngr-" +:+ pretty n;
      DeploymentRequest.AppInstanceId := appInstanceID;
      DeploymentRequest.Name := DeployRequest.Name deployRequest;
      DeploymentRequest.OutboundConnections := connections
    |} in
    match sent with
    | Some err =>
      value run = Returns (inl err) /\
      events run =
        [EvRandInt n; EvSendDeploy request (Some err);
         EvLogError "error when sending deployment request to the queue"]
    | None =>
      exists n',
        value run = Returns (inr {|
          DeploymentResponse.RequestId := "app-mngr-" +:+ pretty n';
          DeploymentResponse.AppInstanceId := AppInstance.AppInstanceId instance;
          DeploymentResponse.Status := ApplicationStatus_QUEUED
        |}) /\
        events run = [EvRandInt n; EvSendDeploy request None; EvRandInt n']
    end.
Proof.
  intros run. subst run. unfold enqueueDeployment.
  exists (fst (rand_Int s)).
  set (request := DeploymentRequest.mk _ _ _ _).
  exists (fst (SendDeploy request (snd (rand_Int s)))).
  run. fold request.
  destruct (SendDeploy request (snd (rand_Int s))) as [[err|] s2]; simpl.
  - run. done.
  - exists (fst (rand_Int s2)). run. done.
Qed.

(** What follows the creation of the instance: the logs of the dropped
    connections, then the persistence of the parametrized descriptor, the
    update of the instance when the descriptor has rules, and the hand-off;
    a failed persistence or update ends in the compensation. *)
Lemma deployInstance_stages deployRequest desc parametrizedDesc instance (s : St) :
  let run := deployInstance deployRequest desc parametrizedDesc instance s in
  let pd := setAppInstanceId parametrizedDesc (AppInstance.AppInstanceId instance) in
  let appInstanceID := {|
    AppInstanceId.OrganizationId := DeployRequest.OrganizationId deployRequest;
    AppInstanceId.AppInstanceId := AppInstance.AppInstanceId instance
  |} in
  exists logs, Forall isLog logs /\
    ((exists msg, value run = Panics msg /\ events run = logs) \/
     (exists err rollback,
        value run = Returns (inl err) /\
        events run =
          (logs ++
           [EvAddParametrizedDescriptor pd (inl err);
            EvLogError "error adding  parametrized descriptor %s. Delete instance"] ++
           compensation appInstanceID rollback)%list) \/
     (exists newDesc err rollback,
        ParametrizedDescriptor.Rules parametrizedDesc <> [] /\
        value run = Returns (inl err) /\
        events run =
          (logs ++
           [EvAddParametrizedDescriptor pd (inr newDesc);
            EvUpdateAppInstance (updateFromDescriptor instance newDesc) (inl err);
            EvLogError "error updating instance %s. Delete instance"] ++
           compensation appInstanceID rollback)%list) \/
     (exists newDesc connections s',
        let updated :=
          if bool_decide (ParametrizedDescriptor.Rules parametrizedDesc = [])
          then instance else updateFromDescriptor instance newDesc in
        let updates :=
          if bool_decide (ParametrizedDescriptor.Rules parametrizedDesc = [])
          then [] else [EvUpdateAppInstance updated (inr mkSuccess)] in
        let hand := enqueueDeployment deployRequest updated appInstanceID connections s' in
        value run = value hand /\
        events run =
          (logs ++ EvAddParametrizedDescriptor pd (inr newDesc) :: updates ++
           events hand)%list)).
Proof.
  intros run pd appInstanceID. subst run. unfold deployInstance.
  exists (events (resolveConnections (AppDescriptor.OrganizationId desc)
            (AppInstance.Rules instance)
            (DeployRequest.OutboundConnections deployRequest) 0
            (replicate (length (DeployRequest.OutboundConnections deployRequest)) None)
            s)).
  split; [apply resolveConnections_events|].
  run. rewrite resolveConnections_final.
  destruct (value (resolveConnections _ _ _ _ _ s)) as [connections|msg].
  2:{ left. exists msg. run. by rewrite app_nil_r. }
  right. run. fold pd. fold appInstanceID.
  destruct (AddParametrizedDescriptor pd s) as [[err|newDesc] s1] eqn:Hadd; simpl.
  - left. exists err, (fst (RemoveAppInstance appInstanceID s1)).
    unfold rollbackInstance, compensation. run.
    destruct (RemoveAppInstance appInstanceID s1) as [[?|?] ?]; simpl; by run.
  - right. unfold pd at 1. simpl. case_bool_decide as Hlen.
    + assert (ParametrizedDescriptor.Rules parametrizedDesc <> []) as Hrules.
      { intros Hnil. rewrite Hnil in Hlen. simpl in Hlen. lia. }
      run.
      destruct (UpdateAppInstance (updateFromDescriptor instance newDesc) s1)
        as [[err|[]] s2] eqn:Hupd; simpl.
      * left. exists newDesc, err, (fst (RemoveAppInstance appInstanceID s2)).
        split; [done|].
        unfold rollbackInstance, compensation. run.
        destruct (RemoveAppInstance appInstanceID s2) as [[?|?] ?]; simpl; by run.
      * right. exists newDesc, connections, s2. cbv zeta.
        by rewrite !bool_decide_eq_false_2 by done.
    + assert (ParametrizedDescriptor.Rules parametrizedDesc = []) as Hrules.
      { destruct (ParametrizedDescriptor.Rules parametrizedDesc); [done|].
        simpl in Hlen. lia. }
      right. exists newDesc, connections, s1. cbv zeta.
      by rewrite !bool_decide_eq_true_2 by done.
Qed.

(** Deploy stops before it asks for the creation of the instance or on the
    refusal of the creation, or it creates the instance and goes on. *)
Lemma Deploy_stages deployRequest (s : St) :
  let run := Deploy deployRequest s in
  (exists err before,
     Forall isPreparation before /\
     value run = Returns (inl err) /\
     (events run = before \/
      events run =
        (before ++ [EvAddAppInstance (creationOf deployRequest) (inl err);
                    EvLogError "error adding application instance"])%list)) \/
  (exists desc parametrizedDesc instance s1 s',
     let check :=
       checkConnections (DeployRequest.OrganizationId deployRequest)
         (DeployRequest.OutboundConnections deployRequest)
         (AppDescriptor.OutboundNetInterfaces desc) s1 in
     let rest := deployInstance deployRequest desc parametrizedDesc instance s' in
     GetAppDescriptor (descriptorOf deployRequest) s = (inr desc, s1) /\
     checkAllRequiredParametersAreFilled desc (DeployRequest.Parameters deployRequest)
       = None /\
     value check = None /\
     CreateParametrizedDescriptor desc (DeployRequest.Parameters deployRequest)
       = inr parametrizedDesc /\
     value run = value rest /\
     events run =
       (EvGetAppDescriptor (descriptorOf deployRequest) (inr desc) :: events check ++
        EvAddAppInstance (creationOf deployRequest) (inr instance) :: events rest)%list).
Proof.
  intros run. subst run. unfold Deploy. run.
  fold (descriptorOf deployRequest). fold (creationOf deployRequest).
  destruct (GetAppDescriptor (descriptorOf deployRequest) s) as [[err|desc] s1] eqn:Hget;
    simpl.
  { left. exists err. eexists. run. split; [|split; [done|left; done]].
    repeat constructor. }
  destruct (checkAllRequiredParametersAreFilled _ _) as [err|] eqn:Hreq.
  { left. exists err. eexists. run. split; [|split; [done|left; done]].
    repeat constructor. }
  run.
  pose proof (checkConnections_events (DeployRequest.OrganizationId deployRequest)
    (DeployRequest.OutboundConnections deployRequest)
    (AppDescriptor.OutboundNetInterfaces desc) s1) as Hcheck.
  apply preparation_of_lookup in Hcheck.
  set (checkRun := checkConnections _ _ _ s1) in *.
  assert (Forall isPreparation
            (EvGetAppDescriptor (descriptorOf deployRequest) (inr desc)
             :: events checkRun)) as Hbefore by (by constructor).
  destruct (value checkRun) as [dErr|] eqn:Hchecked.
  { left. exists (GRPCError dErr). eexists. run. rewrite app_nil_r.
    split; [exact Hbefore|]. split; [done|by left]. }
  destruct (CreateParametrizedDescriptor _ _) as [err|parametrizedDesc] eqn:Hcreate.
  { left. exists (Derror err).
    exists (EvGetAppDescriptor (descriptorOf deployRequest) (inr desc)
            :: events checkRun
            ++ [EvLogError "error creating  parametrized descriptor %s."])%list.
    run. split; [|split; [done|by left]].
    constructor; [done|]. apply Forall_app. split; [|by repeat constructor].
    by apply Forall_cons in Hbefore as [_ ?]. }
  run.
  destruct (AddAppInstance (creationOf deployRequest) (final checkRun))
    as [[err|instance] s3]; simpl.
  { left. exists err. eexists. run. split; [exact Hbefore|]. split; [done|].
    right. simpl. do 2 f_equal. }
  right. by exists desc, parametrizedDesc, instance, s1, s3.
Qed.

End DeployStages.

(** ** Deploy: what a run has done when it returns *)

Section DeployOutcomes.
Context `{Libraries} {St : Type} `{Collaborators St}.

Ltac not_among Hall Hin :=
  let Hp := fresh in
  pose proof (proj1 (Forall_forall _ _) Hall _ Hin) as Hp; simpl in Hp; tauto.

Ltac members :=
  repeat match goal with
  | Hin : _ ∈ (_ ++ _)%list |- _ => apply elem_of_app in Hin as [Hin|Hin]
  | Hin : _ ∈ _ :: _ |- _ => apply elem_of_cons in Hin as [Hin|Hin]
  | Hin : _ ∈ [] |- _ => by apply elem_of_nil in Hin
  | Hin : _ ∈ compensation _ ?r |- _ => unfold compensation in Hin; destruct r
  | Heq : @eq Event _ _ |- _ => discriminate Heq
  | Hall : Forall _ ?l, Hin : _ ∈ ?l |- _ => by not_among Hall Hin
  end.

(** X1: Deploy asks for the creation of an instance only once every check of
    the request has passed: the descriptor was fetched, its required
    parameters are filled, the connections are consistent, the descriptor
    could be parametrized. The creation request carries the organization, the
    descriptor, the name and the parameters of the deploy request. *)
Theorem Deploy_creation_follows_checks (deployRequest : DeployRequest.t) (s : St)
    (addReq : AddAppInstanceRequest.t) (r : result AppInstance.t) :
  EvAddAppInstance addReq r ∈ events (Deploy deployRequest s) ->
  addReq = creationOf deployRequest /\
  exists desc s1,
    GetAppDescriptor (descriptorOf deployRequest) s = (inr desc, s1) /\
    (forall p, p ∈ AppDescriptor.Parameters desc ->
               AppParameter.Required p = true ->
               filled (DeployRequest.Parameters deployRequest) p) /\
    value (checkConnections (DeployRequest.OrganizationId deployRequest)
             (DeployRequest.OutboundConnections deployRequest)
             (AppDescriptor.OutboundNetInterfaces desc) s1) = None /\
    is_ok (CreateParametrizedDescriptor desc (DeployRequest.Parameters deployRequest))
      = true.
Proof.
  unfold Deploy. run.
  fold (descriptorOf deployRequest). fold (creationOf deployRequest).
  destruct (GetAppDescriptor (descriptorOf deployRequest) s) as [[err|desc] s1] eqn:Hget;
    simpl.
  { run. intros Hin. members. }
  destruct (checkAllRequiredParametersAreFilled _ _) as [err|] eqn:Hreq.
  { run. intros Hin. members. }
  run.
  pose proof (checkConnections_events (DeployRequest.OrganizationId deployRequest)
    (DeployRequest.OutboundConnections deployRequest)
    (AppDescriptor.OutboundNetInterfaces desc) s1) as Hcheck.
  set (checkRun := checkConnections _ _ _ s1) in *.
  destruct (value checkRun) as [dErr|] eqn:Hchecked.
  { run. intros Hin. members. }
  destruct (CreateParametrizedDescriptor _ _) as [err|parametrizedDesc] eqn:Hcreate.
  { run. intros Hin. members. }
  run.
  assert (forall p, p ∈ AppDescriptor.Parameters desc ->
                    AppParameter.Required p = true ->
                    filled (DeployRequest.Parameters deployRequest) p) as Hfilled.
  { by apply checkAllRequiredParametersAreFilled_passes. }
  destruct (AddAppInstance (creationOf deployRequest) (final checkRun))
    as [[err|instance] s3]; simpl.
  { run. intros Hin. members. injection Hin as -> _.
    split; [done|]. exists desc, s1. repeat split; try done. by rewrite Hcreate. }
  intros Hin. members.
  - injection Hin as -> _. split; [done|]. exists desc, s1. repeat split; try done. by rewrite Hcreate.
  - by apply deployInstance_creates_nothing in Hin.
Qed.

(** X2: when the update of the created instance fails, Deploy deletes that
    instance, logging the delete when it fails too, and returns the error of
    the update. *)
Theorem Deploy_update_rollback (deployRequest : DeployRequest.t) (s : St)
    (updated : AppInstance.t) (e : error) :
  EvUpdateAppInstance updated (inl e) ∈ events (Deploy deployRequest s) ->
  value (Deploy deployRequest s) = Returns (inl e) /\
  exists before instance rollback,
    EvAddAppInstance (creationOf deployRequest) (inr instance) ∈ before /\
    AppInstance.AppInstanceId updated = AppInstance.AppInstanceId instance /\
    events (Deploy deployRequest s) =
      (before ++
       [EvUpdateAppInstance updated (inl e);
        EvLogError "error updating instance %s. Delete instance"] ++
       compensation
         {| AppInstanceId.OrganizationId := DeployRequest.OrganizationId deployRequest;
            AppInstanceId.AppInstanceId := AppInstance.AppInstanceId instance |}
         rollback)%list.
Proof.
  destruct (Deploy_stages deployRequest s)
    as [(err & before & Hprep & Hval & [Hev|Hev])
       |(desc & pdesc & instance & s1 & s' & Hget & Hreq & Hcheck & Hcreate & Hval & Hev)];
    rewrite Hev, Hval; clear Hev Hval.
  1,2: intros Hin; members.
  pose proof (checkConnections_events (DeployRequest.OrganizationId deployRequest)
    (DeployRequest.OutboundConnections deployRequest)
    (AppDescriptor.OutboundNetInterfaces desc) s1) as Hlook.
  destruct (deployInstance_stages deployRequest desc pdesc instance s')
    as (logs & Hlogs & [(msg & Hval & Hev)
                       |[(err & rollback & Hval & Hev)
                        |[(newDesc & err & rollback & Hrules & Hval & Hev)
                         |(newDesc & connections & s2 & Hval & Hev)]]]);
    rewrite Hev, Hval; clear Hev Hval.
  - intros Hin. members.
  - intros Hin. members.
  - intros Hin. members.
    injection Hin as -> ->. split; [done|].
      exists (EvGetAppDescriptor (descriptorOf deployRequest) (inr desc)
              :: events (checkConnections (DeployRequest.OrganizationId deployRequest)
                           (DeployRequest.OutboundConnections deployRequest)
                           (AppDescriptor.OutboundNetInterfaces desc) s1)
              ++ EvAddAppInstance (creationOf deployRequest) (inr instance)
              :: logs
              ++ [EvAddParametrizedDescriptor
                    (setAppInstanceId pdesc (AppInstance.AppInstanceId instance))
                    (inr newDesc)])%list, instance, rollback.
      split; [|split; [done|]].
      * apply elem_of_cons. right. apply elem_of_app. right. by left.
      * simpl. f_equal. rewrite <- !app_assoc. simpl. f_equal. f_equal.
        by rewrite <- app_assoc.
  - destruct (enqueueDeployment_stages deployRequest
                (if bool_decide (ParametrizedDescriptor.Rules pdesc = [])
                 then instance else updateFromDescriptor instance newDesc)
                {| AppInstanceId.OrganizationId := DeployRequest.OrganizationId deployRequest;
                   AppInstanceId.AppInstanceId := AppInstance.AppInstanceId instance |}
                connections s2) as (n & [sendErr|] & Hhand).
    + destruct Hhand as [_ Hev]. rewrite Hev. intros Hin.
      case_bool_decide; members.
    + destruct Hhand as (n' & _ & Hev). rewrite Hev. intros Hin.
      case_bool_decide; members.
Qed.

(** X3: a failed hand-off is not compensated: Deploy returns the error of the
    send and leaves in the store the instance it has created and the
    parametrized descriptor it has persisted; its run holds no delete. *)
Theorem Deploy_failed_send_is_not_compensated (deployRequest : DeployRequest.t)
    (s : St) (request : DeploymentRequest.t) (e : error) :
  EvSendDeploy request (Some e) ∈ events (Deploy deployRequest s) ->
  value (Deploy deployRequest s) = Returns (inl e) /\
  Forall (fun ev => ~ isRemoveAppInstance ev) (events (Deploy deployRequest s)) /\
  exists instance pd newDesc,
    EvAddAppInstance (creationOf deployRequest) (inr instance)
      ∈ events (Deploy deployRequest s) /\
    EvAddParametrizedDescriptor pd (inr newDesc) ∈ events (Deploy deployRequest s) /\
    ParametrizedDescriptor.AppInstanceId pd = AppInstance.AppInstanceId instance.
Proof.
  destruct (Deploy_stages deployRequest s)
    as [(err & before & Hprep & Hval & [Hev|Hev])
       |(desc & pdesc & instance & s1 & s' & Hget & Hreq & Hcheck & Hcreate & Hval & Hev)];
    rewrite Hev, Hval; clear Hev Hval.
  1,2: intros Hin; members.
  pose proof (checkConnections_events (DeployRequest.OrganizationId deployRequest)
    (DeployRequest.OutboundConnections deployRequest)
    (AppDescriptor.OutboundNetInterfaces desc) s1) as Hlook.
  destruct (deployInstance_stages deployRequest desc pdesc instance s')
    as (logs & Hlogs & [(msg & Hval & Hev)
                       |[(err & rollback & Hval & Hev)
                        |[(newDesc & err & rollback & Hrules & Hval & Hev)
                         |(newDesc & connections & s2 & Hval & Hev)]]]);
    rewrite Hev, Hval; clear Hev Hval.
  1-3: intros Hin; members.
  destruct (enqueueDeployment_stages deployRequest
              (if bool_decide (ParametrizedDescriptor.Rules pdesc = [])
               then instance else updateFromDescriptor instance newDesc)
              {| AppInstanceId.OrganizationId := DeployRequest.OrganizationId deployRequest;
                 AppInstanceId.AppInstanceId := AppInstance.AppInstanceId instance |}
              connections s2) as (n & [sendErr|] & Hhand).
  2:{ destruct Hhand as (n' & _ & Hev). rewrite Hev. intros Hin.
      case_bool_decide; members. }
  destruct Hhand as [Hval Hev]. rewrite Hev, Hval. intros Hin.
  assert (sendErr = e) as ->.
  { case_bool_decide; members; by injection Hin as _ ->. }
  split; [done|]. split.
  - constructor; [simpl; tauto|]. apply Forall_app. split.
    { eapply Forall_impl; [exact Hlook|]. intros ev. destruct ev; simpl; tauto. }
    constructor; [simpl; tauto|]. apply Forall_app. split.
    { eapply Forall_impl; [exact Hlogs|]. intros ev. destruct ev; simpl; tauto. }
    constructor; [simpl; tauto|]. apply Forall_app. split.
    { case_bool_decide; repeat constructor; simpl; tauto. }
    repeat constructor; simpl; tauto.
  - exists instance, (setAppInstanceId pdesc (AppInstance.AppInstanceId instance)),
      newDesc.
    split; [|split; [|reflexivity]].
    + apply elem_of_cons. right. apply elem_of_app. right. by left.
    + apply elem_of_cons. right. apply elem_of_app. right.
      apply elem_of_cons. right. apply elem_of_app. right. by left.
Qed.


(** An update of the instance in a run of Deploy is the update made from the
    created instance and the persisted descriptor. *)
Lemma Deploy_update_origin (deployRequest : DeployRequest.t) (s : St)
    (updated : AppInstance.t) (r : result Success) :
  EvUpdateAppInstance updated r ∈ events (Deploy deployRequest s) ->
  exists instance pdesc newDesc,
    EvAddAppInstance (creationOf deployRequest) (inr instance)
      ∈ events (Deploy deployRequest s) /\
    EvAddParametrizedDescriptor
      (setAppInstanceId pdesc (AppInstance.AppInstanceId instance)) (inr newDesc)
      ∈ events (Deploy deployRequest s) /\
    ParametrizedDescriptor.Rules pdesc <> [] /\
    updated = updateFromDescriptor instance newDesc.
Proof.
  destruct (Deploy_stages deployRequest s)
    as [(err & before & Hprep & Hval & [Hev|Hev])
       |(desc & pdesc & instance & s1 & s' & Hget & Hreq & Hcheck & Hcreate & Hval & Hev)];
    rewrite Hev; clear Hev Hval.
  1,2: intros Hin; members.
  pose proof (checkConnections_events (DeployRequest.OrganizationId deployRequest)
    (DeployRequest.OutboundConnections deployRequest)
    (AppDescriptor.OutboundNetInterfaces desc) s1) as Hlook.
  set (pd := setAppInstanceId pdesc (AppInstance.AppInstanceId instance)).
  assert (forall newDesc logs tail,
            ParametrizedDescriptor.Rules pdesc <> [] ->
            updated = updateFromDescriptor instance newDesc ->
            exists instance0 pdesc0 newDesc0,
              EvAddAppInstance (creationOf deployRequest) (inr instance0)
                ∈ (EvGetAppDescriptor (descriptorOf deployRequest) (inr desc)
                   :: events (checkConnections
                                (DeployRequest.OrganizationId deployRequest)
                                (DeployRequest.OutboundConnections deployRequest)
                                (AppDescriptor.OutboundNetInterfaces desc) s1)
                   ++ EvAddAppInstance (creationOf deployRequest) (inr instance)
                   :: logs ++ EvAddParametrizedDescriptor pd (inr newDesc) :: tail)%list /\
              EvAddParametrizedDescriptor
                (setAppInstanceId pdesc0 (AppInstance.AppInstanceId instance0))
                (inr newDesc0)
                ∈ (EvGetAppDescriptor (descriptorOf deployRequest) (inr desc)
                   :: events (checkConnections
                                (DeployRequest.OrganizationId deployRequest)
                                (DeployRequest.OutboundConnections deployRequest)
                                (AppDescriptor.OutboundNetInterfaces desc) s1)
                   ++ EvAddAppInstance (creationOf deployRequest) (inr instance)
                   :: logs ++ EvAddParametrizedDescriptor pd (inr newDesc) :: tail)%list /\
              ParametrizedDescriptor.Rules pdesc0 <> [] /\
              updated = updateFromDescriptor instance0 newDesc0) as Hfound.
  { intros newDesc logs tail Hrules ->. exists instance, pdesc, newDesc.
    split; [|split; [|split; [exact Hrules|done]]].
    - apply elem_of_cons. right. apply elem_of_app. right. by left.
    - apply elem_of_cons. right. apply elem_of_app. right.
      apply elem_of_cons. right. apply elem_of_app. right. by left. }
  destruct (deployInstance_stages deployRequest desc pdesc instance s')
    as (logs & Hlogs & [(msg & Hval & Hev)
                       |[(err & rollback & Hval & Hev)
                        |[(newDesc & err & rollback & Hrules & Hval & Hev)
                         |(newDesc & connections & s2 & Hval & Hev)]]]);
    fold pd in Hev; rewrite Hev; clear Hev Hval.
  1,2: intros Hin; members.
  - intros Hin. members.
    injection Hin as -> ->. by apply Hfound.
  - destruct (enqueueDeployment_stages deployRequest
                (if bool_decide (ParametrizedDescriptor.Rules pdesc = [])
                 then instance else updateFromDescriptor instance newDesc)
                {| AppInstanceId.OrganizationId := DeployRequest.OrganizationId deployRequest;
                   AppInstanceId.AppInstanceId := AppInstance.AppInstanceId instance |}
                connections s2) as (n & sent & Hhand).
    set (hand := enqueueDeployment _ _ _ _ _) in *.
    assert (EvUpdateAppInstance updated r ∉ events hand) as Hnot.
    { destruct sent as [sendErr|].
      - destruct Hhand as [_ ->]. intros Hin. members.
      - destruct Hhand as (n' & _ & ->). intros Hin. members. }
    clearbody hand. intros Hin.
    case_bool_decide as Hrules; members; try by apply Hnot in Hin.
    injection Hin as -> _. by apply Hfound.
Qed.

(** X5: Deploy updates the created instance only when the parametrized
    descriptor has rules and was persisted, and the update puts on the
    instance the rules, the configuration options, the environment variables
    and the labels that the store returned for the persisted descriptor; the
    identity and the network interfaces of the instance are kept. *)
Theorem Deploy_update_carries_persisted_descriptor (deployRequest : DeployRequest.t)
    (s : St) (updated : AppInstance.t) (r : result Success) :
  EvUpdateAppInstance updated r ∈ events (Deploy deployRequest s) ->
  exists instance pd newDesc,
    EvAddAppInstance (creationOf deployRequest) (inr instance)
      ∈ events (Deploy deployRequest s) /\
    EvAddParametrizedDescriptor pd (inr newDesc) ∈ events (Deploy deployRequest s) /\
    ParametrizedDescriptor.Rules pd <> [] /\
    AppInstance.Rules updated = ParametrizedDescriptor.Rules newDesc /\
    AppInstance.ConfigurationOptions updated
      = ParametrizedDescriptor.ConfigurationOptions newDesc /\
    AppInstance.EnvironmentVariables updated
      = ParametrizedDescriptor.EnvironmentVariables newDesc /\
    AppInstance.Labels updated = ParametrizedDescriptor.Labels newDesc /\
    AppInstance.OrganizationId updated = AppInstance.OrganizationId instance /\
    AppInstance.AppDescriptorId updated = AppInstance.AppDescriptorId instance /\
    AppInstance.AppInstanceId updated = AppInstance.AppInstanceId instance /\
    AppInstance.Name updated = AppInstance.Name instance /\
    AppInstance.InboundNetInterfaces updated
      = AppInstance.InboundNetInterfaces instance /\
    AppInstance.OutboundNetInterfaces updated
      = AppInstance.OutboundNetInterfaces instance.
Proof.
  intros Hin.
  destruct (Deploy_update_origin deployRequest s updated r Hin)
    as (instance & pdesc & newDesc & Hadd & Hpersist & Hrules & ->).
  exists instance, (setAppInstanceId pdesc (AppInstance.AppInstanceId instance)),
    newDesc.
  split; [exact Hadd|]. split; [exact Hpersist|]. split; [exact Hrules|].
  by repeat split.
Qed.

(** X22: Deploy deletes an instance only to compensate a failure: a delete in
    a run is the delete of the instance that the run has created, it follows a
    failed persistence of the parametrized descriptor or a failed update of
    the instance, whose error is the one returned, and nothing is sent to the
    queue in such a run. *)
Theorem Deploy_deletes_only_to_compensate (deployRequest : DeployRequest.t) (s : St)
    (id : AppInstanceId.t) (r : result Success) :
  EvRemoveAppInstance id r ∈ events (Deploy deployRequest s) ->
  exists instance e,
    EvAddAppInstance (creationOf deployRequest) (inr instance)
      ∈ events (Deploy deployRequest s) /\
    id = {| AppInstanceId.OrganizationId := DeployRequest.OrganizationId deployRequest;
            AppInstanceId.AppInstanceId := AppInstance.AppInstanceId instance |} /\
    value (Deploy deployRequest s) = Returns (inl e) /\
    ((exists pd, EvAddParametrizedDescriptor pd (inl e) ∈ events (Deploy deployRequest s)) \/
     (exists updated, EvUpdateAppInstance updated (inl e)
                        ∈ events (Deploy deployRequest s))) /\
    Forall (fun ev => ~ isSend ev) (events (Deploy deployRequest s)).
Proof.
  destruct (Deploy_stages deployRequest s)
    as [(err & before & Hprep & Hval & [Hev|Hev])
       |(desc & pdesc & instance & s1 & s' & Hget & Hreq & Hcheck & Hcreate & Hval & Hev)];
    rewrite Hev, Hval; clear Hev Hval.
  1,2: intros Hin; members.
  pose proof (checkConnections_events (DeployRequest.OrganizationId deployRequest)
    (DeployRequest.OutboundConnections deployRequest)
    (AppDescriptor.OutboundNetInterfaces desc) s1) as Hlook.
  set (checks := events (checkConnections _ _ _ s1)) in *. clearbody checks.
  assert (forall (tail : list Event),
            Forall (fun ev => ~ isSend ev) tail ->
            Forall (fun ev => ~ isSend ev)
              (EvGetAppDescriptor (descriptorOf deployRequest) (inr desc)
               :: checks ++ EvAddAppInstance (creationOf deployRequest) (inr instance)
               :: tail)%list) as Hnosend.
  { intros tail Htail. constructor; [simpl; tauto|]. apply Forall_app. split.
    - eapply Forall_impl; [exact Hlook|]. intros ev. destruct ev; simpl; tauto.
    - constructor; [simpl; tauto|done]. }
  assert (forall (tail : list Event),
            EvAddAppInstance (creationOf deployRequest) (inr instance)
              ∈ (EvGetAppDescriptor (descriptorOf deployRequest) (inr desc)
                 :: checks ++ EvAddAppInstance (creationOf deployRequest) (inr instance)
                 :: tail)%list) as Hcreated.
  { intros tail. apply elem_of_cons. right. apply elem_of_app. right. by left. }
  destruct (deployInstance_stages deployRequest desc pdesc instance s')
    as (logs & Hlogs & [(msg & Hval & Hev)
                       |[(err & rollback & Hval & Hev)
                        |[(newDesc & err & rollback & Hrules & Hval & Hev)
                         |(newDesc & connections & s2 & Hval & Hev)]]]);
    rewrite Hev, Hval; clear Hev Hval.
  - intros Hin. members.
  - intros Hin.
    assert (id = {| AppInstanceId.OrganizationId :=
                      DeployRequest.OrganizationId deployRequest;
                    AppInstanceId.AppInstanceId := AppInstance.AppInstanceId instance |})
      as ->.
    { members; by injection Hin as -> _. }
    exists instance, err. split; [apply Hcreated|]. split; [done|]. split; [done|].
    split.
    + left. eexists. apply elem_of_cons. right. apply elem_of_app. right.
      apply elem_of_cons. right. apply elem_of_app. right. by left.
    + apply Hnosend. apply Forall_app. split.
      { eapply Forall_impl; [exact Hlogs|]. intros ev. destruct ev; simpl; tauto. }
      unfold compensation. destruct rollback; repeat constructor; simpl; tauto.
  - intros Hin.
    assert (id = {| AppInstanceId.OrganizationId :=
                      DeployRequest.OrganizationId deployRequest;
                    AppInstanceId.AppInstanceId := AppInstance.AppInstanceId instance |})
      as ->.
    { members; by injection Hin as -> _. }
    exists instance, err. split; [apply Hcreated|]. split; [done|]. split; [done|].
    split.
    + right. eexists. apply elem_of_cons. right. apply elem_of_app. right.
      apply elem_of_cons. right. apply elem_of_app. right.
      apply elem_of_cons. right. by left.
    + apply Hnosend. apply Forall_app. split.
      { eapply Forall_impl; [exact Hlogs|]. intros ev. destruct ev; simpl; tauto. }
      unfold compensation. destruct rollback; repeat constructor; simpl; tauto.
  - destruct (enqueueDeployment_stages deployRequest
                (if bool_decide (ParametrizedDescriptor.Rules pdesc = [])
                 then instance else updateFromDescriptor instance newDesc)
                {| AppInstanceId.OrganizationId := DeployRequest.OrganizationId deployRequest;
                   AppInstanceId.AppInstanceId := AppInstance.AppInstanceId instance |}
                connections s2) as (n & [sendErr|] & Hhand).
    + destruct Hhand as [_ Hev]. rewrite Hev. intros Hin.
      case_bool_decide; members.
    + destruct Hhand as (n' & _ & Hev). rewrite Hev. intros Hin.
      case_bool_decide; members.
Qed.

End DeployOutcomes.

(** The checks behind the creation, on a deploy with no parameter and no
    connection. *)
Lemma Deploy_creation_follows_checks_witness :
  let deployRequest := sampleDeployRequest [] in
  let C := Scripted.collaborators (deployScript []) in
  let run := @Deploy Scripted.libraries nat C deployRequest 0%nat in
  EvAddAppInstance (creationOf deployRequest) (inr (sampleInstance "inst2" [] []))
    ∈ events run /\
  creationOf deployRequest = creationOf deployRequest /\
  exists desc s1,
    @GetAppDescriptor nat C (descriptorOf deployRequest) 0%nat = (inr desc, s1) /\
    (forall p, p ∈ AppDescriptor.Parameters desc ->
               AppParameter.Required p = true ->
               filled (DeployRequest.Parameters deployRequest) p) /\
    value (@checkConnections nat C (DeployRequest.OrganizationId deployRequest)
             (DeployRequest.OutboundConnections deployRequest)
             (AppDescriptor.OutboundNetInterfaces desc) s1) = None /\
    is_ok (@CreateParametrizedDescriptor Scripted.libraries desc
             (DeployRequest.Parameters deployRequest)) = true.
Proof.
  intros deployRequest C run.
  assert (EvAddAppInstance (creationOf deployRequest)
            (inr (sampleInstance "inst2" [] [])) ∈ events run) as Hin.
  { apply list_elem_of_In. vm_compute. right. left. reflexivity. }
  split; [exact Hin|].
  exact (@Deploy_creation_follows_checks Scripted.libraries nat C deployRequest 0%nat
           _ _ Hin).
Defined.

(** The run of Deploy on a descriptor with a rule, when the store refuses the
    update of the instance. *)
Lemma Deploy_update_rollback_witness :
  let deployRequest := sampleDeployRequest [] in
  let e := ForeignError "rpc error: code = Internal" in
  let C := Scripted.collaborators (ruledScript (Some e) None) in
  let run := @Deploy Scripted.libraries nat C deployRequest 0%nat in
  let updated :=
    updateFromDescriptor (sampleInstance "inst2" [] [])
      (newParametrizedDescriptorFromDescriptor descriptorWithRule) in
  EvUpdateAppInstance updated (inl e) ∈ events run /\
  value run = Returns (inl e) /\
  exists before instance rollback,
    EvAddAppInstance (creationOf deployRequest) (inr instance) ∈ before /\
    AppInstance.AppInstanceId updated = AppInstance.AppInstanceId instance /\
    events run =
      (before ++
       [EvUpdateAppInstance updated (inl e);
        EvLogError "error updating instance %s. Delete instance"] ++
       compensation (AppInstanceId.mk "org1" (AppInstance.AppInstanceId instance))
         rollback)%list.
Proof.
  intros deployRequest e C run updated.
  assert (EvUpdateAppInstance updated (inl e) ∈ events run) as Hin.
  { apply list_elem_of_In. vm_compute. do 3 right. left. reflexivity. }
  split; [exact Hin|].
  exact (@Deploy_update_rollback Scripted.libraries nat C deployRequest 0%nat
           updated e Hin).
Defined.

(** The run of Deploy when the queue refuses the command. *)
Lemma Deploy_failed_send_is_not_compensated_witness :
  let deployRequest := sampleDeployRequest [] in
  let e := ForeignError "queue unavailable" in
  let C := Scripted.collaborators (ruledScript None (Some e)) in
  let run := @Deploy Scripted.libraries nat C deployRequest 0%nat in
  let request :=
    DeploymentRequest.mk "app-mngr-4" (AppInstanceId.mk "org1" "inst2") "app" [] in
  EvSendDeploy request (Some e) ∈ events run /\
  value run = Returns (inl e) /\
  Forall (fun ev => ~ isRemoveAppInstance ev) (events run) /\
  exists instance pd newDesc,
    EvAddAppInstance (creationOf deployRequest) (inr instance) ∈ events run /\
    EvAddParametrizedDescriptor pd (inr newDesc) ∈ events run /\
    ParametrizedDescriptor.AppInstanceId pd = AppInstance.AppInstanceId instance.
Proof.
  intros deployRequest e C run request.
  assert (EvSendDeploy request (Some e) ∈ events run) as Hin.
  { apply list_elem_of_In. vm_compute. do 5 right. left. reflexivity. }
  split; [exact Hin|].
  exact (@Deploy_failed_send_is_not_compensated Scripted.libraries nat C
           deployRequest 0%nat request e Hin).
Defined.


(** The update made by a deploy of a descriptor with a rule. *)
Lemma Deploy_update_carries_persisted_descriptor_witness :
  let deployRequest := sampleDeployRequest [] in
  let C := Scripted.collaborators (ruledScript None None) in
  let run := @Deploy Scripted.libraries nat C deployRequest 0%nat in
  let updated :=
    updateFromDescriptor (sampleInstance "inst2" [] [])
      (newParametrizedDescriptorFromDescriptor descriptorWithRule) in
  EvUpdateAppInstance updated (inr mkSuccess) ∈ events run /\
  exists instance pd newDesc,
    EvAddAppInstance (creationOf deployRequest) (inr instance) ∈ events run /\
    EvAddParametrizedDescriptor pd (inr newDesc) ∈ events run /\
    ParametrizedDescriptor.Rules pd <> [] /\
    AppInstance.Rules updated = ParametrizedDescriptor.Rules newDesc /\
    AppInstance.ConfigurationOptions updated
      = ParametrizedDescriptor.ConfigurationOptions newDesc /\
    AppInstance.EnvironmentVariables updated
      = ParametrizedDescriptor.EnvironmentVariables newDesc /\
    AppInstance.Labels updated = ParametrizedDescriptor.Labels newDesc /\
    AppInstance.OrganizationId updated = AppInstance.OrganizationId instance /\
    AppInstance.AppDescriptorId updated = AppInstance.AppDescriptorId instance /\
    AppInstance.AppInstanceId updated = AppInstance.AppInstanceId instance /\
    AppInstance.Name updated = AppInstance.Name instance /\
    AppInstance.InboundNetInterfaces updated
      = AppInstance.InboundNetInterfaces instance /\
    AppInstance.OutboundNetInterfaces updated
      = AppInstance.OutboundNetInterfaces instance.
Proof.
  intros deployRequest C run updated.
  assert (EvUpdateAppInstance updated (inr mkSuccess) ∈ events run) as Hin.
  { apply list_elem_of_In. vm_compute. do 3 right. left. reflexivity. }
  split; [exact Hin|].
  exact (@Deploy_update_carries_persisted_descriptor Scripted.libraries nat C
           deployRequest 0%nat updated (inr mkSuccess) Hin).
Defined.

(** The delete of "inst2" in the run of Deploy whose update of the instance
    is refused. *)
Lemma Deploy_deletes_only_to_compensate_witness :
  let deployRequest := sampleDeployRequest [] in
  let C := Scripted.collaborators
             (ruledScript (Some (ForeignError "rpc error: code = Internal")) None) in
  let run := @Deploy Scripted.libraries nat C deployRequest 0%nat in
  let id := AppInstanceId.mk "org1" "inst2" in
  EvRemoveAppInstance id (inr mkSuccess) ∈ events run /\
  exists instance e,
    EvAddAppInstance (creationOf deployRequest) (inr instance) ∈ events run /\
    id = {| AppInstanceId.OrganizationId := DeployRequest.OrganizationId deployRequest;
            AppInstanceId.AppInstanceId := AppInstance.AppInstanceId instance |} /\
    value run = Returns (inl e) /\
    ((exists pd, EvAddParametrizedDescriptor pd (inl e) ∈ events run) \/
     (exists updated, EvUpdateAppInstance updated (inl e) ∈ events run)) /\
    Forall (fun ev => ~ isSend ev) (events run).
Proof.
  intros deployRequest C run id.
  assert (EvRemoveAppInstance id (inr mkSuccess) ∈ events run) as Hin.
  { apply list_elem_of_In. vm_compute. do 5 right. left. reflexivity. }
  split; [exact Hin|].
  exact (@Deploy_deletes_only_to_compensate Scripted.libraries nat C deployRequest
           0%nat id (inr mkSuccess) Hin).
Defined.

(** ** The expansion of an instance with its connections *)

Section Expansion.
Context {St : Type} `{Collaborators St}.

(** getInstanceConnections lists the inbound, then the outbound connections
    of the instance, under the identifier of the instance itself; a failed
    listing is logged and leaves the connections as ToAppInstance gave them. *)
Lemma getInstanceConnections_spec (instance : AppInstance.t) (s : St) :
  let run := getInstanceConnections instance s in
  let inbound := ListInboundConnections (instanceIdOf instance) s in
  let outbound := ListOutboundConnections (instanceIdOf instance) (snd inbound) in
  let expandInstance := ToAppInstance instance in
  value run =
    {| ExpandedAppInstance.OrganizationId :=
         ExpandedAppInstance.OrganizationId expandInstance;
       ExpandedAppInstance.AppDescriptorId :=
         ExpandedAppInstance.AppDescriptorId expandInstance;
       ExpandedAppInstance.AppInstanceId :=
         ExpandedAppInstance.AppInstanceId expandInstance;
       ExpandedAppInstance.Name := ExpandedAppInstance.Name expandInstance;
       ExpandedAppInstance.InboundConnections :=
         listedOr (fst inbound) (ExpandedAppInstance.InboundConnections expandInstance);
       ExpandedAppInstance.OutboundConnections :=
         listedOr (fst outbound)
           (ExpandedAppInstance.OutboundConnections expandInstance) |} /\
  final run = snd outbound /\
  events run =
    (EvListInboundConnections (instanceIdOf instance) (fst inbound)
     :: listingLog "inbound" (fst inbound) ++
     EvListOutboundConnections (instanceIdOf instance) (fst outbound)
     :: listingLog "outbound" (fst outbound))%list.
Proof.
  intros run inbound outbound expandInstance. subst run.
  unfold getInstanceConnections. fold (instanceIdOf instance). run.
  fold inbound. fold expandInstance.
  destruct (fst inbound) as [err|[conns|]] eqn:Hin; run; fold outbound;
    destruct (fst outbound) as [err'|[conns'|]] eqn:Hout; run; simpl;
    by destruct expandInstance.
Qed.

(** X6: GetAppInstance fails only when the lookup of the instance fails, with
    the error of the lookup and no further call. Once the instance is found,
    the two listings of its connections are made under the identifier the
    found instance carries, and a listing that fails never fails
    GetAppInstance: it is logged, and the expanded instance keeps for that
    direction the connections ToAppInstance gave it. *)
Theorem GetAppInstance_tolerates_failed_listings (appInstanceID : AppInstanceId.t)
    (s : St) :
  let run := GetAppInstance appInstanceID s in
  let lookup := GetAppInstance_ appInstanceID s in
  match fst lookup with
  | inl err =>
    value run = inl err /\
    events run = [EvGetAppInstance appInstanceID (inl err)]
  | inr appInstance =>
    let inbound := ListInboundConnections (instanceIdOf appInstance) (snd lookup) in
    let outbound := ListOutboundConnections (instanceIdOf appInstance) (snd inbound) in
    let expandInstance := ToAppInstance appInstance in
    exists expanded,
      value run = inr expanded /\
      ExpandedAppInstance.InboundConnections expanded =
        listedOr (fst inbound) (ExpandedAppInstance.InboundConnections expandInstance) /\
      ExpandedAppInstance.OutboundConnections expanded =
        listedOr (fst outbound)
          (ExpandedAppInstance.OutboundConnections expandInstance) /\
      ExpandedAppInstance.OrganizationId expanded =
        ExpandedAppInstance.OrganizationId expandInstance /\
      ExpandedAppInstance.AppDescriptorId expanded =
        ExpandedAppInstance.AppDescriptorId expandInstance /\
      ExpandedAppInstance.AppInstanceId expanded =
        ExpandedAppInstance.AppInstanceId expandInstance /\
      ExpandedAppInstance.Name expanded = ExpandedAppInstance.Name expandInstance /\
      events run =
        (EvGetAppInstance appInstanceID (inr appInstance)
         :: EvListInboundConnections (instanceIdOf appInstance) (fst inbound)
         :: listingLog "inbound" (fst inbound) ++
         EvListOutboundConnections (instanceIdOf appInstance) (fst outbound)
         :: listingLog "outbound" (fst outbound))%list
  end.
Proof.
  intros run lookup. subst run. unfold GetAppInstance. run. fold lookup.
  destruct (fst lookup) as [err|appInstance]; [by run|].
  cbv zeta. run.
  destruct (getInstanceConnections_spec appInstance (snd lookup))
    as (Hval & _ & Hev).
  eexists. split; [reflexivity|]. rewrite Hval, Hev. simpl.
  by rewrite app_nil_r.
Qed.

(** X7: Undeploy of an instance that the store does not return: the error of
    the lookup is returned and logged, and nothing else is called: no listing,
    no removal, no send. *)
Theorem Undeploy_of_unknown_instance (undeployRequest : UndeployRequest.t) (s : St)
    (err : error) :
  let id := {|
    AppInstanceId.OrganizationId := UndeployRequest.OrganizationId undeployRequest;
    AppInstanceId.AppInstanceId := UndeployRequest.AppInstanceId undeployRequest
  |} in
  fst (GetAppInstance_ id s) = inl err ->
  value (Undeploy undeployRequest s) = inl err /\
  events (Undeploy undeployRequest s) =
    [EvGetAppInstance id (inl err);
     EvLogError "error when sending the undeploy request to the queue"].
Proof.
  intros id Hlookup. unfold Undeploy, GetAppInstance. fold id. run.
  rewrite Hlookup. by run.
Qed.

(** X8: RemoveAppDescriptor returns the error of the listing, with no removal,
    when the instances of the organization cannot be listed; and when the
    listing shows no instance of the descriptor, it forwards the removal to
    the store and returns what the store answered. *)
Theorem RemoveAppDescriptor_forwards (appDescriptorID : AppDescriptorId.t) (s : St) :
  let run := RemoveAppDescriptor appDescriptorID s in
  let orgID := AppDescriptorId.OrganizationId appDescriptorID in
  let listing := ListAppInstances orgID s in
  match fst listing with
  | inl err =>
    value run = inl err /\ events run = [EvListAppInstances orgID (inl err)]
  | inr instances =>
    Forall (fun inst => ~ references appDescriptorID inst) instances ->
    let removal := RemoveAppDescriptor_ appDescriptorID (snd listing) in
    value run = fst removal /\
    final run = snd removal /\
    events run =
      [EvListAppInstances orgID (inr instances);
       EvRemoveAppDescriptor appDescriptorID (fst removal)]
  end.
Proof.
  intros run orgID listing. subst run. unfold RemoveAppDescriptor. run.
  fold orgID. fold listing.
  destruct (fst listing) as [err|instances]; [by run|].
  intros Hnone. cbv zeta.
  destruct (existsb _ instances) eqn:Hany.
  - apply existsb_references in Hany. apply Exists_exists in Hany as (inst & Hin & Href).
    rewrite Forall_forall in Hnone. by destruct (Hnone inst Hin).
  - by run.
Qed.

End Expansion.

(** The undeploy of "inst9", which the sample store does not hold. *)
Lemma Undeploy_of_unknown_instance_witness :
  let C := Scripted.collaborators sampleScript in
  let undeployRequest := UndeployRequest.mk "org1" "inst9" false in
  let err := ForeignError "rpc error: code = NotFound" in
  value (@Undeploy nat C undeployRequest 0%nat) = inl err /\
  events (@Undeploy nat C undeployRequest 0%nat) =
    [EvGetAppInstance (AppInstanceId.mk "org1" "inst9") (inl err);
     EvLogError "error when sending the undeploy request to the queue"].
Proof.
  intros C undeployRequest err.
  apply (@Undeploy_of_unknown_instance nat C undeployRequest 0%nat err).
  reflexivity.
Defined.

(** The removal of "desc2", of which the sample organization has no
    instance. *)
Lemma RemoveAppDescriptor_forwards_witness :
  let C := Scripted.collaborators sampleScript in
  let id := AppDescriptorId.mk "org1" "desc2" in
  let run := @RemoveAppDescriptor nat C id 0%nat in
  value run = inr mkSuccess /\
  final run = 2%nat /\
  events run =
    [EvListAppInstances "org1" (inr [sampleInstance "inst1" [] []]);
     EvRemoveAppDescriptor id (inr mkSuccess)].
Proof.
  intros C id run.
  apply (@RemoveAppDescriptor_forwards nat C id 0%nat).
  repeat constructor. unfold references. simpl. discriminate.
Defined.

(** ** The listings of the manager *)

Section ListingProperties.
Context {St : Type} `{Collaborators St}.

Lemma appendInbounds_spec organizationId instanceInbounds appInstance :
  Manager.appendInbounds organizationId instanceInbounds appInstance =
  (instanceInbounds ++
   map (inboundEntry organizationId appInstance)
       (AppInstance.InboundNetInterfaces appInstance))%list.
Proof.
  unfold Manager.appendInbounds.
  revert instanceInbounds.
  induction (AppInstance.InboundNetInterfaces appInstance) as [|inbound rest IH];
    intros instanceInbounds; simpl.
  - by rewrite app_nil_r.
  - rewrite IH, <- app_assoc. reflexivity.
Qed.

Lemma foldl_appendInbounds organizationId instanceInbounds appInstances :
  foldl (Manager.appendInbounds organizationId) instanceInbounds appInstances =
  (instanceInbounds ++
   flat_map (fun appInstance =>
               map (inboundEntry organizationId appInstance)
                   (AppInstance.InboundNetInterfaces appInstance))
            appInstances)%list.
Proof.
  revert instanceInbounds.
  induction appInstances as [|appInstance rest IH]; intros instanceInbounds; simpl.
  - by rewrite app_nil_r.
  - by rewrite IH, appendInbounds_spec, <- app_assoc.
Qed.

Lemma connected_spec outbound connections :
  Manager.connected outbound connections = true <->
  NetworkInterface.Name outbound ∈ map ConnectionInstance.OutboundName connections.
Proof.
  unfold Manager.connected. rewrite existsb_exists, list_elem_of_In, in_map_iff.
  split.
  - intros (connection & Hin & Hname). apply bool_decide_eq_true in Hname.
    by exists connection.
  - intros (connection & Hname & Hin). exists connection. split; [done|].
    by apply bool_decide_eq_true.
Qed.

Lemma appendOutbounds_spec organizationId appInstance expanded instanceOutbounds :
  Manager.appendOutbounds organizationId appInstance expanded instanceOutbounds =
  (instanceOutbounds ++
   map (outboundEntry organizationId appInstance)
       (openOutbounds appInstance expanded))%list.
Proof.
  unfold Manager.appendOutbounds, openOutbounds.
  revert instanceOutbounds.
  induction (AppInstance.OutboundNetInterfaces appInstance) as [|outbound rest IH];
    intros instanceOutbounds; simpl.
  - by rewrite app_nil_r.
  - rewrite IH, filter_cons.
    destruct (Manager.connected outbound _) eqn:Hconn; simpl.
    + apply connected_spec in Hconn. by rewrite decide_False by tauto.
    + assert (NetworkInterface.Name outbound
                ∉ map ConnectionInstance.OutboundName
                      (ExpandedAppInstance.OutboundConnections expanded)) as Hopen.
      { rewrite <- connected_spec. by rewrite Hconn. }
      rewrite decide_True by done. by rewrite <- app_assoc.
Qed.

(** The expansions do not depend on what was collected before. *)
Lemma expandInstances_acc instances expandList (s : St) :
  value (Manager.expandInstances instances expandList s) =
    (expandList ++ value (Manager.expandInstances instances [] s))%list /\
  final (Manager.expandInstances instances expandList s) =
    final (Manager.expandInstances instances [] s) /\
  events (Manager.expandInstances instances expandList s) =
    events (Manager.expandInstances instances [] s).
Proof.
  revert expandList s.
  induction instances as [|instance rest IH]; intros expandList s; simpl.
  - by rewrite app_nil_r.
  - run.
    destruct (IH (expandList ++ [value (getInstanceConnections instance s)])%list
                 (final (getInstanceConnections instance s))) as (Hv & Hf & He).
    destruct (IH [value (getInstanceConnections instance s)]
                 (final (getInstanceConnections instance s))) as (Hv' & Hf' & He').
    rewrite Hv, Hf, He, Hv', Hf', He'. by rewrite <- app_assoc.
Qed.

Lemma expandInstances_length instances (s : St) :
  length (value (Manager.expandInstances instances [] s)) = length instances.
Proof.
  revert s. induction instances as [|instance rest IH]; intros s; simpl; [done|].
  run. rewrite (proj1 (expandInstances_acc rest _ _)). simpl. by rewrite IH.
Qed.

(** The outbounds collected are the open outbounds of the instances, each
    against its expansion, and the calls are the calls of the expansion. *)
Lemma availableOutbounds_spec organizationId appInstances instanceOutbounds (s : St) :
  value (Manager.availableOutbounds organizationId appInstances instanceOutbounds s) =
    (instanceOutbounds ++
     flat_map (fun '(appInstance, expanded) =>
                 map (outboundEntry organizationId appInstance)
                     (openOutbounds appInstance expanded))
              (zip appInstances (value (Manager.expandInstances appInstances [] s))))%list /\
  final (Manager.availableOutbounds organizationId appInstances instanceOutbounds s) =
    final (Manager.expandInstances appInstances [] s) /\
  events (Manager.availableOutbounds organizationId appInstances instanceOutbounds s) =
    events (Manager.expandInstances appInstances [] s).
Proof.
  revert instanceOutbounds s.
  induction appInstances as [|appInstance rest IH]; intros instanceOutbounds s; simpl.
  - by rewrite app_nil_r.
  - run.
    set (expanded := value (getInstanceConnections appInstance s)).
    set (s1 := final (getInstanceConnections appInstance s)).
    destruct (IH (Manager.appendOutbounds organizationId appInstance expanded
                    instanceOutbounds) s1) as (Hv & Hf & He).
    destruct (expandInstances_acc rest [expanded] s1) as (Hv' & Hf' & He').
    rewrite Hv, Hf, He, Hv', Hf', He'. simpl.
    by rewrite appendOutbounds_spec, <- app_assoc.
Qed.

Lemma connectionListings_app evs1 evs2 :
  connectionListings (evs1 ++ evs2) =
  (connectionListings evs1 ++ connectionListings evs2)%list.
Proof.
  induction evs1 as [|ev rest IH]; simpl; [done|].
  destruct ev; simpl; by rewrite ?IH.
Qed.

Lemma connectionListings_logs what listing :
  connectionListings (listingLog what listing) = [].
Proof. by destruct listing. Qed.

(** One expansion per instance, in order, with the identity ToAppInstance
    gives, by the two listings of the instance. *)
Lemma expandInstances_calls instances (s : St) :
  Forall2 (fun instance expanded => sameIdentity (ToAppInstance instance) expanded)
          instances (value (Manager.expandInstances instances [] s)) /\
  connectionListings (events (Manager.expandInstances instances [] s)) =
    flat_map listingsOf instances /\
  Forall (fun ev => isConnectionListing ev \/ isLog ev)
         (events (Manager.expandInstances instances [] s)).
Proof.
  revert s. induction instances as [|instance rest IH]; intros s; simpl.
  - split; [constructor|]. split; [done|constructor].
  - run.
    destruct (getInstanceConnections_spec instance s) as (Hval & Hfin & Hev).
    destruct (expandInstances_acc rest [value (getInstanceConnections instance s)]
                (final (getInstanceConnections instance s))) as (Hv & Hf & He).
    destruct (IH (final (getInstanceConnections instance s))) as (Hid & Hcalls & Hkinds).
    rewrite Hv, He. split; [|split].
    + simpl. constructor; [|exact Hid]. rewrite Hval. by repeat split.
    + rewrite connectionListings_app, Hcalls, Hev. simpl.
      rewrite connectionListings_app, connectionListings_logs. simpl.
      by rewrite connectionListings_logs.
    + apply Forall_app. split; [|exact Hkinds]. rewrite Hev.
      constructor; [by left|]. apply Forall_app. split.
      { destruct (fst (ListInboundConnections _ _)); simpl;
          [constructor; [by right|constructor]|constructor]. }
      constructor; [by left|].
      destruct (fst (ListOutboundConnections _ _)); simpl;
        [constructor; [by right|constructor]|constructor].
Qed.

(** X9: ListAppInstances returns the error of the listing of the store, with
    no further call, or one expanded instance per listed instance, in the
    order of the listing and with the identity ToAppInstance gives it. The
    calls after the listing are the two listings of connections of each
    instance in turn, and the logs of those that failed: no failed listing of
    connections fails ListAppInstances. *)
Theorem ListAppInstances_expands_every_instance (organizationID : string) (s : St) :
  let run := Manager.ListAppInstances organizationID s in
  match fst (ListAppInstances organizationID s) with
  | inl err =>
    value run = inl err /\
    events run = [EvListAppInstances organizationID (inl err)]
  | inr instances =>
    exists expandList calls,
      value run = inr expandList /\
      Forall2 (fun instance expanded => sameIdentity (ToAppInstance instance) expanded)
              instances expandList /\
      events run = EvListAppInstances organizationID (inr instances) :: calls /\
      connectionListings calls = flat_map listingsOf instances /\
      Forall (fun ev => isConnectionListing ev \/ isLog ev) calls
  end.
Proof.
  intros run. subst run. unfold Manager.ListAppInstances. run.
  destruct (ListAppInstances organizationID s) as [[err|instances] s1]; simpl;
    [by run|].
  run. destruct (expandInstances_calls instances s1) as (Hid & Hcalls & Hkinds).
  eexists _, _. split; [reflexivity|]. split; [exact Hid|].
  split; [by rewrite app_nil_r|]. by split.
Qed.

(** X10: ListAvailableInstanceInbounds makes one call, the listing of the
    instances of the organization: it consults no connection, so that an
    inbound is listed whether it is connected or not. It lists every inbound
    of every instance, in the order of the listing, under the organization
    asked for. *)
Theorem ListAvailableInstanceInbounds_lists_every_inbound (organizationId : string)
    (s : St) :
  let run := Manager.ListAvailableInstanceInbounds organizationId s in
  let listing := fst (ListAppInstances organizationId s) in
  events run = [EvListAppInstances organizationId listing] /\
  match listing with
  | inl err => value run = inl err
  | inr appInstances =>
    value run =
      inr (flat_map (fun appInstance =>
                       map (inboundEntry organizationId appInstance)
                           (AppInstance.InboundNetInterfaces appInstance))
                    appInstances)
  end.
Proof.
  intros run listing. subst run listing.
  unfold Manager.ListAvailableInstanceInbounds. run.
  destruct (ListAppInstances organizationId s) as [[err|appInstances] s1]; simpl;
    run; [done|].
  by rewrite foldl_appendInbounds.
Qed.

(** X11: ListAvailableInstanceOutbounds makes the calls of ListAppInstances,
    and lists, for each instance in turn, the outbounds that none of the
    outbound connections of its expansion names. *)
Theorem ListAvailableInstanceOutbounds_lists_open_outbounds (organizationId : string)
    (s : St) :
  let run := Manager.ListAvailableInstanceOutbounds organizationId s in
  let expansion := Manager.ListAppInstances organizationId s in
  events run = events expansion /\
  final run = final expansion /\
  match fst (ListAppInstances organizationId s) with
  | inl err => value run = inl err
  | inr appInstances =>
    exists expandList,
      value expansion = inr expandList /\
      length expandList = length appInstances /\
      value run =
        inr (flat_map (fun '(appInstance, expanded) =>
                         map (outboundEntry organizationId appInstance)
                             (openOutbounds appInstance expanded))
                      (zip appInstances expandList))
  end.
Proof.
  intros run expansion. subst run expansion.
  unfold Manager.ListAvailableInstanceOutbounds, Manager.ListAppInstances. run.
  destruct (ListAppInstances organizationId s) as [[err|appInstances] s1]; simpl;
    run; [done|].
  destruct (availableOutbounds_spec organizationId appInstances [] s1)
    as (Hv & Hf & He).
  rewrite Hv, Hf, He. split; [done|]. split; [done|].
  eexists. split; [reflexivity|]. split; [apply expandInstances_length|done].
Qed.

End ListingProperties.

(** The open outbounds of the sample organization: "out" of "inst1" is
    connected, "spare" is open; when the listing of the outbound connections
    fails, both are listed. *)
Example ListAvailableInstanceOutbounds_on_sample :
  value (@Manager.ListAvailableInstanceOutbounds nat
           (Scripted.collaborators
              (interfacedScript (inr (Some [sampleConnection "inst1" "inst2"]))))
           "org1" 0%nat)
    = inr [AvailableInstanceOutbound.mk "org1" "inst1" "front" "spare"] /\
  value (@Manager.ListAvailableInstanceOutbounds nat
           (Scripted.collaborators
              (interfacedScript (inl (ForeignError "rpc error: code = Unavailable"))))
           "org1" 0%nat)
    = inr [AvailableInstanceOutbound.mk "org1" "inst1" "front" "out";
           AvailableInstanceOutbound.mk "org1" "inst1" "front" "spare"].
Proof. split; vm_compute; reflexivity. Qed.

(** ** Parametrization: what is found, what is applied, what is copied *)

Section ParametrizationProperties.
Context `{Libraries}.

Lemma findParameterByName_Some params name definition :
  findParameterByName params name = Some definition ->
  exists before after,
    params = (before ++ definition :: after)%list /\
    AppParameter.Name definition = name /\
    Forall (fun declared => AppParameter.Name declared <> name) before.
Proof.
  induction params as [|declared rest IH]; simpl; [discriminate|].
  case_bool_decide as Hname.
  - intros [= <-]. exists [], rest. by repeat split.
  - intros Hfind. destruct (IH Hfind) as (before & after & -> & Hdef & Hbefore).
    exists (declared :: before), after. split; [done|]. split; [done|].
    by constructor.
Qed.

(** X12: findParameterInDescriptor returns the first declaration that has the
    name of the instance parameter: a later declaration of the same name is
    never used. It fails only when no declaration has that name. *)
Theorem findParameterInDescriptor_returns_first_declaration
    (descriptor : AppDescriptor.t) (parameter : InstanceParameter.t) :
  match findParameterInDescriptor descriptor parameter with
  | inr definition =>
    exists before after,
      AppDescriptor.Parameters descriptor = (before ++ definition :: after)%list /\
      AppParameter.Name definition = InstanceParameter.ParameterName parameter /\
      Forall (fun declared =>
                AppParameter.Name declared <> InstanceParameter.ParameterName parameter)
             before
  | inl _ => undeclared descriptor parameter
  end.
Proof.
  unfold findParameterInDescriptor.
  case_bool_decide as Hlen.
  - intros definition Hin.
    destruct (AppDescriptor.Parameters descriptor); [|done].
    by apply elem_of_nil in Hin.
  - destruct (findParameterByName _ _) as [definition|] eqn:Hfind.
    + by apply findParameterByName_Some.
    + unfold undeclared. by apply findParameterByName_None.
Qed.

Lemma applyParameters_accepted descriptor json params json' :
  applyParameters descriptor json params = inr json' ->
  Forall (accepted descriptor) params.
Proof.
  revert json. induction params as [|param rest IH]; intros json; simpl.
  - constructor.
  - destruct (findParameterInDescriptor descriptor param) as [err|definition] eqn:Hfind;
      [done|].
    destruct (validateInstanceParameter definition param) as [err|value] eqn:Hvalid;
      [done|].
    destruct (applyParameter json definition value) as [err|json1]; [done|].
    intros Hrest. constructor; [by exists definition, value|by eapply IH].
Qed.

(** X13: CreateParametrizedDescriptor applies all the parameters or returns no
    descriptor: when it returns one for a list of parameters, every parameter
    of the list is declared by the descriptor and its value passes the
    validation of the declared type. *)
Theorem CreateParametrizedDescriptor_applies_all_or_nothing
    (descriptor : AppDescriptor.t) (params : list InstanceParameter.t)
    (parametrized : ParametrizedDescriptor.t) :
  CreateParametrizedDescriptor descriptor (Some params) = inr parametrized ->
  Forall (accepted descriptor) params.
Proof.
  unfold CreateParametrizedDescriptor.
  destruct params as [|param rest]; [constructor|].
  destruct (json_Marshal _) as [err|json]; [done|].
  destruct (applyParameters descriptor json (param :: rest)) as [err|json'] eqn:Happly;
    [done|].
  intros _. by eapply applyParameters_accepted.
Qed.

(** X14: with no instance parameter, the descriptor that
    CreateParametrizedDescriptor returns has as many rules and groups as the
    original, a nil entry for a nil entry, but not every field: its
    AppInstanceId is empty, every rule has lost its TargetServiceGroupName and
    its OutboundNetInterface, and every group its Specs. *)
Theorem CreateParametrizedDescriptor_copy_drops_fields
    (descriptor : AppDescriptor.t) (parameters : InstanceParameterList) :
  noParameters parameters ->
  exists parametrized,
    CreateParametrizedDescriptor descriptor parameters = inr parametrized /\
    ParametrizedDescriptor.AppInstanceId parametrized = "" /\
    Forall2 (fun rule copy =>
               match rule, copy with
               | None, None => True
               | Some _, Some copy =>
                 SecurityRule.TargetServiceGroupName copy = "" /\
                 SecurityRule.OutboundNetInterface copy = ""
               | _, _ => False
               end)
            (AppDescriptor.Rules descriptor)
            (ParametrizedDescriptor.Rules parametrized) /\
    Forall2 (fun group copy =>
               match group, copy with
               | None, None => True
               | Some _, Some copy => ServiceGroup.Specs copy = None
               | _, _ => False
               end)
            (AppDescriptor.Groups descriptor)
            (ParametrizedDescriptor.Groups parametrized).
Proof.
  intros Hnone. exists (newParametrizedDescriptorFromDescriptor descriptor).
  split; [by destruct Hnone as [->| ->]|]. split; [done|].
  unfold newParametrizedDescriptorFromDescriptor. simpl. split.
  - induction (AppDescriptor.Rules descriptor) as [|[rule|] rest IH]; simpl;
      by constructor.
  - induction (AppDescriptor.Groups descriptor) as [|[group|] rest IH]; simpl;
      by constructor.
Qed.

End ParametrizationProperties.

(** X15: the required parameters: the check passes exactly when every
    parameter that the descriptor marks as required has a deploy parameter of
    its name, whatever its value; a nil list of deploy parameters counts as
    empty, and a parameter that is not required never fails the check.
    Otherwise the check fails with a failed-precondition error. *)
Theorem checkAllRequiredParametersAreFilled_iff (desc : AppDescriptor.t)
    (params : InstanceParameterList) :
  (checkAllRequiredParametersAreFilled desc params = None <->
   Forall (fun p => AppParameter.Required p = true -> filled params p)
          (AppDescriptor.Parameters desc)) /\
  (forall err, checkAllRequiredParametersAreFilled desc params = Some err ->
               errorClass err = Some derrors.FailedPrecondition).
Proof.
  split.
  - rewrite checkAllRequiredParametersAreFilled_passes, Forall_forall. done.
  - intros err Herr. by apply checkAllRequiredParametersAreFilled_error in Herr as ->.
Qed.

(** A list of one parameter, accepted by the descriptor that declares it. *)
Lemma CreateParametrizedDescriptor_applies_all_or_nothing_witness :
  let descriptor := descriptorWithParameters [modeParameter] in
  let params := [InstanceParameter.mk "mode" "fast"] in
  @CreateParametrizedDescriptor Scripted.libraries descriptor (Some params)
    = inr (newParametrizedDescriptorFromDescriptor descriptor) /\
  Forall (@accepted Scripted.libraries descriptor) params.
Proof.
  intros descriptor params.
  assert (@CreateParametrizedDescriptor Scripted.libraries descriptor (Some params)
            = inr (newParametrizedDescriptorFromDescriptor descriptor)) as Hcreate.
  { reflexivity. }
  split; [exact Hcreate|].
  exact (@CreateParametrizedDescriptor_applies_all_or_nothing Scripted.libraries
           descriptor params _ Hcreate).
Defined.

(** The copy of a descriptor whose rule names a target group and an outbound
    interface, and whose group has deployment specs. *)
Lemma CreateParametrizedDescriptor_copy_drops_fields_witness :
  exists parametrized,
    @CreateParametrizedDescriptor Scripted.libraries descriptorWithGroupSpecs None
      = inr parametrized /\
    ParametrizedDescriptor.AppInstanceId parametrized = "" /\
    Forall2 (fun rule copy =>
               match rule, copy with
               | None, None => True
               | Some _, Some copy =>
                 SecurityRule.TargetServiceGroupName copy = "" /\
                 SecurityRule.OutboundNetInterface copy = ""
               | _, _ => False
               end)
            (AppDescriptor.Rules descriptorWithGroupSpecs)
            (ParametrizedDescriptor.Rules parametrized) /\
    Forall2 (fun group copy =>
               match group, copy with
               | None, None => True
               | Some _, Some copy => ServiceGroup.Specs copy = None
               | _, _ => False
               end)
            (AppDescriptor.Groups descriptorWithGroupSpecs)
            (ParametrizedDescriptor.Groups parametrized).
Proof.
  apply (@CreateParametrizedDescriptor_copy_drops_fields Scripted.libraries
           descriptorWithGroupSpecs None).
  by left.
Defined.

(** ** Validation of the requests *)

(** X16: a deploy request is valid exactly when its organization, its
    descriptor identifier and its name are not empty; its parameters and its
    connections are not looked at. A request that is not valid is refused with
    an invalid-argument error that names the first empty field in that order.
    The identifier under which Deploy fetches the descriptor of a valid
    request is a valid descriptor identifier, of a valid organization. *)
Theorem ValidDeployRequest_spec (deployRequest : DeployRequest.t) :
  (entities.ValidDeployRequest deployRequest = None <->
   DeployRequest.OrganizationId deployRequest <> "" /\
   DeployRequest.AppDescriptorId deployRequest <> "" /\
   DeployRequest.Name deployRequest <> "") /\
  (forall err,
      entities.ValidDeployRequest deployRequest = Some err ->
      derrors.errType err = derrors.InvalidArgument /\
      derrors.message err =
        (if bool_decide (DeployRequest.OrganizationId deployRequest = "")
         then entities.emptyOrganizationId
         else if bool_decide (DeployRequest.AppDescriptorId deployRequest = "")
         then entities.emptyDescriptorId
         else entities.emptyName)) /\
  (entities.ValidDeployRequest deployRequest = None ->
   entities.ValidAppDescriptorID (descriptorOf deployRequest) = None /\
   entities.ValidOrganizationId (DeployRequest.OrganizationId deployRequest) = None).
Proof.
  unfold entities.ValidDeployRequest, entities.ValidAppDescriptorID,
    entities.ValidOrganizationId, descriptorOf. simpl.
  repeat case_bool_decide; (split; [|split]); try done;
    try (by intros err [= <-]); split; try done; tauto.
Qed.

(** ** Equations of the traced monad *)

Section TracedLaws.
Context {Ev St : Type}.

Lemma traced_value_ret {A} (a : A) (s : St) :
  Traced.value (Traced.ret (Ev := Ev) a s) = a.
Proof. reflexivity. Qed.
Lemma traced_final_ret {A} (a : A) (s : St) :
  Traced.final (Traced.ret (Ev := Ev) a s) = s.
Proof. reflexivity. Qed.
Lemma traced_events_ret {A} (a : A) (s : St) :
  Traced.events (Traced.ret (Ev := Ev) a s) = [].
Proof. reflexivity. Qed.

Lemma traced_value_bind {A B} (m : Traced.T (Ev := Ev) (St := St) A)
    (k : A -> Traced.T B) s :
  Traced.value (Traced.bind m k s) =
  Traced.value (k (Traced.value (m s)) (Traced.final (m s))).
Proof.
  unfold Traced.bind, Traced.value, Traced.final. destruct (m s) as [[a s1] t1].
  simpl. by destruct (k a s1) as [[b s2] t2].
Qed.
Lemma traced_final_bind {A B} (m : Traced.T (Ev := Ev) (St := St) A)
    (k : A -> Traced.T B) s :
  Traced.final (Traced.bind m k s) =
  Traced.final (k (Traced.value (m s)) (Traced.final (m s))).
Proof.
  unfold Traced.bind, Traced.value, Traced.final. destruct (m s) as [[a s1] t1].
  simpl. by destruct (k a s1) as [[b s2] t2].
Qed.
Lemma traced_events_bind {A B} (m : Traced.T (Ev := Ev) (St := St) A)
    (k : A -> Traced.T B) s :
  Traced.events (Traced.bind m k s) =
  (Traced.events (m s) ++
   Traced.events (k (Traced.value (m s)) (Traced.final (m s))))%list.
Proof.
  unfold Traced.bind, Traced.value, Traced.final, Traced.events.
  destruct (m s) as [[a s1] t1]. simpl. by destruct (k a s1) as [[b s2] t2].
Qed.

Lemma traced_value_call {A} (f : St -> A * St) (ev : A -> Ev) s :
  Traced.value (Traced.call f ev s) = fst (f s).
Proof. unfold Traced.call, Traced.value. by destruct (f s). Qed.
Lemma traced_final_call {A} (f : St -> A * St) (ev : A -> Ev) s :
  Traced.final (Traced.call f ev s) = snd (f s).
Proof. unfold Traced.call, Traced.final. by destruct (f s). Qed.
Lemma traced_events_call {A} (f : St -> A * St) (ev : A -> Ev) s :
  Traced.events (Traced.call f ev s) = [ev (fst (f s))].
Proof. unfold Traced.call, Traced.events. by destruct (f s). Qed.

Lemma traced_value_note (ev : Ev) (s : St) : Traced.value (Traced.note ev s) = tt.
Proof. reflexivity. Qed.
Lemma traced_final_note (ev : Ev) (s : St) : Traced.final (Traced.note ev s) = s.
Proof. reflexivity. Qed.
Lemma traced_events_note (ev : Ev) (s : St) :
  Traced.events (Traced.note ev s) = [ev].
Proof. reflexivity. Qed.

End TracedLaws.

Create Rewrite HintDb traced.
#[global] Hint Rewrite @traced_value_ret @traced_final_ret @traced_events_ret
  @traced_value_bind @traced_final_bind @traced_events_bind @traced_value_call
  @traced_final_call @traced_events_call @traced_value_note @traced_final_note
  @traced_events_note : traced.

Ltac traced := autorewrite with traced.

(** ** The endpoints of an instance *)

Section EndpointsProperties.
Context {St : Type} `{EndpointsCollaborators St}.

Lemma zip_short {A B} (l1 l2 : list A) (k : list B) :
  (length k <= length l1)%nat -> zip (l1 ++ l2) k = zip l1 k.
Proof.
  revert k. induction l1 as [|x l1 IH]; intros [|y k] Hlen; simpl in *; try done.
  - by destruct l2.
  - lia.
  - f_equal. apply IH. lia.
Qed.

Lemma zip_app_same {A B} (l1 l2 : list A) (k1 k2 : list B) :
  length k1 = length l1 -> zip (l1 ++ l2) (k1 ++ k2) = (zip l1 k1 ++ zip l2 k2)%list.
Proof.
  revert k1. induction l1 as [|x l1 IH]; intros [|y k1] Hlen; simpl in *; try done.
  f_equal. apply IH. lia.
Qed.

(** What the loop over the services of a group calls and collects. *)
Lemma serviceEndpoints_spec organizationId services appClusterEndPoints (s : St) :
  let run := serviceEndpoints organizationId services appClusterEndPoints s in
  exists clusters,
    (length clusters <= length (filter exposed services))%nat /\
    match Traced.value run with
    | inr endpoints =>
      length clusters = length (filter exposed services) /\
      endpoints =
        (appClusterEndPoints ++
         zip_with clusterEndpointsOf (filter exposed services) clusters)%list /\
      Traced.events run =
        map (clusterLookup organizationId)
            (zip (filter exposed services) (map inr clusters))
    | inl err =>
      (length clusters < length (filter exposed services))%nat /\
      Traced.events run =
        map (clusterLookup organizationId)
            (zip (filter exposed services) (map inr clusters ++ [inl err]))
    end.
Proof.
  revert appClusterEndPoints s.
  induction services as [|service rest IH]; intros appClusterEndPoints s; simpl.
  - exists []. split; [done|]. simpl. by rewrite app_nil_r.
  - rewrite filter_cons.
    destruct (bool_decide (ServiceInstance.Status service = _)
              && bool_decide (0 < length (ServiceInstance.Endpoints service))%nat)
      eqn:Hexp.
    + apply andb_true_iff in Hexp as [Hrun Hend].
      apply bool_decide_eq_true in Hrun, Hend.
      rewrite decide_True.
      2:{ split; [done|]. destruct (ServiceInstance.Endpoints service); [|done].
          simpl in Hend. lia. }
      traced. fold (clusterIdOf organizationId service).
      destruct (GetCluster (clusterIdOf organizationId service) s)
        as [[err|cluster] s1]; simpl.
      * exists []. traced. simpl. split; [lia|]. split; [lia|].
        by rewrite zip_with_nil_r.
      * destruct (IH (appClusterEndPoints
                      ++ [{| ApplicationClusterEndpoints.DeviceControllerUrl :=
                               "device-controller." +:+ Cluster.Hostname cluster;
                             ApplicationClusterEndpoints.Endpoints :=
                               fillEndpoints (ServiceInstance.Endpoints service) |}])%list
                     s1) as (clusters & Hlen & Hrun').
        exists (cluster :: clusters). simpl. split; [lia|]. unfold result in *.
        match type of Hrun' with
        | match ?v with inl _ => _ | inr _ => _ end => destruct v as [err|endpoints]
        end.
        -- destruct Hrun' as [Hlt ->]. split; [lia|done].
        -- destruct Hrun' as (Hl & -> & ->). split; [lia|].
           split; [by rewrite <- app_assoc|done].
    + rewrite decide_False.
      2:{ intros [Hrun Hend]. apply andb_false_iff in Hexp as [Hexp|Hexp];
            apply bool_decide_eq_false in Hexp; [done|].
          destruct (ServiceInstance.Endpoints service); [done|]. simpl in Hexp. lia. }
      apply IH.
Qed.

(** The same over the groups of the instance. *)
Lemma groupEndpoints_spec organizationId groups appClusterEndPoints (s : St) :
  let run := groupEndpoints organizationId groups appClusterEndPoints s in
  let services := flat_map ServiceGroupInstance.ServiceInstances groups in
  exists clusters,
    (length clusters <= length (filter exposed services))%nat /\
    match Traced.value run with
    | inr endpoints =>
      length clusters = length (filter exposed services) /\
      endpoints =
        (appClusterEndPoints ++
         zip_with clusterEndpointsOf (filter exposed services) clusters)%list /\
      Traced.events run =
        map (clusterLookup organizationId)
            (zip (filter exposed services) (map inr clusters))
    | inl err =>
      (length clusters < length (filter exposed services))%nat /\
      Traced.events run =
        map (clusterLookup organizationId)
            (zip (filter exposed services) (map inr clusters ++ [inl err]))
    end.
Proof.
  revert appClusterEndPoints s.
  induction groups as [|group rest IH]; intros appClusterEndPoints s; simpl.
  - exists []. split; [done|]. simpl. by rewrite app_nil_r.
  - rewrite filter_app. traced.
    destruct (serviceEndpoints_spec organizationId
                (ServiceGroupInstance.ServiceInstances group) appClusterEndPoints s)
      as (clusters1 & Hlen1 & Hrun1).
    cbv zeta in Hrun1. unfold result in *.
    match type of Hrun1 with
    | match ?v with inl _ => _ | inr _ => _ end => destruct v as [err|collected]
    end.
    + destruct Hrun1 as [Hlt Hev]. exists clusters1. traced. rewrite length_app.
      split; [lia|]. split; [lia|]. rewrite app_nil_r, Hev.
      rewrite zip_short; [done|]. rewrite length_app, length_map. simpl. lia.
    + destruct Hrun1 as (Hl & -> & Hev).
      destruct (IH (appClusterEndPoints
                    ++ zip_with clusterEndpointsOf
                         (filter exposed (ServiceGroupInstance.ServiceInstances group))
                         clusters1)%list
                   (Traced.final (serviceEndpoints organizationId
                      (ServiceGroupInstance.ServiceInstances group)
                      appClusterEndPoints s))) as (clusters2 & Hlen2 & Hrun2).
      cbv zeta in Hrun2. unfold result in *.
      exists (clusters1 ++ clusters2)%list. rewrite !length_app.
      split; [lia|].
      match type of Hrun2 with
      | match ?v with inl _ => _ | inr _ => _ end => destruct v as [err|endpoints]
      end.
      * destruct Hrun2 as [Hlt Hev2]. split; [lia|]. rewrite Hev, Hev2.
        rewrite map_app, <- app_assoc, zip_app_same by (by rewrite length_map).
        by rewrite map_app.
      * destruct Hrun2 as (Hl2 & -> & Hev2). split; [lia|]. split.
        -- rewrite zip_with_app by done. by rewrite <- app_assoc.
        -- rewrite Hev, Hev2, map_app, zip_app_same by (by rewrite length_map).
           by rewrite map_app.
Qed.

(** X17: RetrieveEndpoints looks up the instance and then, in the order of the
    groups and of their services, the cluster of each exposed service, that is
    to say of each running service that has an endpoint: a service that is not
    running, or that has no endpoint, costs no call and gives no entry. The
    first lookup that fails ends the run with its error, and nothing of what
    was collected is returned. When every lookup succeeds, the result has one
    entry per exposed service, in order: the device controller of the cluster,
    at device-controller.<hostname>, and the endpoints of the service, each
    with its port appended in decimal to its FQDN. *)
Theorem RetrieveEndpoints_asks_the_cluster_of_each_exposed_service
    (request : RetrieveEndpointsRequest.t) (s : St) :
  let run := RetrieveEndpoints request s in
  let organizationId := RetrieveEndpointsRequest.OrganizationId request in
  let instanceID := {|
    AppInstanceId.OrganizationId := organizationId;
    AppInstanceId.AppInstanceId := RetrieveEndpointsRequest.AppInstanceId request
  |} in
  match fst (GetDeployedInstance instanceID s) with
  | inl err =>
    Traced.value run = inl err /\
    Traced.events run = [EvGetDeployedInstance instanceID (inl err)]
  | inr instance =>
    let services := filter exposed (servicesOf instance) in
    exists clusters,
      match Traced.value run with
      | inr endpoints =>
        length clusters = length services /\
        endpoints = zip_with clusterEndpointsOf services clusters /\
        Traced.events run =
          EvGetDeployedInstance instanceID (inr instance)
          :: map (clusterLookup organizationId) (zip services (map inr clusters))
      | inl err =>
        (length clusters < length services)%nat /\
        Traced.events run =
          EvGetDeployedInstance instanceID (inr instance)
          :: map (clusterLookup organizationId)
               (zip services (map inr clusters ++ [inl err]))
      end
  end.
Proof.
  intros run organizationId instanceID. subst run. unfold RetrieveEndpoints.
  fold organizationId. fold instanceID. traced.
  destruct (GetDeployedInstance instanceID s) as [[err|instance] s1]; simpl;
    [by traced|].
  destruct (groupEndpoints_spec organizationId (DeployedAppInstance.Groups instance)
              [] s1) as (clusters & _ & Hrun).
  cbv zeta in Hrun. exists clusters. unfold servicesOf, result in *.
  match type of Hrun with
  | match ?v with inl _ => _ | inr _ => _ end => destruct v as [err|endpoints]
  end.
  - destruct Hrun as [Hlt ->]. done.
  - destruct Hrun as (Hl & -> & ->). done.
Qed.

End EndpointsProperties.

(** The endpoints of the sample instance: the clusters of "svc1" and of
    "svc4" are looked up, "svc2" has no endpoint and "svc3" is not running. *)
Example RetrieveEndpoints_on_sample :
  @RetrieveEndpoints nat
    (ScriptedEndpoints.collaborators
       (ScriptedEndpoints.mk (inr sampleDeployedInstance)
          [Cluster.mk "cluster1" "c1.nalej.io"; Cluster.mk "cluster2" "c2.nalej.io"]))
    (RetrieveEndpointsRequest.mk "org1" "inst1") 0%nat
  = (inr [ApplicationClusterEndpoints.mk "device-controller.c1.nalej.io"
            [sampleEndpoint "web.nalej.io:80" 80];
          ApplicationClusterEndpoints.mk "device-controller.c2.nalej.io"
            [sampleEndpoint "api.nalej.io:8080" 8080]],
     3%nat,
     [EvGetDeployedInstance (AppInstanceId.mk "org1" "inst1")
        (inr sampleDeployedInstance);
      EvGetCluster (ClusterId.mk "org1" "cluster1")
        (inr (Cluster.mk "cluster1" "c1.nalej.io"));
      EvGetCluster (ClusterId.mk "org1" "cluster2")
        (inr (Cluster.mk "cluster2" "c2.nalej.io"))]).
Proof. vm_compute. reflexivity. Qed.

(** When the cluster of "svc4" is not known, the entry collected for "svc1"
    is not returned. *)
Example RetrieveEndpoints_on_unknown_cluster :
  Traced.value
    (@RetrieveEndpoints nat
       (ScriptedEndpoints.collaborators
          (ScriptedEndpoints.mk (inr sampleDeployedInstance)
             [Cluster.mk "cluster1" "c1.nalej.io"]))
       (RetrieveEndpointsRequest.mk "org1" "inst1") 0%nat)
  = inl (ForeignError "rpc error: code = NotFound").
Proof. vm_compute. reflexivity. Qed.

(** ** Unified logging: the names of a log entry *)

Lemma findServiceName_spec services serviceId :
  unified_logging.findServiceName services serviceId =
  ServiceInstanceReducedSummary.ServiceName <$>
    head (filter (fun service =>
                    ServiceInstanceReducedSummary.ServiceId service = serviceId)
                 services).
Proof.
  induction services as [|service rest IH]; simpl; [done|].
  rewrite filter_cons. case_bool_decide as Hid.
  - by rewrite decide_True.
  - by rewrite decide_False.
Qed.

Lemma namesLoop_spec groups serviceGroupId serviceId groupName :
  unified_logging.namesLoop groups serviceGroupId serviceId groupName =
  match head (namedPairs serviceGroupId serviceId groups) with
  | Some names => names
  | None =>
    (default groupName
       (ServiceGroupInstanceReducedSummary.ServiceGroupName <$>
          last (groupsNamed serviceGroupId groups)),
     "Unknown")
  end.
Proof.
  revert groupName. unfold namedPairs, groupsNamed.
  induction groups as [|group rest IH]; intros groupName; simpl; [done|].
  rewrite filter_cons. case_bool_decide as Hid.
  - rewrite decide_True by done. simpl.
    rewrite findServiceName_spec. fold (serviceNamed serviceId group).
    destruct (serviceNamed serviceId group) as [serviceName|]; simpl; [done|].
    rewrite IH, last_cons.
    destruct (head _); [done|]. by destruct (last _).
  - rewrite decide_False by done. apply IH.
Qed.

(** X18: getNamesFromSummary answers with the names of the first group of the
    identifier that holds the service, and of the first service of the
    identifier in that group. When no group of the identifier holds the
    service, the service name is "Unknown" and the group name is the name of
    the last group that has the identifier, or "Unknown" when no group has it;
    both names are "Unknown" for a nil summary. *)
Theorem getNamesFromSummary_spec (serviceGroupId serviceId : string)
    (inst : option AppInstanceReducedSummary.t) :
  unified_logging.getNamesFromSummary serviceGroupId serviceId inst =
  match inst with
  | None => ("Unknown", "Unknown")
  | Some summary =>
    let groups := AppInstanceReducedSummary.Groups summary in
    match head (namedPairs serviceGroupId serviceId groups) with
    | Some names => names
    | None =>
      (default "Unknown"
         (ServiceGroupInstanceReducedSummary.ServiceGroupName <$>
            last (groupsNamed serviceGroupId groups)),
       "Unknown")
    end
  end.
Proof.
  destruct inst as [summary|]; [|done]. simpl. apply namesLoop_spec.
Qed.

(** On the sample summary: the service "s2" of the group "g1" is found in
    the second group of that identifier; the service "s9" is not found, and
    the group name is the one of the last group "g1". *)
Example getNamesFromSummary_on_sample :
  unified_logging.getNamesFromSummary "g1" "s2" (Some sampleSummary)
    = ("front-replica", "cache") /\
  unified_logging.getNamesFromSummary "g1" "s9" (Some sampleSummary)
    = ("front-replica", "Unknown") /\
  unified_logging.getNamesFromSummary "g9" "s1" (Some sampleSummary)
    = ("Unknown", "Unknown").
Proof. repeat split; vm_compute; reflexivity. Qed.

(** ** Unified logging: the search *)

Section LoggingProperties.
Context {St : Type} `{LoggingCollaborators St}.

Lemma expandInformation_expansion organizationId logEntry expand (s : St) :
  let run := unified_logging.expandInformation organizationId logEntry expand s in
  expansion organizationId expand logEntry (Traced.value run) (Traced.events run).
Proof.
  unfold unified_logging.expandInformation, expansion.
  destruct expand; cbn [negb]; [|done].
  case_bool_decide as Hid; [by traced|].
  traced.
  exists (fst (RetrieveInstanceSummary organizationId
                 (LogEntryResponse.AppInstanceId logEntry) s)).
  destruct (RetrieveInstanceSummary _ _ s) as [[err|summary] s1]; cbn [fst snd].
  - by traced.
  - destruct (unified_logging.getNamesFromSummary _ _ _) as [groupName serviceName].
    by traced.
Qed.

Lemma expandEntries_spec organizationId includeMetadata response entries logResponse
    (s : St) :
  let run :=
    unified_logging.expandEntries organizationId includeMetadata response entries
      logResponse s in
  exists outcomes : list (LogEntryResponse.t * list LoggingEvent),
    Forall2 (fun logEntry outcome =>
               expansion organizationId includeMetadata logEntry outcome.1 outcome.2)
            (map (unified_logging.entryOf response) entries) outcomes /\
    Traced.value run = (logResponse ++ map fst outcomes)%list /\
    Traced.events run = concat (map snd outcomes).
Proof.
  revert logResponse s.
  induction entries as [|entry rest IH]; intros logResponse s; simpl.
  - exists []. split; [constructor|]. by rewrite app_nil_r.
  - traced.
    set (first := unified_logging.expandInformation organizationId
                    (unified_logging.entryOf response entry) includeMetadata s).
    destruct (IH (logResponse ++ [Traced.value first])%list (Traced.final first))
      as (outcomes & Hall & Hval & Hev).
    exists ((Traced.value first, Traced.events first) :: outcomes).
    split; [|split].
    + constructor; [|exact Hall]. apply expandInformation_expansion.
    + rewrite Hval. simpl. by rewrite <- app_assoc.
    + rewrite Hev. done.
Qed.

Lemma expandResponses_spec organizationId includeMetadata responses logResponse
    (s : St) :
  let run :=
    unified_logging.expandResponses organizationId includeMetadata responses
      logResponse s in
  exists outcomes : list (LogEntryResponse.t * list LoggingEvent),
    Forall2 (fun logEntry outcome =>
               expansion organizationId includeMetadata logEntry outcome.1 outcome.2)
            (rawEntries responses) outcomes /\
    Traced.value run = (logResponse ++ map fst outcomes)%list /\
    Traced.events run = concat (map snd outcomes).
Proof.
  revert logResponse s. unfold rawEntries.
  induction responses as [|response rest IH]; intros logResponse s; simpl.
  - exists []. split; [constructor|]. by rewrite app_nil_r.
  - traced.
    destruct (expandEntries_spec organizationId includeMetadata response
                (CoordinatorLogEntries.Entries response) logResponse s)
      as (outcomes1 & Hall1 & Hval1 & Hev1).
    cbv zeta in Hval1, Hev1. rewrite Hval1, Hev1.
    destruct (IH (logResponse ++ map fst outcomes1)%list
                 (Traced.final (unified_logging.expandEntries organizationId
                    includeMetadata response (CoordinatorLogEntries.Entries response)
                    logResponse s))) as (outcomes2 & Hall2 & Hval2 & Hev2).
    cbv zeta in Hval2, Hev2. rewrite Hval2, Hev2.
    exists (outcomes1 ++ outcomes2)%list. split; [|split].
    + by apply Forall2_app.
    + by rewrite map_app, <- app_assoc.
    + by rewrite map_app, concat_app.
Qed.

(** X19: Search hands the request to the coordinator, without its
    IncludeMetadata flag, and returns the error of the coordinator with no
    further call. On an answer, it returns the organization and the time range
    of the answer with one entry per log entry of the coordinator, response
    after response and in order; each entry is expanded on its own, with a
    retrieval of its own: without IncludeMetadata it is left as it is, at no
    cost; with it, an entry of no instance gets the three names "Unknown", an
    entry whose summary is retrieved gets the names of the summary, and an
    entry whose summary cannot be retrieved keeps its empty names, with a
    warning. *)
Theorem Search_expands_every_entry (request : SearchRequest.t) (s : St) :
  let run := unified_logging.Search request s in
  match fst (coordinator_Search (coordinatorRequestOf request) s) with
  | inl err =>
    Traced.value run = inl err /\
    Traced.events run = [EvSearch (coordinatorRequestOf request) (inl err)]
  | inr searchResponse =>
    exists outcomes : list (LogEntryResponse.t * list LoggingEvent),
      Forall2 (fun logEntry outcome =>
                 expansion (SearchRequest.OrganizationId request)
                   (SearchRequest.IncludeMetadata request) logEntry outcome.1 outcome.2)
              (rawEntries (CoordinatorLogResponse.Responses searchResponse)) outcomes /\
      Traced.value run =
        inr {| LogResponse.OrganizationId :=
                 CoordinatorLogResponse.OrganizationId searchResponse;
               LogResponse.From := CoordinatorLogResponse.From searchResponse;
               LogResponse.To := CoordinatorLogResponse.To searchResponse;
               LogResponse.Entries := map fst outcomes |} /\
      Traced.events run =
        EvSearch (coordinatorRequestOf request) (inr searchResponse)
        :: concat (map snd outcomes)
  end.
Proof.
  intros run. subst run. unfold unified_logging.Search.
  fold (coordinatorRequestOf request). traced.
  destruct (coordinator_Search (coordinatorRequestOf request) s)
    as [[err|searchResponse] s1]; cbn [fst snd]; [by traced|].
  traced.
  destruct (expandResponses_spec (SearchRequest.OrganizationId request)
              (SearchRequest.IncludeMetadata request)
              (CoordinatorLogResponse.Responses searchResponse) [] s1)
    as (outcomes & Hall & Hval & Hev).
  cbv zeta in Hval, Hev. rewrite Hval, Hev.
  exists outcomes. split; [exact Hall|]. split; [done|].
  by rewrite app_nil_r.
Qed.

(** ** Unified logging: the catalog *)

(** What the body of the loop of ManageCatalog does for one service. *)
Lemma manageService_recorded organizationId service (s : St) :
  let step :=
    Traced.bind (unified_logging.addToHistory organizationId service)
      (fun addErr =>
         match addErr with
         | Some err => Traced.ret (Some err)
         | None => unified_logging.updateInHistory organizationId service
         end) s in
  recorded organizationId service (Traced.value step) (Traced.events step).
Proof.
  unfold recorded, unified_logging.addToHistory, unified_logging.updateInHistory.
  destruct (ServiceUpdate.Status service) eqn:Hstatus;
    repeat case_bool_decide; try done; cbn [orb]; traced.
  - destruct (RetrieveInstanceSummary _ _ s) as [[sumErr|summary] s1]; cbn [fst snd].
    + left. exists sumErr. traced. by rewrite !app_nil_r.
    + right. exists summary, (fst (time_Now_UnixNano s1)). traced.
      destruct (fst (history_Add _ _)); traced; by rewrite ?app_nil_r.
  - exists (fst (time_Now_UnixNano s)). traced. by rewrite ?app_nil_r.
  - exists (fst (time_Now_UnixNano s)). traced. by rewrite ?app_nil_r.
Qed.

(** X20: ManageCatalog goes through the services of the request in order and
    stops at the first error, which it returns. For each service it reaches,
    what it does depends on the status alone. A service that is deploying has
    its summary retrieved and, under the descriptor of the summary and with
    the time read from the clock, is added to the history; when the summary
    cannot be retrieved, nothing is added and the error is returned as a gRPC
    error. A service in error or terminating is updated in the history with
    the time read from the clock. A service in any other status costs no call.
    *)
Theorem ManageCatalog_records_by_status
    (request : DeploymentServiceUpdateRequest.t) (s : St) :
  let run := unified_logging.ManageCatalog request s in
  let organizationId := DeploymentServiceUpdateRequest.OrganizationId request in
  let services := DeploymentServiceUpdateRequest.List request in
  exists outcomes : list (option error * list LoggingEvent),
    Forall2 (fun service outcome => recorded organizationId service outcome.1 outcome.2)
            (take (length outcomes) services) outcomes /\
    Traced.events run = concat (map snd outcomes) /\
    match Traced.value run with
    | None =>
      length outcomes = length services /\
      Forall (fun outcome => outcome.1 = None) outcomes
    | Some err =>
      exists before evs,
        outcomes = (before ++ [(Some err, evs)])%list /\
        Forall (fun outcome => outcome.1 = None) before
    end.
Proof.
  intros run organizationId services. subst run services.
  unfold unified_logging.ManageCatalog. fold organizationId.
  revert s.
  induction (DeploymentServiceUpdateRequest.List request) as [|service rest IH];
    intros s.
  - exists []. simpl. split; [constructor|]. split; [done|]. split; [done|constructor].
  - pose proof (manageService_recorded organizationId service s) as Hstep.
    cbv zeta in Hstep. revert Hstep.
    cbn [unified_logging.manageServices]. traced.
    set (added := unified_logging.addToHistory organizationId service s).
    destruct (Traced.value added) as [addErr|] eqn:Hadded.
    + traced. intros Hstep. rewrite app_nil_r in Hstep.
      exists [(Some addErr, Traced.events added)]. simpl.
      split; [by constructor|]. split; [by rewrite !app_nil_r|].
      exists [], (Traced.events added). by split; [|constructor].
    + traced.
      set (updated := unified_logging.updateInHistory organizationId service
                        (Traced.final added)).
      destruct (Traced.value updated) as [updateErr|] eqn:Hupdated.
      * traced. intros Hstep.
        exists [(Some updateErr, (Traced.events added ++ Traced.events updated)%list)].
        simpl. split; [by constructor|]. split; [by rewrite !app_nil_r|].
        exists [], (Traced.events added ++ Traced.events updated)%list.
        by split; [|constructor].
      * intros Hstep.
        destruct (IH (Traced.final updated)) as (outcomes & Hall & Hev & Hval).
        exists ((None, (Traced.events added ++ Traced.events updated)%list)
                :: outcomes).
        simpl. split; [by constructor|]. split.
        { by rewrite Hev, <- app_assoc. }
        destruct (Traced.value (unified_logging.manageServices _ rest _))
          as [err|].
        -- destruct Hval as (before & evs & -> & Hbefore).
           exists ((None, (Traced.events added ++ Traced.events updated)%list)
                   :: before), evs.
           split; [done|]. by constructor.
        -- destruct Hval as [Hlen Hnone]. split; [by rewrite Hlen|].
           by constructor.
Qed.

End LoggingProperties.

(** A request of three services on a history that refuses the updates: the
    deploying service is added, the running one costs no call, the update of
    the terminating one fails and ends the run. *)
Example ManageCatalog_on_sample :
  @unified_logging.ManageCatalog Z
    (ScriptedLogging.collaborators
       (ScriptedLogging.mk (inl (ForeignError "not used")) [("inst1", sampleSummary)]
          None (Some (ForeignError "rpc error: code = Unavailable"))))
    (DeploymentServiceUpdateRequest.mk "org1"
       [ServiceUpdate.mk "inst1" "g1" "gi1" "s1" "si1" ServiceStatus_SERVICE_DEPLOYING;
        ServiceUpdate.mk "inst1" "g1" "gi1" "s2" "si2" ServiceStatus_SERVICE_RUNNING;
        ServiceUpdate.mk "inst1" "g2" "gi2" "s3" "si3" ServiceStatus_SERVICE_TERMINATING;
        ServiceUpdate.mk "inst1" "g2" "gi2" "s4" "si4" ServiceStatus_SERVICE_DEPLOYING])
    100
  = (Some (ForeignError "rpc error: code = Unavailable"), 102,
     [EvRetrieveInstanceSummary "org1" "inst1" (inr sampleSummary);
      EvNow 100;
      EvAddLog (AddLogRequest.mk "org1" "inst1" "desc1" "g1" "gi1" "s1" "si1" 100) None;
      EvNow 101;
      EvUpdateLog (UpdateLogRequest.mk "org1" "inst1" "si3" 101)
        (Some (ForeignError "rpc error: code = Unavailable"))]).
Proof. vm_compute. reflexivity. Qed.

(** ** The target applications of a device group *)

Section TargetProperties.
Context {St : Type} `{TargetCollaborators St}.


End TargetProperties.

